(** * Speculative decoding plugin for HuggingFace models: EAGLE forward pass

    A shallow embedding of [modelopt/torch/speculative/plugins/transformers.py]
    and the properties of its draft-module rollout:

    - [EagleModule._prepare_tree_attention_mask]: the tree attention mask builder;
    - [ModifiedLlamaAttention.forward], [ModifiedLlamaDecoderLayer.forward]:
      the draft decoder layer;
    - [EagleModule.forward]: the draft module;
    - [HFEagleModel.forward]: the four-step speculative rollout;
    - [HFEagleModel._eagle_loss]: the auxiliary loss;
    - [HFEagleModel._set_default_aux_hidden_state_layers]: the default
      auxiliary layers;
    - [HFMedusaModel.modify], [HFMedusaModel.forward]: the Medusa heads and
      their loss.

    Tensors are a shape together with an index function, 4-d attention masks
    live in a store of mutable objects (the source updates them in place and
    returns them by reference), Python exceptions are an error result.
    Scalar arithmetic is an interface [Scalar]: everything about control flow,
    shifting, masking and loss accumulation holds for any arithmetic, the
    facts about the value of the loss are stated over the reals, that is in
    exact arithmetic, without rounding, underflow, infinities or nan.

    The layers are maps on tensors, their weights abstracted. The calls that
    raise on their arguments are kept with their checks: the query of the
    process rank, the cross-entropy on labels, the input width of [fc].
    [print], devices, dtype conversions and autograd bookkeeping ([no_grad],
    [detach]) have no effect on the values computed and are left out. *)

From Stdlib Require Import List Arith ZArith Lia Bool Reals Lra.
Import ListNotations.

Set Implicit Arguments.

(** ** Python: exceptions, integer division, ranges, indexing *)

Module Py.

Inductive error : Type :=
| IndexError
| ZeroDivisionError
| RuntimeError
| AttributeError
| UnboundLocalError
| ValueError.

Inductive result (A : Type) : Type :=
| Ok (a : A)
| Err (e : error).

Arguments Ok {A} a.
Arguments Err {A} e.

Definition rbind {A B : Type} (r : result A) (k : A -> result B) : result B :=
  match r with
  | Ok a => k a
  | Err e => Err e
  end.

(** [a // b] on non-negative integers. *)
Definition floordiv (a b : nat) : result nat :=
  if b =? 0 then Err ZeroDivisionError else Ok (a / b).

(** [for x in xs: s = body x s], stopping at the first exception. *)
Fixpoint foreach {A S : Type} (xs : list A) (body : A -> S -> result S) (s : S)
  : result S :=
  match xs with
  | [] => Ok s
  | x :: xs' => rbind (body x s) (foreach xs' body)
  end.

(** [range(n)] *)
Definition range (n : nat) : list nat := seq 0 n.

(** [l[i]] for a non-negative index. *)
Definition getitem {A : Type} (l : list A) (i : nat) : result A :=
  match nth_error l i with
  | Some a => Ok a
  | None => Err IndexError
  end.

(** [l[i]] for any integer index: negative indices count from the end. *)
Definition getitem_z {A : Type} (l : list A) (i : Z) : result A :=
  let n := Z.of_nat (length l) in
  if (0 <=? i)%Z then getitem l (Z.to_nat i)
  else if (0 <=? n + i)%Z then getitem l (Z.to_nat (n + i))
  else Err IndexError.

(** [l[i:]] for [i >= 0]. *)
Definition slice_from {A : Type} (i : nat) (l : list A) : list A := skipn i l.

(** [l[:j]]: a negative stop counts from the end, and is clipped at 0. *)
Definition slice_to {A : Type} (j : Z) (l : list A) : list A :=
  if (0 <=? j)%Z then firstn (Z.to_nat j) l
  else firstn (Z.to_nat (Z.of_nat (length l) + j)) l.

(** [[f x for x in xs]], stopping at the first exception. *)
Fixpoint comprehension {A B : Type} (f : A -> result B) (xs : list A)
  : result (list B) :=
  match xs with
  | [] => Ok []
  | x :: xs' =>
      rbind (f x) (fun y => rbind (comprehension f xs') (fun ys => Ok (y :: ys)))
  end.

(** No exception was raised. *)
Definition succeeded {A : Type} (r : result A) : bool :=
  match r with
  | Ok _ => true
  | Err _ => false
  end.

End Py.

Import Py.

Notation "'let*' x ':=' e 'in' k" := (rbind e (fun x => k))
  (at level 10, x pattern, e at level 100, k at level 200).

(** ** Torch: scalars and tensors *)

Module Torch.

(** The arithmetic of a floating dtype, with the literals of the source. *)
Class Scalar (T : Type) : Type := {
  zero : T;
  one : T;
  add : T -> T -> T;
  sub : T -> T -> T;
  mul : T -> T -> T;
  div : T -> T -> T;
  neg : T -> T;
  abs : T -> T;
  ltb : T -> T -> bool;
  exp : T -> T;
  log : T -> T;
  pow : T -> nat -> T;          (* [x ** n] *)
  of_nat : nat -> T;
  lit_0_8 : T;                  (* [0.8] *)
  lit_0_5 : T;                  (* [0.5] *)
  lit_1e_5 : T;                 (* [1e-5] *)
  finfo_min : T                 (* [torch.finfo(dtype).min] *)
}.

Section Tensors.

Context {T : Type}.

(** A 4-d tensor [bsz, heads, tgt, src]. *)
Record tensor4 : Type := Tensor4 {
  shape4 : nat * nat * nat * nat;
  get4 : nat -> nat -> nat -> nat -> T
}.

(** [torch.full(shape, v)] *)
Definition full4 (shape : nat * nat * nat * nat) (v : T) : tensor4 :=
  {| shape4 := shape; get4 := fun _ _ _ _ => v |}.

(** [dst[:, :, :, :n] = src] *)
Definition assign_low_columns (dst : tensor4) (n : nat) (src : tensor4) : tensor4 :=
  {| shape4 := shape4 dst;
     get4 := fun b h r c => if c <? n then get4 src b h r c else get4 dst b h r c |}.

(** [m[:, :, i, j] = v]; an index out of range raises. *)
Definition setitem_rc (m : tensor4) (i j : nat) (v : T) : result tensor4 :=
  let '(_, _, tgt_len, src_len) := shape4 m in
  if (i <? tgt_len) && (j <? src_len) then
    Ok {| shape4 := shape4 m;
          get4 := fun b h r c =>
            if (r =? i) && (c =? j) then v else get4 m b h r c |}
  else Err IndexError.

(** [m[:, :, ind0, ind1] = v] for two index lists of one length: the entries
    [(ind0[t], ind1[t])] are written in every batch and head. *)
Definition index_put_rc (m : tensor4) (ind0 ind1 : list nat) (v : T)
  : result tensor4 :=
  if length ind0 =? length ind1 then
    foreach (combine ind0 ind1) (fun '(i, j) m' => setitem_rc m' i j v) m
  else Err IndexError.

(** A 3-d tensor [batch, seq, features]. *)
Record tensor3 : Type := Tensor3 {
  shape3 : nat * nat * nat;
  get3 : nat -> nat -> nat -> T
}.

(** [torch.zeros(d0, d1, d2)], and any constant tensor. *)
Definition full3 (shape : nat * nat * nat) (v : T) : tensor3 :=
  {| shape3 := shape; get3 := fun _ _ _ => v |}.

(** [t[:, 1:]] *)
Definition drop_first3 (t : tensor3) : tensor3 :=
  let '(d0, d1, d2) := shape3 t in
  {| shape3 := (d0, d1 - 1, d2); get3 := fun b s v => get3 t b (s + 1) v |}.

(** [torch.cat((a, b), dim=1)]: the other dimensions have to agree. *)
Definition cat3_dim1 (a b : tensor3) : result tensor3 :=
  let '(a0, a1, a2) := shape3 a in
  let '(b0, b1, b2) := shape3 b in
  if (a0 =? b0) && (a2 =? b2) then
    Ok {| shape3 := (a0, a1 + b1, a2);
          get3 := fun i s v => if s <? a1 then get3 a i s v else get3 b i (s - a1) v |}
  else Err RuntimeError.

End Tensors.

Arguments tensor4 T : clear implicits.
Arguments tensor3 T : clear implicits.

(** A 2-d tensor [batch, seq] of token ids, positions or mask values. *)
Record tensor2 (X : Type) : Type := Tensor2 {
  shape2 : nat * nat;
  get2 : nat -> nat -> X
}.

Section Tensors2.

Context {X : Type}.

Definition full2 (shape : nat * nat) (v : X) : tensor2 X :=
  {| shape2 := shape; get2 := fun _ _ => v |}.

(** [t[:, 1:]] *)
Definition drop_first2 (t : tensor2 X) : tensor2 X :=
  let '(d0, d1) := shape2 t in
  {| shape2 := (d0, d1 - 1); get2 := fun b s => get2 t b (s + 1) |}.

(** [torch.cat((a, b), dim=1)] *)
Definition cat2_dim1 (a b : tensor2 X) : result (tensor2 X) :=
  let '(a0, a1) := shape2 a in
  let '(b0, b1) := shape2 b in
  if a0 =? b0 then
    Ok {| shape2 := (a0, a1 + b1);
          get2 := fun i s => if s <? a1 then get2 a i s else get2 b i (s - a1) |}
  else Err RuntimeError.

(** [t.view(-1, n)]: the elements in row-major order, [n] to a row. The
    number of rows cannot be inferred when [n] is 0, and [n] has to divide
    the number of elements. *)
Definition view_rows (t : tensor2 X) (n : nat) : result (tensor2 X) :=
  let '(d0, d1) := shape2 t in
  if n =? 0 then Err RuntimeError
  else if (d0 * d1) mod n =? 0 then
    Ok {| shape2 := ((d0 * d1) / n, n);
          get2 := fun r c => get2 t ((r * n + c) / d1) ((r * n + c) mod d1) |}
  else Err RuntimeError.

Definition map2 {Y : Type} (f : X -> Y) (t : tensor2 X) : tensor2 Y :=
  {| shape2 := shape2 t; get2 := fun b s => f (get2 t b s) |}.

End Tensors2.

(** [torch.arange(n).unsqueeze(0)] *)
Definition arange_row (n : nat) : tensor2 Z :=
  {| shape2 := (1, n); get2 := fun _ s => Z.of_nat s |}.

(** *** Arithmetic on tensors *)

Section Arithmetic.

Context {T : Type} `{Scalar T}.

(** The sum of [f 0 .. f (n-1)], accumulated from the left. *)
Definition sum_range (n : nat) (f : nat -> T) : T :=
  fold_left (fun acc i => add acc (f i)) (seq 0 n) zero.

(** Python's [sum(l)]: the elements are added to 0 from the left. *)
Definition py_sum (l : list T) : T := fold_left add l zero.

(** Broadcasting of one dimension: equal sizes, or one of them is 1. *)
Definition broadcast_dim (a b : nat) : result nat :=
  if a =? b then Ok a
  else if a =? 1 then Ok b
  else if b =? 1 then Ok a
  else Err RuntimeError.

(** The index read in a dimension of size [d] when the result is indexed
    at [i]: a dimension of size 1 is repeated. *)
Definition broadcast_index (d i : nat) : nat := if d =? 1 then 0 else i.

(** An elementwise binary operation on two 3-d tensors, with broadcasting. *)
Definition binop3 (f : T -> T -> T) (a b : tensor3 T) : result (tensor3 T) :=
  let '(a0, a1, a2) := shape3 a in
  let '(b0, b1, b2) := shape3 b in
  let* d0 := broadcast_dim a0 b0 in
  let* d1 := broadcast_dim a1 b1 in
  let* d2 := broadcast_dim a2 b2 in
  Ok {| shape3 := (d0, d1, d2);
        get3 := fun i j k =>
          f (get3 a (broadcast_index a0 i) (broadcast_index a1 j) (broadcast_index a2 k))
            (get3 b (broadcast_index b0 i) (broadcast_index b1 j) (broadcast_index b2 k)) |}.

(** An elementwise binary operation on two 4-d tensors, with broadcasting. *)
Definition binop4 (f : T -> T -> T) (a b : tensor4 T) : result (tensor4 T) :=
  let '(a0, a1, a2, a3) := shape4 a in
  let '(b0, b1, b2, b3) := shape4 b in
  let* d0 := broadcast_dim a0 b0 in
  let* d1 := broadcast_dim a1 b1 in
  let* d2 := broadcast_dim a2 b2 in
  let* d3 := broadcast_dim a3 b3 in
  Ok {| shape4 := (d0, d1, d2, d3);
        get4 := fun i j k l =>
          f (get4 a (broadcast_index a0 i) (broadcast_index a1 j)
                    (broadcast_index a2 k) (broadcast_index a3 l))
            (get4 b (broadcast_index b0 i) (broadcast_index b1 j)
                    (broadcast_index b2 k) (broadcast_index b3 l)) |}.

(** [t[:, :, None]] *)
Definition unsqueeze_last (t : tensor2 T) : tensor3 T :=
  let '(d0, d1) := shape2 t in
  {| shape3 := (d0, d1, 1); get3 := fun b s _ => get2 t b s |}.

(** [torch.sum(t, 2)] *)
Definition sum_dim2 (t : tensor3 T) : tensor2 T :=
  let '(d0, d1, d2) := shape3 t in
  {| shape2 := (d0, d1); get2 := fun b s => sum_range d2 (get3 t b s) |}.

(** [torch.mean(t, 2)]: the sum over the last axis divided by its length,
    which is 0 / 0 on an empty axis. *)
Definition mean_dim2 (t : tensor3 T) : tensor2 T :=
  let '(d0, d1, d2) := shape3 t in
  {| shape2 := (d0, d1);
     get2 := fun b s => div (sum_range d2 (get3 t b s)) (of_nat d2) |}.

(** [torch.sum(t)] of a 2-d tensor. *)
Definition sum2 (t : tensor2 T) : T :=
  let '(d0, d1) := shape2 t in
  sum_range d0 (fun b => sum_range d1 (get2 t b)).

(** [t.sum()] of a 3-d tensor. *)
Definition sum3 (t : tensor3 T) : T :=
  let '(d0, d1, d2) := shape3 t in
  sum_range d0 (fun b => sum_range d1 (fun s => sum_range d2 (get3 t b s))).

(** [nn.Softmax(dim=2)] *)
Definition Softmax_dim2 (t : tensor3 T) : tensor3 T :=
  let '(_, _, d2) := shape3 t in
  {| shape3 := shape3 t;
     get3 := fun b s v =>
       div (exp (get3 t b s v)) (sum_range d2 (fun j => exp (get3 t b s j))) |}.

(** [nn.LogSoftmax(dim=2)] *)
Definition LogSoftmax_dim2 (t : tensor3 T) : tensor3 T :=
  let '(_, _, d2) := shape3 t in
  {| shape3 := shape3 t;
     get3 := fun b s v =>
       sub (get3 t b s v) (log (sum_range d2 (fun j => exp (get3 t b s j)))) |}.

(** [nn.SmoothL1Loss(reduction="none")] on one pair of elements, with the
    default [beta = 1.0]. *)
Definition smooth_l1 (x y : T) : T :=
  let d := abs (sub x y) in
  if ltb d one then div (mul lit_0_5 (mul d d)) one
  else sub d (mul lit_0_5 one).

Definition SmoothL1Loss (input target : tensor3 T) : result (tensor3 T) :=
  binop3 smooth_l1 input target.

(** [torch.matmul(a, b.transpose(2, 3))] for [a : [B,H,S,D]] and
    [b : [B,H,S',D]]. *)
Definition matmul_nt (a b : tensor4 T) : result (tensor4 T) :=
  let '(a0, a1, a2, a3) := shape4 a in
  let '(b0, b1, b2, b3) := shape4 b in
  if (a0 =? b0) && (a1 =? b1) && (a3 =? b3) then
    Ok {| shape4 := (a0, a1, a2, b2);
          get4 := fun i h r c =>
            sum_range a3 (fun d => mul (get4 a i h r d) (get4 b i h c d)) |}
  else Err RuntimeError.

(** [torch.matmul(a, b)] for [a : [B,H,S,S']] and [b : [B,H,S',D]]. *)
Definition matmul (a b : tensor4 T) : result (tensor4 T) :=
  let '(a0, a1, a2, a3) := shape4 a in
  let '(b0, b1, b2, b3) := shape4 b in
  if (a0 =? b0) && (a1 =? b1) && (a3 =? b2) then
    Ok {| shape4 := (a0, a1, a2, b3);
          get4 := fun i h r d =>
            sum_range a3 (fun c => mul (get4 a i h r c) (get4 b i h c d)) |}
  else Err RuntimeError.

(** [t * c] for a Python float [c]. *)
Definition scale4 (t : tensor4 T) (c : T) : tensor4 T :=
  {| shape4 := shape4 t; get4 := fun i h r c' => mul (get4 t i h r c') c |}.

(** [nn.functional.softmax(t, dim=-1)] *)
Definition softmax_last4 (t : tensor4 T) : tensor4 T :=
  let '(_, _, _, d3) := shape4 t in
  {| shape4 := shape4 t;
     get4 := fun i h r c =>
       div (exp (get4 t i h r c)) (sum_range d3 (fun j => exp (get4 t i h r j))) |}.

(** [t.transpose(1, 2)] *)
Definition transpose12 (t : tensor4 T) : tensor4 T :=
  let '(d0, d1, d2, d3) := shape4 t in
  {| shape4 := (d0, d2, d1, d3); get4 := fun i j k l => get4 t i k j l |}.

(** [t.view(B, S, -1, head_dim)] of [t : [B,S,F]]: the size of the third
    dimension is inferred, which fails on an empty tensor and when
    [head_dim] does not divide [F]. *)
Definition view_heads (t : tensor3 T) (head_dim : nat) : result (tensor4 T) :=
  let '(d0, d1, d2) := shape3 t in
  if (d0 * d1 * head_dim =? 0) then Err RuntimeError
  else if d2 mod head_dim =? 0 then
    Ok {| shape4 := (d0, d1, d2 / head_dim, head_dim);
          get4 := fun b s h d => get3 t b s (h * head_dim + d) |}
  else Err RuntimeError.

(** [t.reshape(B, S, -1)] of [t : [B,S,H,D]]. *)
Definition reshape_merge (t : tensor4 T) : result (tensor3 T) :=
  let '(d0, d1, d2, d3) := shape4 t in
  if d0 * d1 =? 0 then Err RuntimeError
  else Ok {| shape3 := (d0, d1, d2 * d3);
             get3 := fun b s f => get4 t b s (f / d3) (f mod d3) |}.

(** [torch.cat([a, b], dim=-1)] *)
Definition cat3_last (a b : tensor3 T) : result (tensor3 T) :=
  let '(a0, a1, a2) := shape3 a in
  let '(b0, b1, b2) := shape3 b in
  if (a0 =? b0) && (a1 =? b1) then
    Ok {| shape3 := (a0, a1, a2 + b2);
          get3 := fun i s v => if v <? a2 then get3 a i s v else get3 b i s (v - a2) |}
  else Err RuntimeError.

(** [torch.cat(ts, dim=-1)] of a non-empty list. *)
Definition cat3_last_list (ts : list (tensor3 T)) : result (tensor3 T) :=
  match ts with
  | [] => Err RuntimeError
  | t :: ts' => foreach ts' (fun b a => cat3_last a b) t
  end.

End Arithmetic.

(** ** What the plugin takes from its collaborators

    The key/value cache and the rotary embedding of [transformers], the
    random and label-based operations of [torch], and the mask helpers of
    [modelopt.torch.speculative.eagle.utils]. *)

Class External (T : Type) : Type := {
  (* [transformers.DynamicCache] *)
  Cache : Type;
  DynamicCache : Cache;
  get_seq_length : Cache -> nat;
  cache_update : Cache -> tensor4 T -> tensor4 T -> nat -> tensor4 T * tensor4 T * Cache;
  (* [transformers.models.llama.modeling_llama] *)
  apply_rotary_pos_emb :
    tensor4 T -> tensor4 T -> tensor3 T -> tensor3 T -> tensor4 T * tensor4 T;
  repeat_kv : tensor4 T -> nat -> tensor4 T;
  (* [torch.nn] *)
  dropout : tensor4 T -> T -> bool -> tensor4 T;
  (* The value of the cross-entropy of logits [B, S, V] with the labels of
     their [B * S] positions, when it is defined: [cross_entropy] below
     raises what [CrossEntropyLoss] raises. *)
  CrossEntropyLoss : tensor3 T -> tensor2 Z -> T;
  (* [torch.distributed.get_rank()]: the rank of the process, or the
     exception raised when no process group was initialised. *)
  get_rank : result Z;
  (* [..eagle.utils] *)
  make_causal_mask : nat * nat -> nat -> tensor4 T;
  expand_mask : tensor2 T -> nat -> tensor4 T;
  (* what the base model hands through *)
  PastKeyValues : Type;
  Attentions : Type
}.

(** *** Operations that check their arguments *)

Section Checked.

Context {T : Type} `{Scalar T} `{External T}.

(** The target value that [CrossEntropyLoss] skips. *)
Definition ignore_index : Z := (-100)%Z.

(** Every label is a class index below [classes], or [ignore_index]. *)
Definition labels_in_range (classes : nat) (labels : tensor2 Z) : bool :=
  let '(lb, ls) := shape2 labels in
  forallb (fun b =>
    forallb (fun s =>
      let y := get2 labels b s in
      ((y =? ignore_index) || ((0 <=? y) && (y <? Z.of_nat classes)))%Z)
      (range ls))
    (range lb).

(** [CrossEntropyLoss()(logits.view(-1, V), labels.view(-1))] with
    [V = logits.shape[-1]]. The view cannot be taken when [V] is 0, where
    the size that [-1] stands for is not determined; the rows of the two
    views have to match; a label that is neither a class index nor
    [ignore_index] is out of bounds. *)
Definition cross_entropy (logits : tensor3 T) (labels : tensor2 Z) : result T :=
  let '(b, s, v) := shape3 logits in
  let '(lb, ls) := shape2 labels in
  if v =? 0 then Err RuntimeError
  else if b * s =? lb * ls then
    if labels_in_range v labels then Ok (CrossEntropyLoss logits labels)
    else Err IndexError
  else Err ValueError.

(** The forward pass of [nn.Linear(in_features, _)] with the map [f] of its
    weights: the last dimension of the input has to be [in_features]. *)
Definition Linear (in_features : nat) (f : tensor3 T -> tensor3 T)
    (x : tensor3 T) : result (tensor3 T) :=
  let '(_, _, d) := shape3 x in
  if d =? in_features then Ok (f x) else Err RuntimeError.

End Checked.

(** *** The store of mask objects *)

Section Store.

Context {T : Type}.

Definition loc : Type := nat.

(** Masks that were allocated, and the next free reference. *)
Record heap : Type := Heap {
  next : loc;
  cell : loc -> tensor4 T
}.

Definition M (A : Type) : Type := heap -> result (A * heap).

Definition ret {A : Type} (a : A) : M A := fun h => Ok (a, h).

Definition bind {A B : Type} (m : M A) (k : A -> M B) : M B :=
  fun h => match m h with
           | Ok (a, h') => k a h'
           | Err e => Err e
           end.

Definition lift {A : Type} (r : result A) : M A :=
  fun h => match r with
           | Ok a => Ok (a, h)
           | Err e => Err e
           end.

(** A new tensor object. *)
Definition alloc (m : tensor4 T) : M loc :=
  fun h => Ok (next h,
               {| next := S (next h);
                  cell := fun l => if l =? next h then m else cell h l |}).

Definition load (l : loc) : M (tensor4 T) := fun h => Ok (cell h l, h).

(** An update of the object at [l] in place. *)
Definition update (l : loc) (f : tensor4 T -> result (tensor4 T)) : M unit :=
  fun h => match f (cell h l) with
           | Ok m' => Ok (tt, {| next := next h;
                                 cell := fun l' => if l' =? l then m' else cell h l' |})
           | Err e => Err e
           end.

End Store.

Arguments heap T : clear implicits.
Arguments M T A : clear implicits.

End Torch.

Import Torch.

Notation "x <- e ;; k" := (bind e (fun x => k))
  (at level 61, e at next level, right associativity).

(** Python truthiness of an optional flag. *)
Definition truthy (flag : option bool) : bool :=
  match flag with
  | Some true => true
  | _ => false
  end.

(** ** ModifiedLlamaAttention *)

Module ModifiedLlamaAttention.

Section Attention.

Context {T : Type} `{Scalar T} `{External T}.

(** The attributes of the module that [forward] reads. *)
Record t : Type := {
  q_proj : tensor3 T -> tensor3 T;
  k_proj : tensor3 T -> tensor3 T;
  v_proj : tensor3 T -> tensor3 T;
  o_proj : tensor3 T -> tensor3 T;
  head_dim : nat;
  num_key_value_groups : nat;
  scaling : T;
  attention_dropout : T;
  training : bool;
  layer_idx : nat
}.

Definition eager_attention_forward
    (module : t) (query key value : tensor4 T)
    (attention_mask : option (tensor4 T)) (scaling : T) (dropout_p : T)
  : result (tensor4 T * tensor4 T) :=
  let key_states := repeat_kv key (num_key_value_groups module) in
  let value_states := repeat_kv value (num_key_value_groups module) in
  let* attn_weights := matmul_nt query key_states in
  let attn_weights := scale4 attn_weights scaling in
  let* attn_weights :=
    match attention_mask with
    | Some mask => binop4 add attn_weights mask
    | None => Ok attn_weights
    end in
  let attn_weights := softmax_last4 attn_weights in
  let attn_weights := dropout attn_weights dropout_p (training module) in
  let* attn_output := matmul attn_weights value_states in
  let attn_output := transpose12 attn_output in
  Ok (attn_output, attn_weights).

(** Returns [(attn_output, attn_weights)], and the cache it updated. *)
Definition forward
    (self : t) (hidden_states : tensor3 T)
    (position_embeddings : tensor3 T * tensor3 T)
    (attention_mask : option (tensor4 T)) (past_key_value : option Cache)
  : result (tensor3 T * tensor4 T * option Cache) :=
  let* query_states := view_heads (q_proj self hidden_states) (head_dim self) in
  let query_states := transpose12 query_states in
  let* key_states := view_heads (k_proj self hidden_states) (head_dim self) in
  let key_states := transpose12 key_states in
  let* value_states := view_heads (v_proj self hidden_states) (head_dim self) in
  let value_states := transpose12 value_states in
  let '(cos, sin) := position_embeddings in
  let '(query_states, key_states) :=
    apply_rotary_pos_emb query_states key_states cos sin in
  let '(key_states, value_states, past_key_value) :=
    match past_key_value with
    | Some cache =>
        let '(k, v, cache') :=
          cache_update cache key_states value_states (layer_idx self) in
        (k, v, Some cache')
    | None => (key_states, value_states, None)
    end in
  let* (attn_output, attn_weights) :=
    eager_attention_forward self query_states key_states value_states
      attention_mask (scaling self)
      (if training self then attention_dropout self else zero) in
  let* attn_output := reshape_merge attn_output in
  let attn_output := o_proj self attn_output in
  Ok (attn_output, attn_weights, past_key_value).

End Attention.

Arguments t T : clear implicits.

End ModifiedLlamaAttention.

(** ** ModifiedLlamaDecoderLayer: the draft decoder layer *)

Module ModifiedLlamaDecoderLayer.

Section Layer.

Context {T : Type} `{Scalar T} `{External T}.

Record t : Type := {
  self_attn : ModifiedLlamaAttention.t T;
  input_layernorm : tensor3 T -> tensor3 T;
  hidden_norm : tensor3 T -> tensor3 T;
  post_attention_layernorm : tensor3 T -> tensor3 T;
  mlp : tensor3 T -> tensor3 T
}.

(** The tuple returned: [(hidden_states,)] or
    [(hidden_states, self_attn_weights)]. *)
Definition outputs : Type := tensor3 T * option (tensor4 T).

Definition forward
    (self : t) (hidden_states input_embeds : tensor3 T)
    (attention_mask : option (tensor4 T)) (past_key_value : option Cache)
    (output_attentions : option bool)
    (position_embeddings : tensor3 T * tensor3 T)
  : result (outputs * option Cache) :=
  let residual := hidden_states in
  let embeds := input_layernorm self input_embeds in
  let hidden_states := hidden_norm self hidden_states in
  let* hidden_states := cat3_last embeds hidden_states in
  (* Self Attention *)
  let* (hidden_states, self_attn_weights, past_key_value) :=
    ModifiedLlamaAttention.forward (self_attn self) hidden_states
      position_embeddings attention_mask past_key_value in
  (* Fully Connected *)
  let hidden_states := post_attention_layernorm self hidden_states in
  let hidden_states := mlp self hidden_states in
  let outputs :=
    if truthy output_attentions
    then (hidden_states, Some self_attn_weights)
    else (hidden_states, None) in
  Ok (outputs, past_key_value).

End Layer.

Arguments t T : clear implicits.

End ModifiedLlamaDecoderLayer.

(** ** EagleModule: the tree attention mask builder and the draft module *)

Module EagleModule.

Section Mask.

Context {T : Type} `{Scalar T}.

(** The two nested loops of [_prepare_tree_attention_mask] (its step 2), on
    the mask under construction: for each whole block [block_idx] and each
    row [i], the entry [(i, block_start + i)] is set to 0. *)
Definition fill_diagonal_blocks
    (tgt_len src_len seq_lens extended_src_len num_diagonal_blocks : nat)
    (extended_mask : tensor4 T) : result (tensor4 T) :=
  foreach (range num_diagonal_blocks) (fun block_idx extended_mask =>
    let block_start := src_len + block_idx * seq_lens in
    foreach (range (Nat.min tgt_len seq_lens)) (fun i extended_mask =>
      let col_idx := block_start + i in
      if col_idx <? extended_src_len
      then setitem_rc extended_mask i col_idx zero
      else Ok extended_mask) extended_mask) extended_mask.

(** The mask is received and returned by reference. The extended mask is a
    local tensor until it is returned, and enters the store at that point. *)
Definition _prepare_tree_attention_mask
    (attention_mask : option loc) (seq_lens past_key_values_length : nat)
  : M T (option loc) :=
  match attention_mask with
  | None => ret None
  | Some am =>
      mask <- load am ;;
      let '(bsz, num_heads, tgt_len, src_len) := shape4 mask in
      if past_key_values_length =? 0 then ret (Some am)
      else
        let extended_src_len := src_len + past_key_values_length in
        let extended_mask :=
          full4 (bsz, num_heads, tgt_len, extended_src_len) finfo_min in
        let extended_mask := assign_low_columns extended_mask src_len mask in
        num_diagonal_blocks <- lift (floordiv past_key_values_length seq_lens) ;;
        extended_mask <- lift (fill_diagonal_blocks tgt_len src_len seq_lens
                                 extended_src_len num_diagonal_blocks extended_mask) ;;
        ext <- alloc extended_mask ;;
        ret (Some ext)
  end.

End Mask.

Section Module.

Context {T : Type} `{Scalar T} `{External T}.

Record t : Type := {
  hidden_size : nat;                          (* [config.hidden_size] *)
  fc : tensor3 T -> tensor3 T;                (* [3 * hidden_size] features in *)
  layers : list (ModifiedLlamaDecoderLayer.t T);
  norm : option (tensor3 T -> tensor3 T);     (* present when [use_last_layernorm] *)
  lm_head : tensor3 T -> tensor3 T
}.

(** Returns [(proj_hidden_states, hidden_states, logits, past_key_values)]. *)
Definition forward
    (self : t) (hidden_states inputs_embeds : tensor3 T)
    (attention_mask : option loc) (past_key_values : option Cache)
    (output_attentions : option bool)
    (position_embeddings : tensor3 T * tensor3 T)
  : M T (tensor3 T * tensor3 T * tensor3 T * option Cache) :=
  let proj_hidden_states := hidden_states in
  cache_len <- lift (match past_key_values with
                     | Some cache => Ok (get_seq_length cache)
                     | None => Err AttributeError
                     end) ;;
  attention_mask <- _prepare_tree_attention_mask attention_mask
                      (let '(_, seq_len, _) := shape3 hidden_states in seq_len)
                      cache_len ;;
  mask <- match attention_mask with
          | Some am => m <- load am ;; ret (Some m)
          | None => ret None
          end ;;
  r <- lift (foreach (layers self) (fun decoder_layer '(hidden_states, past_key_values) =>
         let* (layer_outputs, past_key_values) :=
           ModifiedLlamaDecoderLayer.forward decoder_layer hidden_states
             inputs_embeds mask past_key_values output_attentions
             position_embeddings in
         Ok (fst layer_outputs, past_key_values))
       (hidden_states, past_key_values)) ;;
  let '(hidden_states, past_key_values) := r in
  let hidden_states :=
    match norm self with
    | Some norm => norm hidden_states
    | None => hidden_states
    end in
  let logits := lm_head self hidden_states in
  ret (proj_hidden_states, hidden_states, logits, past_key_values).

End Module.

Arguments t T : clear implicits.

End EagleModule.

(** ** HFEagleModel: the speculative rollout and its loss *)

(** The arguments of [HFEagleModel.forward]. *)
Module Args.

Section Args.

Context {T : Type} `{External T}.

Record t : Type := {
  input_ids : tensor2 Z;
  attention_mask : option (tensor2 T);
  position_ids : option (tensor2 Z);
  past_key_values : option PastKeyValues;
  inputs_embeds : option (tensor3 T);
  labels : option (tensor2 Z);
  use_cache : option bool;
  output_attentions : option bool;
  output_hidden_states : option bool;
  cache_position : option (tensor2 Z);
  logits_to_keep : Z;
  loss_mask : option (tensor2 T);
  freeze_base_model : bool
}.

End Args.

Arguments t T {_}.

End Args.

(** What the base model's [forward] returns. *)
Module CausalLMOutput.

Section Output.

Context {T : Type} `{External T}.

Record t : Type := {
  logits : tensor3 T;
  hidden_states : list (tensor3 T);
  past_key_values : PastKeyValues;
  attentions : Attentions
}.

End Output.

Arguments t T {_}.

End CausalLMOutput.

(** What [HFEagleModel.forward] returns. *)
Module ModelOutput.

Section Output.

Context {T : Type} `{External T}.

Record t : Type := {
  loss : T;
  logits : tensor3 T;
  eagle_logits : tensor3 T;
  past_key_values : PastKeyValues;
  hidden_states : list (tensor3 T);
  attentions : Attentions
}.

End Output.

Arguments t T {_}.

End ModelOutput.

(** The variables that the rollout loop rebinds. *)
Module Vars.

Section Vars.

Context {T : Type} `{External T}.

Record t : Type := {
  hidden_states : tensor3 T;
  logits : tensor3 T;
  input_ids : tensor2 Z;
  loss_mask : option (tensor2 T);
  eagle_cache : option Cache;
  eagle_logits : option (tensor3 T);     (* unbound before the first step *)
  loss_list : list T
}.

End Vars.

Arguments t T {_}.

End Vars.

Module HFEagleModel.

Section Model.

Context {T : Type} `{Scalar T} `{External T}.

Record t : Type := {
  base_forward : Args.t T -> CausalLMOutput.t T;          (* [super().forward] *)
  embed_tokens : tensor2 Z -> tensor3 T;                   (* [self.model.embed_tokens] *)
  rotary_emb : tensor3 T -> tensor2 Z -> tensor3 T * tensor3 T;
  eagle_module : EagleModule.t T;
  use_aux_hidden_state : bool;
  eagle_aux_hidden_state_layer_ids : list Z
}.

(** [inputs_embeds] gives the dtype and the device only, and is left out. *)
Definition _prepare_decoder_attention_mask
    (attention_mask : option (tensor2 T)) (input_shape : nat * nat)
    (past_key_values_length : nat)
  : result (option (tensor4 T)) :=
  let combined_attention_mask :=
    if 1 <? snd input_shape
    then Some (make_causal_mask input_shape past_key_values_length)
    else None in
  match attention_mask with
  | Some attention_mask =>
      let expanded_attn_mask := expand_mask attention_mask (snd input_shape) in
      match combined_attention_mask with
      | None => Ok (Some expanded_attn_mask)
      | Some combined =>
          let* sum := binop4 add expanded_attn_mask combined in Ok (Some sum)
      end
  | None => Ok combined_attention_mask
  end.

(** Function for EAGLE loss computing: [(regression_loss, classification_loss)]. *)
Definition _eagle_loss
    (hidden_states logits eagle_hidden_states eagle_logits : tensor3 T)
    (loss_mask : tensor2 T)
  : result (T * T) :=
  let loss_mask := unsqueeze_last loss_mask in
  let criterion := SmoothL1Loss in
  let* classification_loss :=
    binop3 mul (Softmax_dim2 logits) (LogSoftmax_dim2 eagle_logits) in
  let* masked := binop3 mul loss_mask classification_loss in
  let classification_loss :=
    div (neg (sum2 (sum_dim2 masked))) (add (sum3 loss_mask) lit_1e_5) in
  let* regression_loss := criterion eagle_hidden_states hidden_states in
  let* masked := binop3 mul loss_mask regression_loss in
  let regression_loss :=
    div (sum2 (mean_dim2 masked)) (add (sum3 loss_mask) lit_1e_5) in
  Ok (regression_loss, classification_loss).

(** [torch.cat((t[:, 1:], zeropadding), dim=1)] with
    [zeropadding = torch.zeros(t.shape[0], 1, t.shape[2])]. *)
Definition shift_left3 (t : tensor3 T) : result (tensor3 T) :=
  let '(d0, _, d2) := shape3 t in
  let zeropadding := full3 (d0, 1, d2) zero in
  cat3_dim1 (drop_first3 t) zeropadding.

(** [torch.cat((t[:, 1:], zeropadding), dim=1)] with
    [zeropadding = torch.zeros(t.shape[0], 1)]. *)
Definition shift_left2 {X : Type} (pad : X) (t : tensor2 X) : result (tensor2 X) :=
  let '(d0, _) := shape2 t in
  let zeropadding := full2 (d0, 1) pad in
  cat2_dim1 (drop_first2 t) zeropadding.

(** The type of the method [_eagle_loss], through which the rollout calls it. *)
Definition eagle_loss_method : Type :=
  tensor3 T -> tensor3 T -> tensor3 T -> tensor3 T -> tensor2 T -> result (T * T).

(** The body of the loop [for i in range(4)] of [forward], for one [i]. The
    mask object [attention_mask] is updated in place; the other variables
    are rebound. The rank of the process is asked for at the start of every
    step, which raises without a process group. The loss of the base model
    on [labels] is computed when the base model is not frozen, and is
    overwritten after the loop: what is left of it is the exception that it
    may raise. ([labels] is rebound to its flat view, which has the same
    elements.) *)
Definition ttt_step
    (self : t) (eagle_loss : eagle_loss_method) (args : Args.t T)
    (target_hidden_states : tensor3 T) (seq_length : nat)
    (original_position_ids : tensor2 Z) (attention_mask : loc)
    (i : nat) (v : Vars.t T)
  : M T (Vars.t T) :=
  let hidden_states := Vars.hidden_states v in
  let logits := Vars.logits v in
  let input_ids := Vars.input_ids v in
  let loss_mask := Vars.loss_mask v in
  let loss_list := Vars.loss_list v in
  rank <- lift get_rank ;;
  (* update position ids *)
  cache_length <- lift (match Vars.eagle_cache v with
                        | Some cache => Ok (get_seq_length cache)
                        | None => Err AttributeError
                        end) ;;
  let current_position_ids :=
    map2 (fun p => (p + Z.of_nat cache_length)%Z) original_position_ids in
  let inputs_embeds := embed_tokens self input_ids in
  let position_embeddings := rotary_emb self hidden_states current_position_ids in
  r <- EagleModule.forward (eagle_module self) hidden_states inputs_embeds
         (Some attention_mask) (Vars.eagle_cache v)
         (Args.output_attentions args) position_embeddings ;;
  let '(_, eagle_hidden_states, eagle_logits, eagle_cache) := r in
  let hidden_states := eagle_hidden_states in
  loss <- lift (match Args.freeze_base_model args, Args.labels args with
                | false, Some labels =>
                    let* base_model_loss := cross_entropy logits labels in
                    Ok (Some base_model_loss)
                | _, _ => Ok None
                end) ;;
  loss_list <- lift (match loss_mask with
                     | Some loss_mask =>
                         let* (regression_loss, classification_loss) :=
                           eagle_loss target_hidden_states logits
                             eagle_hidden_states eagle_logits loss_mask in
                         (* use classification loss only for EAGLE-3 *)
                         let eagle_loss := classification_loss in
                         Ok (loss_list ++ [eagle_loss])
                     | None => Ok loss_list
                     end) ;;
  (* Padding logic after iteration *)
  if i <? 3 then
    logits <- lift (shift_left3 logits) ;;
    input_ids <- lift (shift_left2 0%Z input_ids) ;;
    loss_mask <- lift (match loss_mask with
                       | Some loss_mask =>
                           let* shifted := shift_left2 zero loss_mask in
                           Ok (Some shifted)
                       | None => Ok None
                       end) ;;
    (* Attention Mask *)
    let ind := range seq_length in
    let ind0 := slice_from i ind in
    let ind1 := slice_to (Z.of_nat seq_length - Z.of_nat i) ind in
    _ <- update attention_mask (fun m => index_put_rc m ind0 ind1 finfo_min) ;;
    ret {| Vars.hidden_states := hidden_states;
           Vars.logits := logits;
           Vars.input_ids := input_ids;
           Vars.loss_mask := loss_mask;
           Vars.eagle_cache := eagle_cache;
           Vars.eagle_logits := Some eagle_logits;
           Vars.loss_list := loss_list |}
  else
    ret {| Vars.hidden_states := hidden_states;
           Vars.logits := logits;
           Vars.input_ids := input_ids;
           Vars.loss_mask := loss_mask;
           Vars.eagle_cache := eagle_cache;
           Vars.eagle_logits := Some eagle_logits;
           Vars.loss_list := loss_list |}.

(** [for x in xs: v = body x v] on the store. *)
Fixpoint mforeach {A S : Type} (xs : list A) (body : A -> S -> M T S) (s : S)
  : M T S :=
  match xs with
  | [] => ret s
  | x :: xs' => s' <- body x s ;; mforeach xs' body s'
  end.

(** What [forward] computes before the loop: the backbone pass, the
    projected features, the position ids and the mask object. The cache
    that the backbone returns is handed through in the output as it is. *)
Record prelude : Type := {
  outputs : CausalLMOutput.t T;
  target_hidden_states : tensor3 T;
  seq_length : nat;
  original_position_ids : tensor2 Z;
  running_mask : loc;
  initial : Vars.t T
}.

(** The arguments handed to [super().forward]: no labels, and all the
    hidden states requested. *)
Definition base_args (args : Args.t T) : Args.t T :=
  {| Args.input_ids := Args.input_ids args;
     Args.attention_mask := Args.attention_mask args;
     Args.position_ids := Args.position_ids args;
     Args.past_key_values := Args.past_key_values args;
     Args.inputs_embeds := Args.inputs_embeds args;
     Args.labels := None;
     Args.use_cache := Args.use_cache args;
     Args.output_attentions := Args.output_attentions args;
     Args.output_hidden_states := Some true;
     Args.cache_position := Args.cache_position args;
     Args.logits_to_keep := Args.logits_to_keep args;
     Args.loss_mask := None;
     Args.freeze_base_model := true |}.

Definition forward_prelude (self : t) (args : Args.t T) : M T prelude :=
  let eagle_cache := DynamicCache in
  let outputs := base_forward self (base_args args) in
  let all_hidden := CausalLMOutput.hidden_states outputs in
  hidden_states <- lift (
    if use_aux_hidden_state self then
      let* aux_hidden_states :=
        comprehension (getitem_z all_hidden)
          (eagle_aux_hidden_state_layer_ids self) in
      cat3_last_list aux_hidden_states
    else getitem_z all_hidden (-1)) ;;
  let logits := CausalLMOutput.logits outputs in
  target_hidden_states <- lift (getitem_z all_hidden (-1)) ;;
  let loss_list := [] in
  (* use fc to make 3 * hidden -> 1 * hidden *)
  hidden_states <- lift (Linear (3 * EagleModule.hidden_size (eagle_module self))
                           (EagleModule.fc (eagle_module self)) hidden_states) ;;
  (* start up attention mask / embedding *)
  let '(batch_size, seq_length, _) := shape3 hidden_states in
  let seq_length_with_past := seq_length in
  let past_key_values_length := 0 in
  position_ids <- lift (
    match Args.position_ids args with
    | None => view_rows (arange_row seq_length) seq_length
    | Some position_ids => view_rows position_ids seq_length
    end) ;;
  let attention_mask :=
    match Args.attention_mask args with
    | None => full2 (batch_size, seq_length_with_past) one
    | Some attention_mask => attention_mask
    end in
  attention_mask <- lift (_prepare_decoder_attention_mask (Some attention_mask)
                            (batch_size, seq_length) past_key_values_length) ;;
  attention_mask <- match attention_mask with
                    | Some m => alloc m
                    | None => lift (Err AttributeError)
                    end ;;
  ret {| outputs := outputs;
         target_hidden_states := target_hidden_states;
         seq_length := seq_length;
         original_position_ids := position_ids;
         running_mask := attention_mask;
         initial := {| Vars.hidden_states := hidden_states;
                       Vars.logits := logits;
                       Vars.input_ids := Args.input_ids args;
                       Vars.loss_mask := Args.loss_mask args;
                       Vars.eagle_cache := Some eagle_cache;
                       Vars.eagle_logits := None;
                       Vars.loss_list := loss_list |} |}.

(** The speculative steps [range(n)] from the state after the prelude. *)
Definition rollout
    (self : t) (eagle_loss : eagle_loss_method) (args : Args.t T)
    (p : prelude) (steps : list nat)
  : Vars.t T -> M T (Vars.t T) :=
  mforeach steps
    (ttt_step self eagle_loss args (target_hidden_states p) (seq_length p)
       (original_position_ids p) (running_mask p)).

(** [sum([loss_weight[i] * loss_list[i] for i in range(4)])] *)
Definition decayed_loss (loss_weight loss_list : list T) : result T :=
  let* terms :=
    comprehension (fun i =>
      let* w := getitem loss_weight i in
      let* l := getitem loss_list i in
      Ok (mul w l)) (range 4) in
  Ok (py_sum terms).

Definition forward_with
    (self : t) (eagle_loss : eagle_loss_method) (args : Args.t T)
  : M T (ModelOutput.t T) :=
  p <- forward_prelude self args ;;
  let loss_weight := map (pow lit_0_8) (range 4) in
  v <- rollout self eagle_loss args p (range 4) (initial p) ;;
  loss <- lift (decayed_loss loss_weight (Vars.loss_list v)) ;;
  eagle_logits <- lift (match Vars.eagle_logits v with
                        | Some eagle_logits => Ok eagle_logits
                        | None => Err UnboundLocalError
                        end) ;;
  ret {| ModelOutput.loss := loss;
         ModelOutput.logits := Vars.logits v;
         ModelOutput.eagle_logits := eagle_logits;
         ModelOutput.past_key_values := CausalLMOutput.past_key_values (outputs p);
         ModelOutput.hidden_states := CausalLMOutput.hidden_states (outputs p);
         ModelOutput.attentions := CausalLMOutput.attentions (outputs p) |}.

Definition forward (self : t) (args : Args.t T) : M T (ModelOutput.t T) :=
  forward_with self _eagle_loss args.

End Model.

Arguments t T {_}.
Arguments eagle_loss_method T : clear implicits.

End HFEagleModel.

(** ** HFEagleModel: the default auxiliary layers *)

(** [HFEagleModel._set_default_aux_hidden_state_layers]: the ids of the
    hidden states that feed the draft module, for a base model whose config
    has [num_hidden_layers] layers; the model with these ids set. *)
Definition _set_default_aux_hidden_state_layers {T : Type} `{External T}
    (self : HFEagleModel.t T) (num_hidden_layers : Z) : HFEagleModel.t T :=
  let num_layers := num_hidden_layers in
  {| HFEagleModel.base_forward := HFEagleModel.base_forward self;
     HFEagleModel.embed_tokens := HFEagleModel.embed_tokens self;
     HFEagleModel.rotary_emb := HFEagleModel.rotary_emb self;
     HFEagleModel.eagle_module := HFEagleModel.eagle_module self;
     HFEagleModel.use_aux_hidden_state := HFEagleModel.use_aux_hidden_state self;
     HFEagleModel.eagle_aux_hidden_state_layer_ids :=
       [1; num_layers / 2 - 1; num_layers - 4]%Z |}.

(** ** HFMedusaModel *)

Module HFMedusaModel.

(** The exceptions of [forward]: those of indexing and of the loss, and the
    one of the arithmetic on a missing coefficient. *)
Inductive exception : Type :=
| Builtin (e : error)
| TypeError.

Definition ValueError : exception := Builtin Py.ValueError.

Inductive outcome (A : Type) : Type :=
| Returned (a : A)
| Raised (e : exception).

Arguments Returned {A} a.
Arguments Raised {A} e.

Definition obind {A B : Type} (r : outcome A) (k : A -> outcome B) : outcome B :=
  match r with
  | Returned a => k a
  | Raised e => Raised e
  end.

Definition of_result {A : Type} (r : result A) : outcome A :=
  match r with
  | Ok a => Returned a
  | Err e => Raised (Builtin e)
  end.

Notation "'let+' x ':=' e 'in' k" := (obind e (fun x => k))
  (at level 10, x pattern, e at level 100, k at level 200).

(** [for x in xs: s = body x s], stopping at the first exception. *)
Fixpoint oforeach {A S : Type} (xs : list A) (body : A -> S -> outcome S) (s : S)
  : outcome S :=
  match xs with
  | [] => Returned s
  | x :: xs' => obind (body x s) (oforeach xs' body)
  end.

(** The position that a slice bound [i] denotes in a dimension of size [n]:
    a negative bound counts from the end, and the result is clipped to
    [0 .. n]. *)
Definition slice_bound (n : nat) (i : Z) : nat :=
  Z.to_nat (if (i <? 0)%Z then Z.max (Z.of_nat n + i) 0
            else Z.min i (Z.of_nat n)).

(** The module objects of one head of [modify], named by the order of their
    creation: a [nn.Sequential] of the list
    [[ResBlock(hidden_size)] * medusa_num_layers], unpacked, and of
    [nn.Linear(hidden_size, vocab_size)]. The list holds [medusa_num_layers]
    references to the one [ResBlock] that was created. *)
Definition new_head (medusa_num_layers : nat) (next : nat) : list nat * nat :=
  let res_block := next in
  let linear := S next in
  (repeat res_block medusa_num_layers ++ [linear], S (S next)).

(** [nn.ModuleList([... for _ in range(medusa_num_heads)])] *)
Fixpoint new_heads (medusa_num_heads medusa_num_layers next : nat)
  : list (list nat) * nat :=
  match medusa_num_heads with
  | 0 => ([], next)
  | S n =>
      let '(head, next) := new_head medusa_num_layers next in
      let '(heads, next) := new_heads n medusa_num_layers next in
      (head :: heads, next)
  end.

Section Model.

Context {T : Type} `{Scalar T} `{External T}.

(** [t[:, start:, :]] *)
Definition slice3_from (start : Z) (t : tensor3 T) : tensor3 T :=
  let '(d0, d1, d2) := shape3 t in
  let first := slice_bound d1 start in
  {| shape3 := (d0, d1 - first, d2); get3 := fun b s f => get3 t b (s + first) f |}.

(** [t[:, :stop]] *)
Definition slice3_to (stop : Z) (t : tensor3 T) : tensor3 T :=
  let '(d0, d1, d2) := shape3 t in
  {| shape3 := (d0, slice_bound d1 stop, d2); get3 := get3 t |}.

(** [t[:, idx, :]] for a 1-d index tensor: an index out of range raises. *)
Definition index3 (idx : list Z) (t : tensor3 T) : result (tensor3 T) :=
  let '(d0, d1, d2) := shape3 t in
  let n := Z.of_nat d1 in
  let* positions :=
    comprehension (fun i =>
      if ((0 <=? i) && (i <? n))%Z then Ok (Z.to_nat i)
      else if ((- n <=? i) && (i <? 0))%Z then Ok (Z.to_nat (n + i))
      else Err IndexError) idx in
  Ok {| shape3 := (d0, length positions, d2);
        get3 := fun b s f => get3 t b (nth s positions 0) f |}.

(** The forward pass of an [nn.Sequential] on [x], the module objects
    given by [modules]. *)
Definition sequential (modules : nat -> tensor3 T -> tensor3 T) (ids : list nat)
    (x : tensor3 T) : tensor3 T :=
  fold_left (fun acc id => modules id acc) ids x.

(** [CrossEntropyLoss()(logits.view(-1, V), labels.view(-1))] *)
Definition loss_fct (logits : tensor3 T) (labels : tensor2 Z) : outcome T :=
  of_result (cross_entropy logits labels).

(** The arguments of [forward]. *)
Record args : Type := {
  input_ids : option (tensor2 Z);
  attention_mask : option (tensor2 T);
  position_ids : option (tensor2 Z);
  past_key_values : option PastKeyValues;
  inputs_embeds : option (tensor3 T);
  labels : option (tensor2 Z);
  use_cache : option bool;
  output_attentions : option bool;
  output_hidden_states : option bool;
  cache_position : option (tensor2 Z);
  logits_to_keep : Z + list Z;              (* [int | torch.Tensor] *)
  freeze_base_model : bool;
  medusa_heads_coefficient : option T;
  medusa_decay_coefficient : option T
}.

(** What [self.model] is called with: [cache_position] goes under the
    keyword [rcache_position]. *)
Record base_call : Type := {
  call_input_ids : option (tensor2 Z);
  call_attention_mask : option (tensor2 T);
  call_position_ids : option (tensor2 Z);
  call_past_key_values : option PastKeyValues;
  call_inputs_embeds : option (tensor3 T);
  call_use_cache : option bool;
  call_output_attentions : option bool;
  call_output_hidden_states : option bool;
  call_rcache_position : option (tensor2 Z)
}.

(** What [self.model] returns. *)
Record base_output : Type := {
  last_hidden_state : tensor3 T;
  base_past_key_values : PastKeyValues;
  base_hidden_states : list (tensor3 T);
  base_attentions : Attentions
}.

Record t : Type := {
  model : base_call -> base_output;
  lm_head : tensor3 T -> tensor3 T;
  medusa_heads : list (tensor3 T -> tensor3 T);
  medusa_num_heads : nat
}.

Record output : Type := {
  loss : option T;
  logits : tensor3 T;
  medusa_logits : list (tensor3 T);
  out_past_key_values : PastKeyValues;
  out_hidden_states : list (tensor3 T);
  out_attentions : Attentions
}.

(** [hidden_states[:, slice_indices, :]] with
    [slice_indices = slice(-logits_to_keep, None)] for an integer, and the
    index tensor itself otherwise. *)
Definition keep (logits_to_keep : Z + list Z) (hidden_states : tensor3 T)
  : result (tensor3 T) :=
  match logits_to_keep with
  | inl k => Ok (slice3_from (- k) hidden_states)
  | inr idx => index3 idx hidden_states
  end.

(** [x ** i] and [x * c] on a coefficient that may be [None]. *)
Definition coefficient (c : option T) : outcome T :=
  match c with
  | Some x => Returned x
  | None => Raised TypeError
  end.

Definition forward (self : t) (a : args) : outcome output :=
  let outputs :=
    model self {| call_input_ids := input_ids a;
                  call_attention_mask := attention_mask a;
                  call_position_ids := position_ids a;
                  call_past_key_values := past_key_values a;
                  call_inputs_embeds := inputs_embeds a;
                  call_use_cache := use_cache a;
                  call_output_attentions := output_attentions a;
                  call_output_hidden_states := output_hidden_states a;
                  call_rcache_position := cache_position a |} in
  let hidden_states := last_hidden_state outputs in
  let+ kept := of_result (keep (logits_to_keep a) hidden_states) in
  let logits := lm_head self kept in
  let+ medusa_logits :=
    of_result (comprehension (fun i =>
                 let* head := getitem (medusa_heads self) i in Ok (head kept))
               (range (medusa_num_heads self))) in
  let+ loss :=
    match labels a with
    | Some labels =>
        let loss := zero in
        (* Base model loss *)
        let+ loss :=
          if freeze_base_model a then Returned loss
          else let+ base_model_loss := loss_fct logits labels in
               Returned (add loss base_model_loss) in
        (* Medusa loss *)
        let+ r :=
          oforeach (range (medusa_num_heads self)) (fun i '(labels, loss) =>
            let labels := drop_first2 labels in
            let+ head_logits := of_result (getitem medusa_logits i) in
            let loss_logits := slice3_to (- (1 + Z.of_nat i)) head_logits in
            let+ ce := loss_fct loss_logits labels in
            let+ decay := coefficient (medusa_decay_coefficient a) in
            let+ heads := coefficient (medusa_heads_coefficient a) in
            Returned (labels, add loss (mul (mul ce (pow decay i)) heads)))
          (labels, loss) in
        Returned (Some (snd r))
    | None => Returned None
    end in
  Returned {| loss := loss;
              logits := logits;
              medusa_logits := medusa_logits;
              out_past_key_values := base_past_key_values outputs;
              out_hidden_states := base_hidden_states outputs;
              out_attentions := base_attentions outputs |}.

End Model.

Arguments t T {_}.
Arguments args T {_}.
Arguments output T {_}.

End HFMedusaModel.

(** ** The arithmetic of the reals

    The values of the losses are studied in exact arithmetic. The code
    computes in floating point: there [exp] underflows to 0, a sum of two
    [finfo.min] is an infinity, and 0 / 0 is nan where it is 0 here. The
    statements over the reals are therefore kept to what does not turn on
    these: no quantity is said to be strictly positive because an
    exponential is, and the value of a mean is stated over at least one
    element. *)

#[export] Instance R_scalar : Scalar R := {|
  zero := 0%R;
  one := 1%R;
  add := Rplus;
  sub := Rminus;
  mul := Rmult;
  div := Rdiv;
  neg := Ropp;
  abs := Rbasic_fun.Rabs;
  ltb := fun x y => if Rlt_dec x y then true else false;
  exp := Rtrigo_def.exp;
  log := ln;
  pow := fun x n => Rpow_def.pow x n;
  of_nat := INR;
  lit_0_8 := (8 / 10)%R;
  lit_0_5 := (1 / 2)%R;
  lit_1e_5 := (1 / 100000)%R;
  finfo_min := (- ((2 - / 2 ^ 23) * 2 ^ 127))%R
|}.

(** ** Vocabulary of the statements *)

Section MaskVocabulary.

(** Row [r], column [c] is on the diagonal of one of the blocks
    [first .. first + count - 1] that start at column
    [src_len + block * seq_lens], and [r] is one of the first [rows] rows. *)
Definition on_block_diagonal
    (src_len seq_lens rows first count r c : nat) : bool :=
  (r <? rows) &&
  existsb (fun block => c =? src_len + block * seq_lens + r) (seq first count).

(** The entries [(i, src_len + k * seq_lens + i)] for the blocks [k] below
    [blocks] and the rows [i] below [rows]. *)
Definition diagonal_entries (src_len seq_lens blocks rows : nat)
  : list (nat * nat) :=
  map (fun '(k, i) => (i, src_len + k * seq_lens + i))
      (list_prod (seq 0 blocks) (seq 0 rows)).

End MaskVocabulary.

Section RolloutVocabulary.

Context {T : Type} `{Scalar T} `{External T}.

(** [k] shifts to the left of a 2-d tensor, a pad appended each time. *)
Fixpoint shifts2 {X : Type} (pad : X) (k : nat) (t : tensor2 X)
  : result (tensor2 X) :=
  match k with
  | 0 => Ok t
  | S k' => let* t' := HFEagleModel.shift_left2 pad t in shifts2 pad k' t'
  end.

(** [k] shifts to the left of a 3-d tensor, a zero slice appended each time. *)
Fixpoint shifts3 (k : nat) (t : tensor3 T) : result (tensor3 T) :=
  match k with
  | 0 => Ok t
  | S k' => let* t' := HFEagleModel.shift_left3 t in shifts3 k' t'
  end.

(** The call of the draft module in a step of the rollout, from the
    variables [v] at the start of the step. *)
Definition draft_call
    (self : HFEagleModel.t T) (args : Args.t T)
    (original_position_ids : tensor2 Z) (attention_mask : loc) (v : Vars.t T)
  : M T (tensor3 T * tensor3 T * tensor3 T * option Cache) :=
  cache_length <- lift (match Vars.eagle_cache v with
                        | Some cache => Ok (get_seq_length cache)
                        | None => Err AttributeError
                        end) ;;
  EagleModule.forward (HFEagleModel.eagle_module self) (Vars.hidden_states v)
    (HFEagleModel.embed_tokens self (Vars.input_ids v))
    (Some attention_mask) (Vars.eagle_cache v) (Args.output_attentions args)
    (HFEagleModel.rotary_emb self (Vars.hidden_states v)
       (map2 (fun p => (p + Z.of_nat cache_length)%Z) original_position_ids)).

(** The rollout after the prelude of [forward], for the steps [range k]. *)
Definition rollout_upto
    (self : HFEagleModel.t T) (eagle_loss : HFEagleModel.eagle_loss_method T)
    (args : Args.t T) (p : HFEagleModel.prelude) (k : nat)
  : M T (Vars.t T) :=
  HFEagleModel.rollout self eagle_loss args p (range k) (HFEagleModel.initial p).

(** [l] is the classification loss recorded at step [i] of the rollout that
    starts from the store [h0]: the second component of the auxiliary loss
    between the backbone's targets at the start of the step and what the
    draft module returns in the step. *)
Definition recorded_at
    (self : HFEagleModel.t T) (args : Args.t T) (p : HFEagleModel.prelude)
    (h0 : heap T) (i : nat) (l : T) : Prop :=
  exists v h proj eagle_hidden_states eagle_logits cache h1 loss_mask regression_loss,
    rollout_upto self HFEagleModel._eagle_loss args p i h0 = Ok (v, h)
    /\ draft_call self args (HFEagleModel.original_position_ids p)
         (HFEagleModel.running_mask p) v h
       = Ok ((proj, eagle_hidden_states, eagle_logits, cache), h1)
    /\ Vars.loss_mask v = Some loss_mask
    /\ HFEagleModel._eagle_loss (HFEagleModel.target_hidden_states p)
         (Vars.logits v) eagle_hidden_states eagle_logits loss_mask
       = Ok (regression_loss, l).

(** Two implementations of the loss method that fail on the same inputs and
    agree on the classification loss they return. *)
Definition same_classification_loss
    (f g : HFEagleModel.eagle_loss_method T) : Prop :=
  forall hs lg ehs elg lm,
    match f hs lg ehs elg lm, g hs lg ehs elg lm with
    | Ok (_, c1), Ok (_, c2) => c1 = c2
    | Err e1, Err e2 => e1 = e2
    | _, _ => False
    end.

(** [t'] is [t] moved [k] positions to the left along the sequence, with
    [pad] in the positions freed at the tail; the shape is that of [t]. *)
Definition shifted2 {X : Type} (pad : X) (k : nat) (t t' : tensor2 X) : Prop :=
  shape2 t' = shape2 t
  /\ forall b s,
       s < snd (shape2 t) ->
       get2 t' b s = if s + k <? snd (shape2 t) then get2 t b (s + k) else pad.

Definition shifted3 (k : nat) (t t' : tensor3 T) : Prop :=
  shape3 t' = shape3 t
  /\ forall b s c,
       s < snd (fst (shape3 t)) ->
       get3 t' b s c =
       if s + k <? snd (fst (shape3 t)) then get3 t b (s + k) c else zero.

End RolloutVocabulary.

Section LossVocabulary.

(** The entropy of the softmax of the logits [x 0 .. x (V-1)] of one
    position, as the loss computes it: minus the sum over the vocabulary of
    softmax times log-softmax. *)
Definition softmax_entropy (V : nat) (x : nat -> R) : R :=
  Ropp (sum_range V (fun v =>
    Rmult (Rdiv (Rtrigo_def.exp (x v))
                (sum_range V (fun j => Rtrigo_def.exp (x j))))
          (Rminus (x v) (ln (sum_range V (fun j => Rtrigo_def.exp (x j))))))).

End LossVocabulary.

Section MaskedLossVocabulary.

(** The soft cross-entropy of one position: minus the sum over the
    vocabulary of softmax of the backbone logits [x] times log-softmax of the
    draft logits [y]. *)
Definition position_cross_entropy (V : nat) (x y : nat -> R) : R :=
  Ropp (sum_range V (fun v =>
    Rmult (Rdiv (Rtrigo_def.exp (x v))
                (sum_range V (fun j => Rtrigo_def.exp (x j))))
          (Rminus (y v) (ln (sum_range V (fun j => Rtrigo_def.exp (y j))))))).

(** The smooth L1 distance of one position, averaged over the features. *)
Definition position_smooth_l1 (Hd : nat) (x y : nat -> R) : R :=
  Rdiv (sum_range Hd (fun k => smooth_l1 (x k) (y k))) (INR Hd).

(** The sum of a mask of shape [B, S]. *)
Definition mask_total (B S : nat) (m : tensor2 R) : R :=
  sum_range B (fun b => sum_range S (fun s => get2 m b s)).

(** The sum over the positions of a quantity weighted by the mask, over the
    sum of the mask plus 1e-5. *)
Definition masked_mean (B S : nat) (m : tensor2 R) (q : nat -> nat -> R) : R :=
  Rdiv (sum_range B (fun b => sum_range S (fun s => Rmult (get2 m b s) (q b s))))
       (Rplus (mask_total B S m) (Rdiv 1 100000)).

End MaskedLossVocabulary.

Section MedusaVocabulary.

Context {T : Type} `{Scalar T} `{External T}.

(** The hidden states that [HFMedusaModel.forward] takes from the base
    model. *)
Definition medusa_hidden_states
    (self : HFMedusaModel.t T) (a : HFMedusaModel.args T) : tensor3 T :=
  HFMedusaModel.last_hidden_state
    (HFMedusaModel.model self
       {| HFMedusaModel.call_input_ids := HFMedusaModel.input_ids a;
          HFMedusaModel.call_attention_mask := HFMedusaModel.attention_mask a;
          HFMedusaModel.call_position_ids := HFMedusaModel.position_ids a;
          HFMedusaModel.call_past_key_values := HFMedusaModel.past_key_values a;
          HFMedusaModel.call_inputs_embeds := HFMedusaModel.inputs_embeds a;
          HFMedusaModel.call_use_cache := HFMedusaModel.use_cache a;
          HFMedusaModel.call_output_attentions := HFMedusaModel.output_attentions a;
          HFMedusaModel.call_output_hidden_states :=
            HFMedusaModel.output_hidden_states a;
          HFMedusaModel.call_rcache_position := HFMedusaModel.cache_position a |}).

(** [y] is a label that the cross-entropy accepts for [classes] classes: a
    class index, or the index that is ignored. *)
Definition label_ok (classes : nat) (y : Z) : Prop :=
  y = ignore_index \/ (0 <= y < Z.of_nat classes)%Z.

(** The loss term of head [i] on its logits: the cross-entropy of the logits
    without their last [i + 1] positions against the labels without their
    first [i + 1] positions, times [decay ** i], times [coef]. *)
Definition head_loss (decay coef : T) (labels : tensor2 Z) (i : nat)
    (head_logits : tensor3 T) : T :=
  mul (mul (CrossEntropyLoss
              (HFMedusaModel.slice3_to (- (1 + Z.of_nat i)) head_logits)
              (Nat.iter (S i) drop_first2 labels))
           (pow decay i))
      coef.

(** The terms of the heads added to [base] one after the other, from head 0
    on. *)
Definition medusa_loss (base decay coef : T) (labels : tensor2 Z)
    (medusa_logits : list (tensor3 T)) : T :=
  fold_left (fun acc '(i, head_logits) =>
               add acc (head_loss decay coef labels i head_logits))
            (combine (range (length medusa_logits)) medusa_logits) base.

End MedusaVocabulary.

(** ** A small model

    One draft layer with one-dimensional heads on a sequence of two tokens,
    one hidden feature and a vocabulary of two, over the reals, fed by three
    hidden states of the base model: the inputs on which the statements
    below are exercised. *)

Module Example.

(** [torch.cat([a, b], dim=-2)] *)
Definition cat4_dim2 (a b : tensor4 R) : tensor4 R :=
  let '(a0, a1, a2, a3) := shape4 a in
  let '(_, _, b2, _) := shape4 b in
  {| shape4 := (a0, a1, a2 + b2, a3);
     get4 := fun i h r c => if r <? a2 then get4 a i h r c else get4 b i h (r - a2) c |}.

(** A cache that holds, for each layer, the keys and values seen so far. *)
Definition cache : Type := list (tensor4 R * tensor4 R).

Definition update (c : cache) (k v : tensor4 R) (layer_idx : nat)
  : tensor4 R * tensor4 R * cache :=
  match nth_error c layer_idx with
  | Some (k0, v0) =>
      let k' := cat4_dim2 k0 k in
      let v' := cat4_dim2 v0 v in
      (k', v', firstn layer_idx c ++ (k', v') :: skipn (S layer_idx) c)
  | None => (k, v, c ++ [(k, v)])
  end.

Definition seq_length (c : cache) : nat :=
  match c with
  | [] => 0
  | (k, _) :: _ => let '(_, _, s, _) := shape4 k in s
  end.

Definition causal_mask (input_shape : nat * nat) (past : nat) : tensor4 R :=
  let '(bsz, tgt_len) := input_shape in
  {| shape4 := (bsz, 1, tgt_len, tgt_len + past);
     get4 := fun _ _ r c => if c <=? r + past then 0%R else finfo_min |}.

Definition expanded_mask (mask : tensor2 R) (tgt_len : nat) : tensor4 R :=
  let '(bsz, src_len) := shape2 mask in
  {| shape4 := (bsz, 1, tgt_len, src_len);
     get4 := fun b _ _ c => ((1 - get2 mask b c) * finfo_min)%R |}.

Definition external : External R := {|
  Cache := cache;
  DynamicCache := [];
  get_seq_length := seq_length;
  cache_update := update;
  apply_rotary_pos_emb := fun q k _ _ => (q, k);
  repeat_kv := fun t _ => t;
  dropout := fun t _ _ => t;
  CrossEntropyLoss := fun _ _ => 0%R;
  get_rank := Ok 0%Z;
  make_causal_mask := causal_mask;
  expand_mask := expanded_mask;
  PastKeyValues := unit;
  Attentions := unit
|}.

#[local] Existing Instance external.

(** A linear map to [n] features, each the first input feature. *)
Definition first_feature (n : nat) (t : tensor3 R) : tensor3 R :=
  let '(b, s, _) := shape3 t in
  {| shape3 := (b, s, n); get3 := fun i j _ => get3 t i j 0 |}.

Definition same (t : tensor3 R) : tensor3 R := t.

Definition attention : ModifiedLlamaAttention.t R := {|
  ModifiedLlamaAttention.q_proj := same;
  ModifiedLlamaAttention.k_proj := same;
  ModifiedLlamaAttention.v_proj := same;
  ModifiedLlamaAttention.o_proj := first_feature 1;
  ModifiedLlamaAttention.head_dim := 1;
  ModifiedLlamaAttention.num_key_value_groups := 1;
  ModifiedLlamaAttention.scaling := 1%R;
  ModifiedLlamaAttention.attention_dropout := 0%R;
  ModifiedLlamaAttention.training := false;
  ModifiedLlamaAttention.layer_idx := 0
|}.

Definition layer : ModifiedLlamaDecoderLayer.t R := {|
  ModifiedLlamaDecoderLayer.self_attn := attention;
  ModifiedLlamaDecoderLayer.input_layernorm := same;
  ModifiedLlamaDecoderLayer.hidden_norm := same;
  ModifiedLlamaDecoderLayer.post_attention_layernorm := same;
  ModifiedLlamaDecoderLayer.mlp := same
|}.

Definition draft : EagleModule.t R := {|
  EagleModule.hidden_size := 1;
  EagleModule.fc := first_feature 1;
  EagleModule.layers := [layer];
  EagleModule.norm := None;
  EagleModule.lm_head := first_feature 2
|}.

Definition base_output : CausalLMOutput.t R := {|
  CausalLMOutput.logits :=
    {| shape3 := (1, 2, 2); get3 := fun _ s v => INR (s + v) |};
  CausalLMOutput.hidden_states :=
    [full3 (1, 2, 1) 1%R; full3 (1, 2, 1) 1%R; full3 (1, 2, 1) 1%R];
  CausalLMOutput.past_key_values := tt;
  CausalLMOutput.attentions := tt
|}.

Definition model : HFEagleModel.t R := {|
  HFEagleModel.base_forward := fun _ => base_output;
  HFEagleModel.embed_tokens := fun ids =>
    let '(b, s) := shape2 ids in
    {| shape3 := (b, s, 1); get3 := fun i j _ => IZR (get2 ids i j) |};
  HFEagleModel.rotary_emb := fun hidden _ => (hidden, hidden);
  HFEagleModel.eagle_module := draft;
  HFEagleModel.use_aux_hidden_state := true;
  HFEagleModel.eagle_aux_hidden_state_layer_ids := [0; 1; 2]%Z
|}.

Definition args (loss_mask : option (tensor2 R)) : Args.t R := {|
  Args.input_ids := {| shape2 := (1, 2); get2 := fun _ s => Z.of_nat (s + 1) |};
  Args.attention_mask := None;
  Args.position_ids := None;
  Args.past_key_values := None;
  Args.inputs_embeds := None;
  Args.labels := None;
  Args.use_cache := None;
  Args.output_attentions := None;
  Args.output_hidden_states := None;
  Args.cache_position := None;
  Args.logits_to_keep := 0%Z;
  Args.loss_mask := loss_mask;
  Args.freeze_base_model := true
|}.

Definition ones : tensor2 R := full2 (1, 2) 1%R.

Definition empty_store : heap R :=
  {| next := 0; cell := fun _ => full4 (0, 0, 0, 0) 0%R |}.

(** A store that holds one causal mask [1, 1, 2, 2]. *)
Definition one_mask_store : heap R :=
  {| next := 1; cell := fun _ => causal_mask (1, 2) 0 |}.

(** The variables of the rollout before its first step, on that store. *)
Definition vars0 : Vars.t R := {|
  Vars.hidden_states := full3 (1, 2, 1) 1%R;
  Vars.logits := CausalLMOutput.logits base_output;
  Vars.input_ids := Args.input_ids (args (Some ones));
  Vars.loss_mask := Some ones;
  Vars.eagle_cache := Some [];
  Vars.eagle_logits := None;
  Vars.loss_list := []
|}.

(** A loss method that returns the classification loss of [_eagle_loss]
    and no regression loss. *)
Definition classification_only : HFEagleModel.eagle_loss_method R :=
  fun hidden_states logits eagle_hidden_states eagle_logits loss_mask =>
    match HFEagleModel._eagle_loss hidden_states logits eagle_hidden_states
            eagle_logits loss_mask with
    | Ok (_, classification_loss) => Ok (0%R, classification_loss)
    | Err e => Err e
    end.

(** A model whose base model returns hidden states of an empty sequence. *)
Definition empty_model : HFEagleModel.t R := {|
  HFEagleModel.base_forward := fun _ =>
    {| CausalLMOutput.logits := full3 (1, 0, 2) 0%R;
       CausalLMOutput.hidden_states := [full3 (1, 0, 1) 1%R];
       CausalLMOutput.past_key_values := tt;
       CausalLMOutput.attentions := tt |};
  HFEagleModel.embed_tokens := HFEagleModel.embed_tokens model;
  HFEagleModel.rotary_emb := HFEagleModel.rotary_emb model;
  HFEagleModel.eagle_module := draft;
  HFEagleModel.use_aux_hidden_state := false;
  HFEagleModel.eagle_aux_hidden_state_layer_ids := []
|}.


(** Logits [1, 2, 2] that are 0 at the first position and [x] at the
    second. *)
Definition second_position (x : R) : tensor3 R :=
  {| shape3 := (1, 2, 2);
     get3 := fun _ s _ => match s with 0 => 0%R | _ => x end |}.

(** A Medusa model with [n] heads on a base model that returns hidden
    states [1, 3, 1]; the output head and the heads map to a vocabulary of
    two. *)
Definition medusa (n : nat) : HFMedusaModel.t R := {|
  HFMedusaModel.model := fun _ =>
    {| HFMedusaModel.last_hidden_state :=
         {| shape3 := (1, 3, 1); get3 := fun _ s _ => INR s |};
       HFMedusaModel.base_past_key_values := tt;
       HFMedusaModel.base_hidden_states := [];
       HFMedusaModel.base_attentions := tt |};
  HFMedusaModel.lm_head := first_feature 2;
  HFMedusaModel.medusa_heads := repeat (first_feature 2) n;
  HFMedusaModel.medusa_num_heads := n
|}.

(** The labels [[0, 1, 0]]. *)
Definition medusa_labels : tensor2 Z :=
  {| shape2 := (1, 3);
     get2 := fun _ s => match s with 1 => 1%Z | _ => 0%Z end |}.

Definition medusa_args (labels : option (tensor2 Z)) (logits_to_keep : Z)
    (freeze_base_model : bool) (heads_coefficient decay_coefficient : option R)
  : HFMedusaModel.args R := {|
  HFMedusaModel.input_ids := None;
  HFMedusaModel.attention_mask := None;
  HFMedusaModel.position_ids := None;
  HFMedusaModel.past_key_values := None;
  HFMedusaModel.inputs_embeds := None;
  HFMedusaModel.labels := labels;
  HFMedusaModel.use_cache := None;
  HFMedusaModel.output_attentions := None;
  HFMedusaModel.output_hidden_states := None;
  HFMedusaModel.cache_position := None;
  HFMedusaModel.logits_to_keep := inl logits_to_keep;
  HFMedusaModel.freeze_base_model := freeze_base_model;
  HFMedusaModel.medusa_heads_coefficient := heads_coefficient;
  HFMedusaModel.medusa_decay_coefficient := decay_coefficient
|}.

End Example.

Unset Implicit Arguments.

(** ** Proof automation *)

(** Case analysis on every comparison of naturals in the goal. *)
Ltac nat_cases :=
  repeat match goal with
  | |- context [?a <=? ?b] => destruct (Nat.leb_spec a b)
  | |- context [?a <? ?b] => destruct (Nat.ltb_spec a b)
  | |- context [?a =? ?b] => destruct (Nat.eqb_spec a b)
  end;
  cbn [andb orb negb]; try reflexivity; try lia.

(** ** The tree attention mask builder *)

Section MaskBuilder.

Context {T : Type} `{Scalar T}.

Lemma setitem_rc_ok (m : tensor4 T) (i j : nat) (v : T) b h t s :
  shape4 m = (b, h, t, s) -> i < t -> j < s ->
  setitem_rc m i j v =
  Ok {| shape4 := shape4 m;
        get4 := fun b h r c => if (r =? i) && (c =? j) then v else get4 m b h r c |}.
Proof.
  intros Hs Hi Hj. unfold setitem_rc. rewrite Hs.
  apply Nat.ltb_lt in Hi, Hj. now rewrite Hi, Hj.
Qed.

(** The inner loop writes the diagonal of one block. *)
Lemma block_diagonal_loop (bs e : nat) b h t s :
  forall (k a : nat) (m : tensor4 T),
    shape4 m = (b, h, t, s) -> a + k <= t -> bs + a + k <= s -> s <= e ->
    exists m',
      foreach (seq a k) (fun i m =>
        if (bs + i <? e) then setitem_rc m i (bs + i) zero else Ok m) m = Ok m'
      /\ shape4 m' = (b, h, t, s)
      /\ forall b' h' r c,
           get4 m' b' h' r c =
           if (a <=? r) && (r <? a + k) && (c =? bs + r) then zero
           else get4 m b' h' r c.
Proof.
  induction k as [|k IH]; intros a m Hs Ht Hc He.
  - exists m. simpl. repeat split; auto. intros. nat_cases.
  - simpl.
    assert (Hlt : (bs + a <? e) = true) by (apply Nat.ltb_lt; lia).
    rewrite Hlt.
    rewrite (@setitem_rc_ok m a (bs + a) zero b h t s) by (auto; lia).
    simpl.
    destruct (IH (S a)
      {| shape4 := shape4 m;
         get4 := fun b h r c =>
           if (r =? a) && (c =? bs + a) then zero else get4 m b h r c |})
      as (m' & Hrun & Hshape & Hget); simpl; auto; try lia.
    exists m'. split; [exact Hrun|]. split; [exact Hshape|].
    intros b' h' r c. rewrite Hget. cbn [get4]. nat_cases.
Qed.

(** The outer loop writes the diagonal of every whole block. *)
Lemma diagonal_blocks_loop (src seq_lens cache d : nat) b h t :
  d <= t -> d <= seq_lens ->
  forall (n a : nat) (m : tensor4 T),
    shape4 m = (b, h, t, src + cache) -> (a + n) * seq_lens <= cache ->
    exists m',
      foreach (seq a n) (fun block_idx m =>
        foreach (seq 0 d) (fun i m =>
          if (src + block_idx * seq_lens + i <? src + cache)
          then setitem_rc m i (src + block_idx * seq_lens + i) zero
          else Ok m) m) m = Ok m'
      /\ shape4 m' = (b, h, t, src + cache)
      /\ forall b' h' r c,
           get4 m' b' h' r c =
           if on_block_diagonal src seq_lens d a n r c then zero
           else get4 m b' h' r c.
Proof.
  intros Hdt Hds. unfold on_block_diagonal.
  induction n as [|n IH]; intros a m Hs Hc.
  - exists m. simpl. repeat split; auto. intros. now rewrite andb_false_r.
  - cbn [seq foreach].
    destruct (@block_diagonal_loop (src + a * seq_lens) (src + cache)
                b h t (src + cache) d 0 m) as (m1 & Hrun1 & Hs1 & Hget1);
      auto; try nia.
    rewrite Hrun1. cbn [rbind].
    destruct (IH (S a) m1) as (m' & Hrun & Hs' & Hget); auto; try nia.
    exists m'. split; [exact Hrun|]. split; [exact Hs'|].
    intros b' h' r c. rewrite Hget, Hget1. cbn [existsb].
    destruct (existsb _ (seq (S a) n)); nat_cases.
Qed.

Lemma fill_diagonal_blocks_spec (m : tensor4 T) (src seq_lens cache : nat) b h t :
  shape4 m = (b, h, t, src + cache) -> 0 < seq_lens ->
  exists m',
    EagleModule.fill_diagonal_blocks t src seq_lens (src + cache)
      (cache / seq_lens) m = Ok m'
    /\ shape4 m' = (b, h, t, src + cache)
    /\ forall b' h' r c,
         get4 m' b' h' r c =
         if on_block_diagonal src seq_lens (Nat.min t seq_lens) 0
              (cache / seq_lens) r c
         then zero else get4 m b' h' r c.
Proof.
  intros Hs Hpos. unfold EagleModule.fill_diagonal_blocks, range. cbv zeta.
  apply diagonal_blocks_loop; auto; try lia.
  simpl. rewrite Nat.mul_comm. apply Nat.Div0.mul_div_le.
Qed.

Lemma on_block_diagonal_entries (src seq_lens blocks rows r c : nat) :
  on_block_diagonal src seq_lens rows 0 blocks r c = true <->
  In (r, c) (diagonal_entries src seq_lens blocks rows).
Proof.
  unfold on_block_diagonal, diagonal_entries.
  rewrite andb_true_iff, Nat.ltb_lt, existsb_exists, in_map_iff. split.
  - intros (Hr & k & Hk & Hc). apply Nat.eqb_eq in Hc.
    exists (k, r). split; [now subst|].
    apply in_prod_iff. split; [exact Hk|]. apply in_seq. lia.
  - intros ((k, i) & Heq & Hin). injection Heq as <- <-.
    apply in_prod_iff in Hin. destruct Hin as (Hk & Hi).
    apply in_seq in Hi. split; [lia|].
    exists k. split; [exact Hk|]. apply Nat.eqb_refl.
Qed.

Lemma NoDup_list_prod {A B : Type} (l : list A) (l' : list B) :
  NoDup l -> NoDup l' -> NoDup (list_prod l l').
Proof.
  intros Hl Hl'. induction Hl as [|x l Hx Hl IH]; simpl; [constructor|].
  apply NoDup_app; auto.
  - apply NoDup_map_NoDup_ForallPairs; auto.
    intros y z _ _ Heq. now injection Heq.
  - intros (x', y) Hin1 Hin2.
    apply in_map_iff in Hin1. destruct Hin1 as (y' & Heq & _).
    injection Heq as <- <-. apply in_prod_iff in Hin2. tauto.
Qed.

Lemma diagonal_entries_NoDup (src seq_lens blocks rows : nat) :
  rows <= seq_lens -> NoDup (diagonal_entries src seq_lens blocks rows).
Proof.
  intros Hrows. unfold diagonal_entries.
  apply NoDup_map_NoDup_ForallPairs.
  - intros (k, i) (k', i') Hin Hin' Heq. injection Heq as Hi Hc. subst i'.
    apply in_prod_iff in Hin, Hin'. destruct Hin as (_ & Hi), Hin' as (_ & Hi').
    apply in_seq in Hi. f_equal. nia.
  - apply NoDup_list_prod; apply seq_NoDup.
Qed.

Lemma diagonal_entries_length (src seq_lens blocks rows : nat) :
  length (diagonal_entries src seq_lens blocks rows) = blocks * rows.
Proof.
  unfold diagonal_entries. now rewrite length_map, length_prod, !length_seq.
Qed.

Lemma diagonal_entries_in_range (src seq_lens cache tgt r c : nat) :
  0 < seq_lens ->
  In (r, c) (diagonal_entries src seq_lens (cache / seq_lens) (Nat.min tgt seq_lens)) ->
  r < tgt /\ src <= c < src + cache / seq_lens * seq_lens
  /\ src + cache / seq_lens * seq_lens <= src + cache.
Proof.
  intros Hpos Hin. unfold diagonal_entries in Hin.
  apply in_map_iff in Hin. destruct Hin as ((k, i) & Heq & Hin).
  injection Heq as <- <-. apply in_prod_iff in Hin. destruct Hin as (Hk & Hi).
  apply in_seq in Hk, Hi.
  pose proof (Nat.Div0.mul_div_le cache seq_lens). nia.
Qed.

(** With a cache and [seq_lens = 0] the number of blocks is a division by
    zero. *)
Lemma tree_mask_zero_seq_lens (am : loc) (cache_len : nat) (h : heap T) :
  0 < cache_len ->
  EagleModule._prepare_tree_attention_mask (Some am) 0 cache_len h
  = Err ZeroDivisionError.
Proof.
  intros Hc.
  unfold EagleModule._prepare_tree_attention_mask, bind, load, ret, lift.
  destruct (shape4 (cell h am)) as [[[bsz heads] tgt] src].
  now replace (cache_len =? 0) with false by (symmetry; apply Nat.eqb_neq; lia).
Qed.

(** C5. With an empty cache ([past_key_values_length = 0]) the builder
    returns the reference it was given: the same mask object (or [None]),
    no object is created and no object is changed. *)
Theorem tree_mask_identity_on_empty_cache
    (attention_mask : option loc) (seq_lens : nat) (h : heap T) :
  EagleModule._prepare_tree_attention_mask attention_mask seq_lens 0 h
  = Ok (attention_mask, h).
Proof.
  destruct attention_mask as [am|]; [|reflexivity].
  unfold EagleModule._prepare_tree_attention_mask, bind, load, ret.
  destruct (shape4 (cell h am)) as [[[bsz heads] tgt] src]. reflexivity.
Qed.

(** C4. For a mask object of shape [bsz, heads, tgt, src] and a cache of
    length [cache_len > 0], the builder returns a new mask of shape
    [bsz, heads, tgt, src + cache_len]. Its low [src] columns are those of the
    input. In the columns added, the entries
    [(i, src + k * seq_lens + i)], for the whole blocks [k < cache_len / seq_lens]
    and the rows [i < min tgt seq_lens], are distinct, there are
    [cache_len / seq_lens * min tgt seq_lens] of them, and they hold 0; every
    other entry of the columns added holds [finfo_min], so that, [finfo_min]
    not being 0, the allowed entries are these and no other. The columns of
    a remainder of the cache after the last whole block hold [finfo_min]
    only. The block size [seq_lens] is at least 1, as the quotient
    requires. *)
Theorem tree_mask_extension
    (h : heap T) (am : loc) (seq_lens cache_len bsz heads tgt src : nat) :
  am < next h ->
  shape4 (cell h am) = (bsz, heads, tgt, src) ->
  0 < cache_len ->
  0 < seq_lens ->
  exists (ext : loc) (h' : heap T),
    EagleModule._prepare_tree_attention_mask (Some am) seq_lens cache_len h
    = Ok (Some ext, h')
    /\ ext <> am
    /\ cell h' am = cell h am
    /\ shape4 (cell h' ext) = (bsz, heads, tgt, src + cache_len)
    /\ (forall b hd r c, c < src ->
          get4 (cell h' ext) b hd r c = get4 (cell h am) b hd r c)
    /\ let entries :=
         diagonal_entries src seq_lens (cache_len / seq_lens) (Nat.min tgt seq_lens) in
       NoDup entries
       /\ length entries = cache_len / seq_lens * Nat.min tgt seq_lens
       /\ (forall r c, In (r, c) entries -> r < tgt /\ src <= c < src + cache_len)
       /\ (forall b hd r c, In (r, c) entries -> get4 (cell h' ext) b hd r c = zero)
       /\ (forall b hd r c, r < tgt -> src <= c < src + cache_len ->
             ~ In (r, c) entries -> get4 (cell h' ext) b hd r c = finfo_min)
       /\ (finfo_min <> zero ->
           forall b hd r c, r < tgt -> src <= c < src + cache_len ->
             (get4 (cell h' ext) b hd r c = zero <-> In (r, c) entries))
       /\ (forall b hd r c, r < tgt ->
             src + cache_len / seq_lens * seq_lens <= c < src + cache_len ->
             get4 (cell h' ext) b hd r c = finfo_min).
Proof.
  intros Hvalid Hshape Hcache Hseq.
  unfold EagleModule._prepare_tree_attention_mask, bind, load, ret, lift, alloc.
  rewrite Hshape.
  replace (cache_len =? 0) with false by (symmetry; apply Nat.eqb_neq; lia).
  unfold floordiv.
  replace (seq_lens =? 0) with false by (symmetry; apply Nat.eqb_neq; lia).
  destruct (@fill_diagonal_blocks_spec
              (assign_low_columns
                 (full4 (bsz, heads, tgt, src + cache_len) finfo_min) src (cell h am))
              src seq_lens cache_len bsz heads tgt)
    as (m' & Hrun & Hs' & Hget); auto.
  rewrite Hrun.
  exists (next h), {| next := S (next h);
                      cell := fun l => if l =? next h then m' else cell h l |}.
  cbn [cell next]. rewrite Nat.eqb_refl.
  replace (am =? next h) with false by (symmetry; apply Nat.eqb_neq; lia).
  split; [reflexivity|]. split; [lia|]. split; [reflexivity|].
  split; [exact Hs'|]. split.
  - intros b hd r c Hc. rewrite Hget.
    destruct (on_block_diagonal _ _ _ _ _ _ _) eqn:E.
    + apply on_block_diagonal_entries, diagonal_entries_in_range in E;
        [exfalso|]; lia.
    + unfold assign_low_columns, full4. cbn [get4]. nat_cases.
  - cbv zeta.
    assert (Hzero : forall b hd r c,
               In (r, c) (diagonal_entries src seq_lens (cache_len / seq_lens)
                            (Nat.min tgt seq_lens)) ->
               get4 m' b hd r c = zero).
    { intros b hd r c Hin. rewrite Hget.
      apply on_block_diagonal_entries in Hin. now rewrite Hin. }
    assert (Hmin : forall b hd r c, r < tgt -> src <= c < src + cache_len ->
               ~ In (r, c) (diagonal_entries src seq_lens (cache_len / seq_lens)
                              (Nat.min tgt seq_lens)) ->
               get4 m' b hd r c = finfo_min).
    { intros b hd r c Hr Hc Hnin. rewrite Hget.
      destruct (on_block_diagonal _ _ _ _ _ _ _) eqn:E.
      - apply on_block_diagonal_entries in E. contradiction.
      - unfold assign_low_columns, full4. cbn [get4]. nat_cases. }
    split; [apply diagonal_entries_NoDup; lia|].
    split; [apply diagonal_entries_length|].
    split; [intros r c Hin; apply diagonal_entries_in_range in Hin; lia|].
    split; [exact Hzero|]. split; [exact Hmin|]. split.
    + intros Hnz b hd r c Hr Hc. split; [|apply Hzero].
      intros Hz.
      destruct (in_dec (fun x y : nat * nat =>
                          ltac:(decide equality; apply Nat.eq_dec))
                  (r, c) (diagonal_entries src seq_lens (cache_len / seq_lens)
                            (Nat.min tgt seq_lens))) as [Hin|Hnin]; [exact Hin|].
      rewrite (Hmin b hd r c Hr Hc Hnin) in Hz. contradiction.
    + intros b hd r c Hr Hc. apply Hmin; [exact Hr|lia|].
      intros Hin. apply diagonal_entries_in_range in Hin; lia.
Qed.

(** The builder leaves the objects of the store as they are. *)
Lemma tree_mask_store
    (attention_mask r : option loc) (seq_lens cache_len : nat) (h h1 : heap T) :
  EagleModule._prepare_tree_attention_mask attention_mask seq_lens cache_len h
  = Ok (r, h1) ->
  next h <= next h1 /\ forall l, l < next h -> cell h1 l = cell h l.
Proof.
  unfold EagleModule._prepare_tree_attention_mask, bind, load, ret, lift, alloc.
  destruct attention_mask as [am|]; [|intros [= <- <-]; auto].
  destruct (shape4 (cell h am)) as [[[bsz heads] tgt] src].
  destruct (cache_len =? 0); [intros [= <- <-]; auto|].
  destruct (floordiv cache_len seq_lens) as [nb|e]; [|discriminate].
  destruct (EagleModule.fill_diagonal_blocks _ _ _ _ _ _) as [m'|e]; [|discriminate].
  intros [= <- <-]. cbn. split; [lia|]. intros l Hl. nat_cases.
Qed.

(** The mask returned has the square part of the mask given. *)
Lemma tree_mask_low_columns
    (am ext : loc) (seq_lens cache_len : nat) (h h1 : heap T)
    (bsz heads tgt src : nat) :
  am < next h ->
  shape4 (cell h am) = (bsz, heads, tgt, src) ->
  EagleModule._prepare_tree_attention_mask (Some am) seq_lens cache_len h
  = Ok (Some ext, h1) ->
  forall b hd r c, c < src ->
    get4 (cell h1 ext) b hd r c = get4 (cell h am) b hd r c.
Proof.
  intros Hvalid Hshape.
  unfold EagleModule._prepare_tree_attention_mask, bind, load, ret, lift, alloc.
  rewrite Hshape.
  destruct (cache_len =? 0); [intros [= <- <-]; auto|].
  unfold floordiv. destruct (Nat.eqb_spec seq_lens 0) as [|Hpos]; [discriminate|].
  destruct (fill_diagonal_blocks_spec
              (assign_low_columns
                 (full4 (bsz, heads, tgt, src + cache_len) finfo_min) src (cell h am))
              src seq_lens cache_len bsz heads tgt)
    as (m' & Hrun & Hs' & Hget); auto; [lia|].
  rewrite Hrun. intros [= <- <-] b hd r c Hc. cbn [cell].
  rewrite Nat.eqb_refl, Hget.
  destruct (on_block_diagonal _ _ _ _ _ _ _) eqn:E.
  - apply on_block_diagonal_entries, diagonal_entries_in_range in E;
      [exfalso|]; lia.
  - unfold assign_low_columns, full4. cbn [get4]. nat_cases.
Qed.

(** An indexed assignment writes its value and nothing else. *)
Lemma index_put_rc_written (ind0 ind1 : list nat) (v : T) (m m' : tensor4 T) :
  index_put_rc m ind0 ind1 v = Ok m' ->
  shape4 m' = shape4 m
  /\ forall b hd r c,
       get4 m' b hd r c = get4 m b hd r c \/ get4 m' b hd r c = v.
Proof.
  unfold index_put_rc. destruct (length ind0 =? length ind1); [|discriminate].
  generalize (combine ind0 ind1) as pairs. clear ind0 ind1.
  intros pairs. revert m. induction pairs as [|[i j] pairs IH]; intros m.
  - intros [= <-]. auto.
  - cbn [foreach]. unfold setitem_rc at 1.
    destruct (shape4 m) as [[[b0 h0] t0] s0] eqn:Es.
    destruct ((i <? t0) && (j <? s0)); cbn [rbind]; [|discriminate].
    intros Hrun. apply IH in Hrun. cbn [shape4 get4] in Hrun.
    destruct Hrun as [Hs Hg]. split; [congruence|].
    intros b hd r c. destruct (Hg b hd r c) as [->| ->]; auto.
    destruct ((r =? i) && (c =? j)); auto.
Qed.

End MaskBuilder.

(** ** Shifting the targets *)

Section Shifting.

Context {T : Type} `{Scalar T}.

Lemma shift_left2_shifted {X : Type} (pad : X) (t : tensor2 X) :
  0 < snd (shape2 t) ->
  exists t', HFEagleModel.shift_left2 pad t = Ok t' /\ shifted2 pad 1 t t'.
Proof.
  intros Hpos. unfold HFEagleModel.shift_left2, cat2_dim1, drop_first2, full2, shifted2.
  destruct (shape2 t) as [B S] eqn:Hs. cbn [shape2 get2 fst snd] in *.
  rewrite Nat.eqb_refl. eexists. split; [reflexivity|].
  cbn [shape2 get2]. split; [f_equal; lia|].
  intros b s _. nat_cases.
Qed.

Lemma shift_left3_shifted (t : tensor3 T) :
  0 < snd (fst (shape3 t)) ->
  exists t', HFEagleModel.shift_left3 t = Ok t' /\ shifted3 1 t t'.
Proof.
  intros Hpos. unfold HFEagleModel.shift_left3, cat3_dim1, drop_first3, full3, shifted3.
  destruct (shape3 t) as [[B S] V] eqn:Hs. cbn [shape3 get3 fst snd] in *.
  rewrite !Nat.eqb_refl. eexists. split; [reflexivity|].
  cbn [shape3 get3]. split; [f_equal; f_equal; lia|].
  intros b s c _. nat_cases.
Qed.

Lemma shifted2_compose {X : Type} (pad : X) (j k : nat) (t t1 t2 : tensor2 X) :
  shifted2 pad j t t1 -> shifted2 pad k t1 t2 -> shifted2 pad (j + k) t t2.
Proof.
  intros [Hs1 Hg1] [Hs2 Hg2]. split; [congruence|].
  intros b s Hs. rewrite Hg2, Hs1 by (rewrite Hs1; exact Hs).
  destruct (Nat.ltb_spec (s + k) (snd (shape2 t))) as [Hlt|Hge].
  - rewrite Hg1 by exact Hlt. nat_cases. f_equal. lia.
  - nat_cases.
Qed.

Lemma shifted3_compose (j k : nat) (t t1 t2 : tensor3 T) :
  shifted3 j t t1 -> shifted3 k t1 t2 -> shifted3 (j + k) t t2.
Proof.
  intros [Hs1 Hg1] [Hs2 Hg2]. split; [congruence|].
  intros b s c Hs. rewrite Hg2, Hs1 by (rewrite Hs1; exact Hs).
  destruct (Nat.ltb_spec (s + k) (snd (fst (shape3 t)))) as [Hlt|Hge].
  - rewrite Hg1 by exact Hlt. nat_cases. f_equal. lia.
  - nat_cases.
Qed.

Lemma shifted2_refl {X : Type} (pad : X) (t : tensor2 X) : shifted2 pad 0 t t.
Proof.
  split; [reflexivity|]. intros b s Hs. rewrite Nat.add_0_r. nat_cases.
Qed.

Lemma shifted3_refl (t : tensor3 T) : shifted3 0 t t.
Proof.
  split; [reflexivity|]. intros b s c Hs. rewrite Nat.add_0_r. nat_cases.
Qed.

Lemma shifts2_shifted {X : Type} (pad : X) (k : nat) :
  forall t : tensor2 X,
    0 < snd (shape2 t) ->
    exists t', shifts2 pad k t = Ok t' /\ shifted2 pad k t t'.
Proof.
  induction k as [|k IH]; intros t Hpos.
  - exists t. split; [reflexivity|]. apply shifted2_refl.
  - destruct (shift_left2_shifted pad t Hpos) as (t1 & Hrun1 & Hsh1).
    destruct (IH t1) as (t' & Hrun & Hsh).
    + destruct Hsh1 as [-> _]. exact Hpos.
    + exists t'. cbn [shifts2]. rewrite Hrun1. cbn [rbind].
      split; [exact Hrun|]. change (S k) with (1 + k).
      eapply shifted2_compose; eassumption.
Qed.

Lemma shifts3_shifted (k : nat) :
  forall t : tensor3 T,
    0 < snd (fst (shape3 t)) ->
    exists t', shifts3 k t = Ok t' /\ shifted3 k t t'.
Proof.
  induction k as [|k IH]; intros t Hpos.
  - exists t. split; [reflexivity|]. apply shifted3_refl.
  - destruct (shift_left3_shifted t Hpos) as (t1 & Hrun1 & Hsh1).
    destruct (IH t1) as (t' & Hrun & Hsh).
    + destruct Hsh1 as [-> _]. exact Hpos.
    + exists t'. cbn [shifts3]. rewrite Hrun1. cbn [rbind].
      split; [exact Hrun|]. change (S k) with (1 + k).
      eapply shifted3_compose; eassumption.
Qed.

(** After [k < S] shifts, position 0 holds what position [k] held. *)
Lemma shifted2_head {X : Type} (pad : X) (k : nat) (t t' : tensor2 X) :
  shifted2 pad k t t' -> k < snd (shape2 t) ->
  forall b, get2 t' b 0 = get2 t b k.
Proof.
  intros [_ Hg] Hk b. rewrite Hg by lia. cbn [Nat.add]. nat_cases.
Qed.

Lemma shifted3_head (k : nat) (t t' : tensor3 T) :
  shifted3 k t t' -> k < snd (fst (shape3 t)) ->
  forall b c, get3 t' b 0 c = get3 t b k c.
Proof.
  intros [_ Hg] Hk b c. rewrite Hg by lia. cbn [Nat.add]. nat_cases.
Qed.

(** After [k] shifts, the last [k] positions hold the pad. *)
Lemma shifted2_tail {X : Type} (pad : X) (k : nat) (t t' : tensor2 X) :
  shifted2 pad k t t' ->
  forall b s, snd (shape2 t) - k <= s < snd (shape2 t) -> get2 t' b s = pad.
Proof.
  intros [_ Hg] b s Hs. rewrite Hg by lia. nat_cases.
Qed.

Lemma shifted3_tail (k : nat) (t t' : tensor3 T) :
  shifted3 k t t' ->
  forall b s c, snd (fst (shape3 t)) - k <= s < snd (fst (shape3 t)) ->
    get3 t' b s c = zero.
Proof.
  intros [_ Hg] b s c Hs. rewrite Hg by lia. nat_cases.
Qed.

(** A tensor with a non-zero entry is changed by three shifts. *)
Lemma shifted3_changes (t t' : tensor3 T) (b s c : nat) :
  shifted3 3 t t' ->
  s < snd (fst (shape3 t)) ->
  get3 t b s c <> zero ->
  ~ (forall s', s' < snd (fst (shape3 t)) -> get3 t' b s' c = get3 t b s' c).
Proof.
  intros [_ Hg] Hs Hnz Heq. apply Hnz. clear Hnz.
  remember (snd (fst (shape3 t)) - s) as n eqn:En.
  assert (Hn : snd (fst (shape3 t)) - s <= n) by lia. clear En.
  revert s Hs Hn. induction n as [|n IH]; intros s Hs Hn; [lia|].
  rewrite <- (Heq s Hs), (Hg b s c Hs).
  destruct (Nat.ltb_spec (s + 3) (snd (fst (shape3 t)))) as [Hlt|Hge]; [|reflexivity].
  apply IH; lia.
Qed.

(** Three shifts leave zeros in the last three positions, whatever the
    length of the sequence. *)
Lemma shifts3_three_tail (t t' : tensor3 T) :
  shifts3 3 t = Ok t' ->
  forall b s c,
    snd (fst (shape3 t')) - 3 <= s < snd (fst (shape3 t')) ->
    get3 t' b s c = zero.
Proof.
  intros Hrun b s c Hs.
  destruct (Nat.eq_dec (snd (fst (shape3 t))) 0) as [Hz|Hnz].
  - cbn [shifts3] in Hrun.
    destruct (HFEagleModel.shift_left3 t) as [t1|e] eqn:E1; [|discriminate].
    cbn [rbind] in Hrun.
    assert (H1 : snd (fst (shape3 t1)) = 1 /\ forall b s c, get3 t1 b s c = zero).
    { revert E1. unfold HFEagleModel.shift_left3, cat3_dim1, drop_first3, full3.
      destruct (shape3 t) as [[B S] V]. cbn [shape3 get3 fst snd] in *. subst S.
      rewrite !Nat.eqb_refl. intros [= <-]. cbn. auto. }
    destruct H1 as [Hs1 Hg1].
    destruct (shifts3_shifted 2 t1) as (t2 & Hrun2 & Hsh2); [lia|].
    cbn [shifts3] in Hrun2. rewrite Hrun2 in Hrun. injection Hrun as <-.
    destruct Hsh2 as [Hshape Hg]. rewrite Hshape in Hs.
    rewrite Hg by lia. destruct (s + 2 <? _); auto.
  - destruct (shifts3_shifted 3 t) as (t2 & Hrun2 & Hsh2); [lia|].
    rewrite Hrun2 in Hrun. injection Hrun as <-.
    destruct Hsh2 as [Hshape Hg]. rewrite Hshape in Hs.
    rewrite Hg by lia. nat_cases.
Qed.

End Shifting.

(** ** The rollout *)

Section Rollout.

Context {T : Type} `{Scalar T} `{External T}.

Variable self : HFEagleModel.t T.
Variable args : Args.t T.

(** What one step does, read off its definition. *)
Lemma ttt_step_inv
    (eagle_loss : HFEagleModel.eagle_loss_method T)
    (target : tensor3 T) (seq_length : nat) (pos : tensor2 Z) (am : loc)
    (i : nat) (v v' : Vars.t T) (h h' : heap T) :
  HFEagleModel.ttt_step self eagle_loss args target seq_length pos am i v h
  = Ok (v', h') ->
  exists proj eagle_hidden_states eagle_logits cache h1,
    draft_call self args pos am v h
    = Ok ((proj, eagle_hidden_states, eagle_logits, cache), h1)
    /\ Vars.hidden_states v' = eagle_hidden_states
    /\ Vars.eagle_logits v' = Some eagle_logits
    /\ Vars.eagle_cache v' = cache
    /\ match Vars.loss_mask v with
       | Some m =>
           exists regression_loss classification_loss,
             eagle_loss target (Vars.logits v) eagle_hidden_states eagle_logits m
             = Ok (regression_loss, classification_loss)
             /\ Vars.loss_list v' = Vars.loss_list v ++ [classification_loss]
       | None => Vars.loss_list v' = Vars.loss_list v
       end
    /\ if i <? 3 then
         HFEagleModel.shift_left3 (Vars.logits v) = Ok (Vars.logits v')
         /\ HFEagleModel.shift_left2 0%Z (Vars.input_ids v) = Ok (Vars.input_ids v')
         /\ match Vars.loss_mask v with
            | Some m =>
                exists m', HFEagleModel.shift_left2 zero m = Ok m'
                           /\ Vars.loss_mask v' = Some m'
            | None => Vars.loss_mask v' = None
            end
         /\ exists mask',
              index_put_rc (cell h1 am)
                (slice_from i (range seq_length))
                (slice_to (Z.of_nat seq_length - Z.of_nat i) (range seq_length))
                finfo_min = Ok mask'
              /\ h' = {| next := next h1;
                         cell := fun l => if l =? am then mask' else cell h1 l |}
       else
         Vars.logits v' = Vars.logits v
         /\ Vars.input_ids v' = Vars.input_ids v
         /\ Vars.loss_mask v' = Vars.loss_mask v
         /\ h' = h1.
Proof.
  unfold HFEagleModel.ttt_step, draft_call.
  unfold bind at 1. unfold lift at 1.
  destruct get_rank as [rank|e]; [|discriminate].
  unfold bind at 1 2.
  destruct (lift _ h) as [[cache_length h0]|e] eqn:Ecache; [|discriminate].
  assert (h0 = h) as ->.
  { unfold lift in Ecache. destruct (Vars.eagle_cache v); congruence. }
  destruct (EagleModule.forward _ _ _ _ _ _ _ h)
    as [[[[[proj ehs] elg] cache] h1]|e] eqn:Ecall; [|discriminate].
  intros Hrun. exists proj, ehs, elg, cache, h1.
  split; [unfold bind; rewrite Ecache; exact Ecall|].
  revert Hrun. unfold bind at 1. unfold lift at 1.
  destruct (match Args.freeze_base_model args with true => _ | false => _ end)
    as [loss|e]; [|discriminate].
  unfold bind, lift, ret, update.
  destruct (Vars.loss_mask v) as [m|] eqn:Emask.
  - destruct (eagle_loss target (Vars.logits v) ehs elg m)
      as [[reg cls]|e] eqn:Eloss; cbn [rbind]; [|discriminate].
    destruct (i <? 3).
    + destruct (HFEagleModel.shift_left3 _) as [lg'|e]; [|discriminate].
      destruct (HFEagleModel.shift_left2 0%Z _) as [ids'|e]; [|discriminate].
      destruct (HFEagleModel.shift_left2 zero m) as [m'|e]; cbn [rbind]; [|discriminate].
      destruct (index_put_rc _ _ _ _) as [mask'|e]; [|discriminate].
      intros [= <- <-]. cbn. repeat split; eauto.
    + intros [= <- <-]. cbn. repeat split; eauto.
  - destruct (i <? 3).
    + destruct (HFEagleModel.shift_left3 _) as [lg'|e]; [|discriminate].
      destruct (HFEagleModel.shift_left2 0%Z _) as [ids'|e]; [|discriminate].
      destruct (index_put_rc _ _ _ _) as [mask'|e]; [|discriminate].
      intros [= <- <-]. cbn. repeat split; eauto.
    + intros [= <- <-]. cbn. repeat split; eauto.
Qed.

(** What the prelude leaves in the variables and in the store. *)
Lemma forward_prelude_inv (h h0 : heap T) (p : HFEagleModel.prelude) :
  HFEagleModel.forward_prelude self args h = Ok (p, h0) ->
  HFEagleModel.outputs p = HFEagleModel.base_forward self (HFEagleModel.base_args args)
  /\ Vars.logits (HFEagleModel.initial p)
     = CausalLMOutput.logits (HFEagleModel.base_forward self (HFEagleModel.base_args args))
  /\ Vars.input_ids (HFEagleModel.initial p) = Args.input_ids args
  /\ Vars.loss_mask (HFEagleModel.initial p) = Args.loss_mask args
  /\ Vars.loss_list (HFEagleModel.initial p) = []
  /\ Vars.eagle_logits (HFEagleModel.initial p) = None
  /\ 0 < HFEagleModel.seq_length p
  /\ HFEagleModel.running_mask p = next h
  /\ next h0 = S (next h)
  /\ forall l, l < next h -> cell h0 l = cell h l.
Proof.
  unfold HFEagleModel.forward_prelude, bind, lift, ret, alloc.
  destruct (if HFEagleModel.use_aux_hidden_state self then _ else _)
    as [hs|e]; [|discriminate].
  destruct (getitem_z _ (-1)) as [target|e]; [|discriminate].
  destruct (Linear _ _ hs) as [projected|e]; [|discriminate].
  destruct (shape3 projected) as [[batch_size seq_length] d] eqn:Eshape.
  destruct (match Args.position_ids args with Some _ => _ | None => _ end)
    as [pos|e] eqn:Epos; [|discriminate].
  destruct (HFEagleModel._prepare_decoder_attention_mask _ _ _)
    as [[m|]|e]; [|discriminate|discriminate].
  intros [= <- <-]. cbn. repeat split; auto.
  - destruct seq_length; [|lia]. exfalso.
    destruct (Args.position_ids args) as [pids|]; unfold view_rows in Epos.
    + destruct (shape2 pids). discriminate.
    + discriminate.
  - intros l Hl. nat_cases.
Qed.

Lemma mforeach_app {A S : Type} (xs ys : list A) (body : A -> S -> M T S)
    (s : S) (h : heap T) :
  HFEagleModel.mforeach (xs ++ ys) body s h =
  match HFEagleModel.mforeach xs body s h with
  | Ok (s', h') => HFEagleModel.mforeach ys body s' h'
  | Err e => Err e
  end.
Proof.
  revert s h. induction xs as [|x xs IH]; intros s h; [reflexivity|].
  cbn [app HFEagleModel.mforeach]. unfold bind.
  destruct (body x s h) as [[s' h']|e]; [apply IH|reflexivity].
Qed.

(** The first [k + 1] steps are the first [k] steps and then step [k]. *)
Lemma rollout_upto_S
    (eagle_loss : HFEagleModel.eagle_loss_method T) (p : HFEagleModel.prelude)
    (k : nat) (h0 : heap T) :
  rollout_upto self eagle_loss args p (S k) h0 =
  match rollout_upto self eagle_loss args p k h0 with
  | Ok (v, h) =>
      HFEagleModel.ttt_step self eagle_loss args
        (HFEagleModel.target_hidden_states p) (HFEagleModel.seq_length p)
        (HFEagleModel.original_position_ids p) (HFEagleModel.running_mask p)
        k v h
  | Err e => Err e
  end.
Proof.
  unfold rollout_upto, HFEagleModel.rollout, range. rewrite seq_S, mforeach_app.
  destruct (HFEagleModel.mforeach (seq 0 k) _ _ h0) as [[v h]|e]; [|reflexivity].
  cbn [Nat.add HFEagleModel.mforeach]. unfold bind.
  destruct (HFEagleModel.ttt_step _ _ _ _ _ _ _ _ _ _) as [[v' h']|e]; reflexivity.
Qed.

Lemma rollout_upto_0
    (eagle_loss : HFEagleModel.eagle_loss_method T) (p : HFEagleModel.prelude)
    (h0 : heap T) :
  rollout_upto self eagle_loss args p 0 h0 = Ok (HFEagleModel.initial p, h0).
Proof. reflexivity. Qed.

(** A rollout that ran [k] steps ran every shorter prefix. *)
Lemma rollout_upto_prefix
    (eagle_loss : HFEagleModel.eagle_loss_method T) (p : HFEagleModel.prelude)
    (h0 : heap T) (k j : nat) (v : Vars.t T) (h : heap T) :
  j <= k ->
  rollout_upto self eagle_loss args p k h0 = Ok (v, h) ->
  exists vj hj, rollout_upto self eagle_loss args p j h0 = Ok (vj, hj).
Proof.
  intros Hle. revert v h. induction Hle as [|k Hle IH]; intros v h Hrun; eauto.
  rewrite rollout_upto_S in Hrun.
  destruct (rollout_upto self eagle_loss args p k h0) as [[vk hk]|e] eqn:E;
    [|discriminate].
  eapply IH. reflexivity.
Qed.

(** The loss mask stays present, or stays absent, and one loss is recorded
    per step when it is present, none when it is absent. *)
Lemma rollout_loss_list
    (eagle_loss : HFEagleModel.eagle_loss_method T) (p : HFEagleModel.prelude)
    (h0 : heap T) (k : nat) :
  Vars.loss_list (HFEagleModel.initial p) = [] ->
  forall v h,
    rollout_upto self eagle_loss args p k h0 = Ok (v, h) ->
    match Vars.loss_mask (HFEagleModel.initial p) with
    | Some _ => Vars.loss_mask v <> None /\ length (Vars.loss_list v) = k
    | None => Vars.loss_mask v = None /\ Vars.loss_list v = []
    end.
Proof.
  intros Hnil. induction k as [|k IH]; intros v h Hrun.
  - rewrite rollout_upto_0 in Hrun. injection Hrun as <- <-.
    rewrite Hnil. destruct (Vars.loss_mask _); split; auto; discriminate.
  - rewrite rollout_upto_S in Hrun.
    destruct (rollout_upto self eagle_loss args p k h0) as [[vk hk]|e] eqn:E;
      [|discriminate].
    specialize (IH vk hk eq_refl).
    apply ttt_step_inv in Hrun.
    destruct Hrun as (proj & ehs & elg & cache & h1 & _ & _ & _ & _ & Hloss & Hshift).
    destruct (Vars.loss_mask (HFEagleModel.initial p)).
    + destruct IH as [Hmask Hlen].
      destruct (Vars.loss_mask vk) as [m|] eqn:Em; [|contradiction].
      destruct Hloss as (reg & cls & _ & ->).
      rewrite length_app, Hlen. cbn. split; [|lia].
      destruct (k <? 3).
      * destruct Hshift as (_ & _ & (m' & _ & ->) & _). discriminate.
      * destruct Hshift as (_ & _ & -> & _). discriminate.
    + destruct IH as [Hmask Hlist]. rewrite Hmask in *.
      split; [|congruence].
      destruct (k <? 3); [apply Hshift|]. destruct Hshift as (_ & _ & -> & _). reflexivity.
Qed.

(** Every step below [k] recorded its classification loss, in order. *)
Lemma rollout_recorded (p : HFEagleModel.prelude) (h0 : heap T) (k : nat) :
  Vars.loss_list (HFEagleModel.initial p) = [] ->
  Vars.loss_mask (HFEagleModel.initial p) <> None ->
  forall v h,
    rollout_upto self HFEagleModel._eagle_loss args p k h0 = Ok (v, h) ->
    forall i, i < k ->
      exists l, nth_error (Vars.loss_list v) i = Some l
                /\ recorded_at self args p h0 i l.
Proof.
  intros Hnil Hmask. induction k as [|k IH]; intros v h Hrun i Hi; [lia|].
  rewrite rollout_upto_S in Hrun.
  destruct (rollout_upto self HFEagleModel._eagle_loss args p k h0)
    as [[vk hk]|e] eqn:E; [|discriminate].
  pose proof (rollout_loss_list _ _ _ _ Hnil _ _ E) as Hlist.
  destruct (Vars.loss_mask (HFEagleModel.initial p)); [|contradiction].
  destruct Hlist as [Hsome Hlen].
  apply ttt_step_inv in Hrun.
  destruct Hrun as (proj & ehs & elg & cache & h1 & Hcall & _ & _ & _ & Hloss & _).
  destruct (Vars.loss_mask vk) as [m|] eqn:Em; [|contradiction].
  destruct Hloss as (reg & cls & Hcls & ->).
  destruct (Nat.eq_dec i k) as [->|Hne].
  - exists cls. split.
    + rewrite nth_error_app2 by lia. now rewrite Hlen, Nat.sub_diag.
    + exists vk, hk, proj, ehs, elg, cache, h1, m, reg. auto.
  - destruct (IH vk hk eq_refl i) as (l & Hnth & Hrec); [lia|].
    exists l. split; [|exact Hrec].
    rewrite nth_error_app1; [exact Hnth|lia].
Qed.

Lemma decayed_loss_four (l0 l1 l2 l3 : T) :
  HFEagleModel.decayed_loss (map (pow lit_0_8) (range 4)) [l0; l1; l2; l3]
  = Ok (py_sum [mul (pow lit_0_8 0) l0; mul (pow lit_0_8 1) l1;
                mul (pow lit_0_8 2) l2; mul (pow lit_0_8 3) l3]).
Proof. reflexivity. Qed.

Lemma decayed_loss_nil :
  HFEagleModel.decayed_loss (map (pow lit_0_8) (range 4)) (@nil T)
  = Err IndexError.
Proof. reflexivity. Qed.

(** [forward] is the prelude, four steps, and the combination of the losses. *)
Lemma forward_with_unfold
    (eagle_loss : HFEagleModel.eagle_loss_method T) (h : heap T) :
  HFEagleModel.forward_with self eagle_loss args h =
  match HFEagleModel.forward_prelude self args h with
  | Err e => Err e
  | Ok (p, h0) =>
      match rollout_upto self eagle_loss args p 4 h0 with
      | Err e => Err e
      | Ok (v, h4) =>
          match HFEagleModel.decayed_loss (map (pow lit_0_8) (range 4))
                  (Vars.loss_list v) with
          | Err e => Err e
          | Ok loss =>
              match Vars.eagle_logits v with
              | None => Err UnboundLocalError
              | Some eagle_logits =>
                  Ok ({| ModelOutput.loss := loss;
                         ModelOutput.logits := Vars.logits v;
                         ModelOutput.eagle_logits := eagle_logits;
                         ModelOutput.past_key_values :=
                           CausalLMOutput.past_key_values (HFEagleModel.outputs p);
                         ModelOutput.hidden_states :=
                           CausalLMOutput.hidden_states (HFEagleModel.outputs p);
                         ModelOutput.attentions :=
                           CausalLMOutput.attentions (HFEagleModel.outputs p) |},
                      h4)
              end
          end
      end
  end.
Proof.
  unfold HFEagleModel.forward_with, rollout_upto, bind, lift, ret.
  destruct (HFEagleModel.forward_prelude self args h) as [[p h0]|e]; [|reflexivity].
  destruct (HFEagleModel.rollout _ _ _ _ _ _ h0) as [[v h4]|e]; [|reflexivity].
  destruct (HFEagleModel.decayed_loss _ _) as [loss|e]; [|reflexivity].
  destruct (Vars.eagle_logits v); reflexivity.
Qed.

(** After at least one step the draft logits are bound. *)
Lemma rollout_eagle_logits
    (eagle_loss : HFEagleModel.eagle_loss_method T) (p : HFEagleModel.prelude)
    (h0 : heap T) (k : nat) (v : Vars.t T) (h : heap T) :
  rollout_upto self eagle_loss args p (S k) h0 = Ok (v, h) ->
  exists vk hk proj ehs elg cache h1,
    rollout_upto self eagle_loss args p k h0 = Ok (vk, hk)
    /\ draft_call self args (HFEagleModel.original_position_ids p)
         (HFEagleModel.running_mask p) vk hk
       = Ok ((proj, ehs, elg, cache), h1)
    /\ Vars.eagle_logits v = Some elg.
Proof.
  rewrite rollout_upto_S.
  destruct (rollout_upto self eagle_loss args p k h0) as [[vk hk]|e]; [|discriminate].
  intros Hstep. apply ttt_step_inv in Hstep.
  destruct Hstep as (proj & ehs & elg & cache & h1 & Hcall & _ & Hel & _).
  exists vk, hk, proj, ehs, elg, cache, h1. auto.
Qed.

(** C1. When the loss mask is given and the four speculative steps run,
    [forward] returns, and the loss returned is the sum, accumulated from
    the left from 0, of [0.8 ** i] times the classification loss recorded
    at step [i], for [i = 0, 1, 2, 3]; no other loss enters it. *)
Theorem forward_loss_is_decayed_sum
    (h h0 h4 : heap T) (p : HFEagleModel.prelude) (v : Vars.t T)
    (loss_mask : tensor2 T) :
  Args.loss_mask args = Some loss_mask ->
  HFEagleModel.forward_prelude self args h = Ok (p, h0) ->
  rollout_upto self HFEagleModel._eagle_loss args p 4 h0 = Ok (v, h4) ->
  exists out l0 l1 l2 l3,
    HFEagleModel.forward self args h = Ok (out, h4)
    /\ recorded_at self args p h0 0 l0
    /\ recorded_at self args p h0 1 l1
    /\ recorded_at self args p h0 2 l2
    /\ recorded_at self args p h0 3 l3
    /\ ModelOutput.loss out
       = py_sum [mul (pow lit_0_8 0) l0; mul (pow lit_0_8 1) l1;
                 mul (pow lit_0_8 2) l2; mul (pow lit_0_8 3) l3].
Proof.
  intros Hmask Hpre Hrun.
  destruct (forward_prelude_inv _ _ _ Hpre)
    as (_ & _ & _ & Hm0 & Hnil & _).
  assert (Hsome : Vars.loss_mask (HFEagleModel.initial p) <> None)
    by (rewrite Hm0, Hmask; discriminate).
  pose proof (rollout_recorded _ _ _ Hnil Hsome _ _ Hrun) as Hrec.
  pose proof (rollout_loss_list _ _ _ _ Hnil _ _ Hrun) as Hlist.
  rewrite Hm0, Hmask in Hlist. destruct Hlist as [_ Hlen].
  destruct (Hrec 0) as (l0 & Hn0 & Hr0); [lia|].
  destruct (Hrec 1) as (l1 & Hn1 & Hr1); [lia|].
  destruct (Hrec 2) as (l2 & Hn2 & Hr2); [lia|].
  destruct (Hrec 3) as (l3 & Hn3 & Hr3); [lia|].
  destruct (Vars.loss_list v) as [|x0 [|x1 [|x2 [|x3 [|x4 rest]]]]] eqn:El;
    try discriminate Hlen.
  cbn in Hn0, Hn1, Hn2, Hn3.
  injection Hn0 as ->. injection Hn1 as ->. injection Hn2 as ->. injection Hn3 as ->.
  destruct (rollout_eagle_logits _ _ _ _ _ _ Hrun)
    as (v3 & h3 & proj & ehs & elg & cache & h1 & _ & _ & Helg).
  eexists _, l0, l1, l2, l3.
  unfold HFEagleModel.forward.
  rewrite forward_with_unfold, Hpre, Hrun, El, decayed_loss_four, Helg.
  split; [reflexivity|]. cbn [ModelOutput.loss]. auto 10.
Qed.

(** C3. When the loss mask is absent and the four speculative steps run,
    no loss has been recorded, and the combination of the losses raises
    [IndexError]: [forward] returns no output. *)
Theorem forward_fails_without_loss_mask
    (h h0 h4 : heap T) (p : HFEagleModel.prelude) (v : Vars.t T) :
  Args.loss_mask args = None ->
  HFEagleModel.forward_prelude self args h = Ok (p, h0) ->
  rollout_upto self HFEagleModel._eagle_loss args p 4 h0 = Ok (v, h4) ->
  Vars.loss_list v = []
  /\ HFEagleModel.decayed_loss (map (pow lit_0_8) (range 4)) (Vars.loss_list v)
     = Err IndexError
  /\ HFEagleModel.forward self args h = Err IndexError.
Proof.
  intros Hmask Hpre Hrun.
  destruct (forward_prelude_inv _ _ _ Hpre) as (_ & _ & _ & Hm0 & Hnil & _).
  pose proof (rollout_loss_list _ _ _ _ Hnil _ _ Hrun) as Hlist.
  rewrite Hm0, Hmask in Hlist. destruct Hlist as [_ Hlist].
  unfold HFEagleModel.forward.
  rewrite forward_with_unfold, Hpre, Hrun, Hlist, decayed_loss_nil. auto.
Qed.

(** The draft module leaves the objects of the store as they are. *)
Lemma draft_call_store
    (pos : tensor2 Z) (am : loc) (v : Vars.t T) (h h1 : heap T)
    (r : tensor3 T * tensor3 T * tensor3 T * option Cache) :
  draft_call self args pos am v h = Ok (r, h1) ->
  next h <= next h1 /\ forall l, l < next h -> cell h1 l = cell h l.
Proof.
  unfold draft_call, EagleModule.forward, bind, lift, ret, load.
  destruct (Vars.eagle_cache v) as [cache|]; [|discriminate].
  destruct (EagleModule._prepare_tree_attention_mask _ _ _ h)
    as [[am' h']|e] eqn:Emask; [|discriminate].
  apply tree_mask_store in Emask.
  destruct am' as [ext|];
    (destruct (foreach _ _ _) as [[hs pkv]|e]; [|discriminate]);
    intros [= <- <-]; exact Emask.
Qed.

(** A step writes [finfo_min] into the running mask, and nothing else. *)
Lemma ttt_step_mask
    (eagle_loss : HFEagleModel.eagle_loss_method T)
    (target : tensor3 T) (seq_length : nat) (pos : tensor2 Z) (am : loc)
    (i : nat) (v v' : Vars.t T) (h h' : heap T) :
  HFEagleModel.ttt_step self eagle_loss args target seq_length pos am i v h
  = Ok (v', h') ->
  am < next h ->
  am < next h'
  /\ shape4 (cell h' am) = shape4 (cell h am)
  /\ forall b hd r c,
       get4 (cell h' am) b hd r c = get4 (cell h am) b hd r c
       \/ get4 (cell h' am) b hd r c = finfo_min.
Proof.
  intros Hstep Hvalid. apply ttt_step_inv in Hstep.
  destruct Hstep as (proj & ehs & elg & cache & h1 & Hcall & _ & _ & _ & _ & Hshift).
  apply draft_call_store in Hcall. destruct Hcall as [Hnext Hcell].
  destruct (i <? 3).
  - destruct Hshift as (_ & _ & _ & mask' & Hput & ->).
    apply index_put_rc_written in Hput. destruct Hput as [Hs Hg].
    cbn [next cell]. rewrite Nat.eqb_refl, <- (Hcell am Hvalid).
    split; [lia|]. split; [exact Hs|exact Hg].
  - destruct Hshift as (_ & _ & _ & ->). rewrite (Hcell am Hvalid).
    split; [lia|]. auto.
Qed.

(** Over any number of further steps, the running mask keeps its shape and
    each of its entries is what it was or is blocked. *)
Lemma rollout_mask
    (eagle_loss : HFEagleModel.eagle_loss_method T) (p : HFEagleModel.prelude)
    (h0 : heap T) (i j : nat) :
  HFEagleModel.running_mask p < next h0 ->
  i <= j ->
  forall vi hi vj hj,
    rollout_upto self eagle_loss args p i h0 = Ok (vi, hi) ->
    rollout_upto self eagle_loss args p j h0 = Ok (vj, hj) ->
    HFEagleModel.running_mask p < next hj
    /\ shape4 (cell hj (HFEagleModel.running_mask p))
       = shape4 (cell hi (HFEagleModel.running_mask p))
    /\ forall b hd r c,
         get4 (cell hj (HFEagleModel.running_mask p)) b hd r c
         = get4 (cell hi (HFEagleModel.running_mask p)) b hd r c
         \/ get4 (cell hj (HFEagleModel.running_mask p)) b hd r c = finfo_min.
Proof.
  intros Hvalid Hle. induction Hle as [|j Hle IH]; intros vi hi vj hj Hi Hj.
  - rewrite Hi in Hj. injection Hj as <- <-.
    split; [|auto]. revert vi hi Hi.
    induction i as [|i IH]; intros vi hi Hi.
    + rewrite rollout_upto_0 in Hi. now injection Hi as <- <-.
    + rewrite rollout_upto_S in Hi.
      destruct (rollout_upto self eagle_loss args p i h0) as [[vk hk]|e];
        [|discriminate].
      eapply ttt_step_mask in Hi; [apply Hi|]. eapply IH. reflexivity.
  - rewrite rollout_upto_S in Hj.
    destruct (rollout_upto self eagle_loss args p j h0) as [[vk hk]|e] eqn:Ek;
      [|discriminate].
    destruct (IH vi hi vk hk Hi eq_refl) as (Hv & Hs & Hg).
    apply ttt_step_mask in Hj; [|exact Hv]. destruct Hj as (Hv' & Hs' & Hg').
    split; [exact Hv'|]. split; [congruence|].
    intros b hd r c. destruct (Hg' b hd r c) as [->|]; auto.
Qed.

Lemma mforeach_ext {A S : Type} (xs : list A) (f g : A -> S -> M T S) :
  (forall x s h, f x s h = g x s h) ->
  forall s h, HFEagleModel.mforeach xs f s h = HFEagleModel.mforeach xs g s h.
Proof.
  intros Hext. induction xs as [|x xs IH]; intros s h; [reflexivity|].
  cbn [HFEagleModel.mforeach]. unfold bind. rewrite Hext.
  destruct (g x s h) as [[s' h']|e]; [apply IH|reflexivity].
Qed.

(** A step depends on the loss method through the classification loss only. *)
Lemma ttt_step_same_classification
    (f g : HFEagleModel.eagle_loss_method T)
    (target : tensor3 T) (seq_length : nat) (pos : tensor2 Z) (am : loc)
    (i : nat) (v : Vars.t T) (h : heap T) :
  same_classification_loss f g ->
  HFEagleModel.ttt_step self f args target seq_length pos am i v h
  = HFEagleModel.ttt_step self g args target seq_length pos am i v h.
Proof.
  intros Hsame. unfold HFEagleModel.ttt_step, bind.
  destruct (lift get_rank h) as [[rank hr]|e]; [|reflexivity].
  destruct (lift _ hr) as [[cache_length h0]|e]; [|reflexivity].
  destruct (EagleModule.forward _ _ _ _ _ _ _ h0)
    as [[[[[proj ehs] elg] cache] h1]|e]; [|reflexivity].
  destruct (lift _ h1) as [[loss h2]|e]; [|reflexivity].
  destruct (Vars.loss_mask v) as [m|]; [|reflexivity].
  specialize (Hsame target (Vars.logits v) ehs elg m).
  destruct (f target (Vars.logits v) ehs elg m) as [[r1 c1]|e1],
           (g target (Vars.logits v) ehs elg m) as [[r2 c2]|e2];
    try contradiction; subst; reflexivity.
Qed.

Lemma forward_with_same_classification
    (f g : HFEagleModel.eagle_loss_method T) (h : heap T) :
  same_classification_loss f g ->
  HFEagleModel.forward_with self f args h = HFEagleModel.forward_with self g args h.
Proof.
  intros Hsame. rewrite !forward_with_unfold.
  destruct (HFEagleModel.forward_prelude self args h) as [[p h0]|e]; [|reflexivity].
  unfold rollout_upto, HFEagleModel.rollout.
  rewrite (mforeach_ext _ _ _
             (fun i v h => ttt_step_same_classification f g _ _ _ _ i v h Hsame)).
  reflexivity.
Qed.

(** C6. In a step that has a loss mask, the auxiliary loss returns a
    regression loss and a classification loss, and the classification loss
    alone is appended to the list of losses. The regression loss is
    discarded: with any loss method that returns the same classification
    loss, whatever its regression loss, the step and [forward] return what
    they return with [_eagle_loss]. *)
Theorem classification_loss_only_is_recorded
    (eagle_loss' : HFEagleModel.eagle_loss_method T)
    (target : tensor3 T) (seq_length : nat) (pos : tensor2 Z) (am : loc)
    (i : nat) (v v' : Vars.t T) (h h' : heap T) (m : tensor2 T) :
  Vars.loss_mask v = Some m ->
  HFEagleModel.ttt_step self HFEagleModel._eagle_loss args target seq_length
    pos am i v h = Ok (v', h') ->
  same_classification_loss HFEagleModel._eagle_loss eagle_loss' ->
  (exists regression_loss classification_loss eagle_logits,
      Vars.eagle_logits v' = Some eagle_logits
      /\ HFEagleModel._eagle_loss target (Vars.logits v)
           (Vars.hidden_states v') eagle_logits m
         = Ok (regression_loss, classification_loss)
      /\ Vars.loss_list v' = Vars.loss_list v ++ [classification_loss])
  /\ HFEagleModel.ttt_step self eagle_loss' args target seq_length pos am i v h
     = Ok (v', h')
  /\ forall h, HFEagleModel.forward_with self eagle_loss' args h
               = HFEagleModel.forward self args h.
Proof.
  intros Hmask Hstep Hsame. split; [|split].
  - apply ttt_step_inv in Hstep.
    destruct Hstep as (proj & ehs & elg & cache & h1 & _ & <- & Hel & _ & Hloss & _).
    rewrite Hmask in Hloss. destruct Hloss as (reg & cls & Hcls & Hlist).
    exists reg, cls, elg. auto.
  - rewrite <- Hstep. symmetry. now apply ttt_step_same_classification.
  - intros h2. symmetry. now apply forward_with_same_classification.
Qed.

(** C7. A step [i < 3] of the rollout replaces the logits, the input ids and
    the loss mask, of sequence length [S >= 1], by their shift to the left
    by one position, with a zero appended at the tail: the shape is kept,
    position [s] takes what position [s + 1] held, and the last position
    takes the pad. After [k] such shifts with [k < S], position 0 holds what
    position [k] held, and after 3 shifts the last 3 positions hold the pad. *)
Theorem rollout_shift_phase
    (eagle_loss : HFEagleModel.eagle_loss_method T)
    (target : tensor3 T) (seq_length : nat) (pos : tensor2 Z) (am : loc)
    (i : nat) (v v' : Vars.t T) (h h' : heap T) (B S V : nat) :
  i < 3 ->
  0 < S ->
  shape3 (Vars.logits v) = (B, S, V) ->
  shape2 (Vars.input_ids v) = (B, S) ->
  (forall m, Vars.loss_mask v = Some m -> shape2 m = (B, S)) ->
  HFEagleModel.ttt_step self eagle_loss args target seq_length pos am i v h
  = Ok (v', h') ->
  (* one shift *)
  (shape3 (Vars.logits v') = (B, S, V)
   /\ forall b s c, s < S ->
        get3 (Vars.logits v') b s c
        = if s + 1 <? S then get3 (Vars.logits v) b (s + 1) c else zero)
  /\ (shape2 (Vars.input_ids v') = (B, S)
      /\ forall b s, s < S ->
           get2 (Vars.input_ids v') b s
           = if s + 1 <? S then get2 (Vars.input_ids v) b (s + 1) else 0%Z)
  /\ match Vars.loss_mask v with
     | Some m =>
         exists m', Vars.loss_mask v' = Some m'
           /\ shape2 m' = (B, S)
           /\ forall b s, s < S ->
                get2 m' b s = if s + 1 <? S then get2 m b (s + 1) else zero
     | None => Vars.loss_mask v' = None
     end
  (* [k] shifts *)
  /\ forall k,
       (exists lk, shifts3 k (Vars.logits v) = Ok lk
          /\ shape3 lk = (B, S, V)
          /\ (k < S -> forall b c, get3 lk b 0 c = get3 (Vars.logits v) b k c)
          /\ (k = 3 -> forall b s c, S - 3 <= s < S -> get3 lk b s c = zero))
       /\ (exists ik, shifts2 0%Z k (Vars.input_ids v) = Ok ik
             /\ shape2 ik = (B, S)
             /\ (k < S -> forall b, get2 ik b 0 = get2 (Vars.input_ids v) b k)
             /\ (k = 3 -> forall b s, S - 3 <= s < S -> get2 ik b s = 0%Z))
       /\ forall m, Vars.loss_mask v = Some m ->
            exists mk, shifts2 zero k m = Ok mk
              /\ shape2 mk = (B, S)
              /\ (k < S -> forall b, get2 mk b 0 = get2 m b k)
              /\ (k = 3 -> forall b s, S - 3 <= s < S -> get2 mk b s = zero).
Proof.
  intros Hi HS Hlog Hids Hmask Hstep.
  apply ttt_step_inv in Hstep.
  destruct Hstep as (proj & ehs & elg & cache & h1 & _ & _ & _ & _ & _ & Hshift).
  replace (i <? 3) with true in Hshift by (symmetry; apply Nat.ltb_lt; lia).
  destruct Hshift as (Hl & Hd & Hm & _).
  split; [|split; [|split]].
  - destruct (shift_left3_shifted (Vars.logits v)) as (t' & Hrun & Hs & Hg);
      [rewrite Hlog; exact HS|].
    rewrite Hrun in Hl. injection Hl as <-. rewrite Hlog in *. auto.
  - destruct (shift_left2_shifted 0%Z (Vars.input_ids v)) as (t' & Hrun & Hs & Hg);
      [rewrite Hids; exact HS|].
    rewrite Hrun in Hd. injection Hd as <-. rewrite Hids in *. auto.
  - destruct (Vars.loss_mask v) as [m|]; [|exact Hm].
    destruct Hm as (m' & Hrun' & Hm').
    specialize (Hmask m eq_refl).
    destruct (shift_left2_shifted zero m) as (t' & Hrun & Hs & Hg);
      [rewrite Hmask; exact HS|].
    rewrite Hrun in Hrun'. injection Hrun' as <-. rewrite Hmask in *.
    exists t'. auto.
  - intros k. split; [|split].
    + destruct (shifts3_shifted k (Vars.logits v)) as (lk & Hrun & Hsh);
        [rewrite Hlog; exact HS|].
      exists lk. split; [exact Hrun|].
      split; [destruct Hsh as [-> _]; exact Hlog|]. split.
      * intros Hk. apply shifted3_head; [exact Hsh|rewrite Hlog; exact Hk].
      * intros -> b s c Hs. eapply shifted3_tail; [exact Hsh|rewrite Hlog; exact Hs].
    + destruct (shifts2_shifted 0%Z k (Vars.input_ids v)) as (ik & Hrun & Hsh);
        [rewrite Hids; exact HS|].
      exists ik. split; [exact Hrun|].
      split; [destruct Hsh as [-> _]; exact Hids|]. split.
      * intros Hk. apply shifted2_head with (pad := 0%Z);
          [exact Hsh|rewrite Hids; exact Hk].
      * intros -> b s Hs.
        eapply shifted2_tail; [exact Hsh|rewrite Hids; exact Hs].
    + intros m Hm0. specialize (Hmask m Hm0).
      destruct (shifts2_shifted zero k m) as (mk & Hrun & Hsh);
        [rewrite Hmask; exact HS|].
      exists mk. split; [exact Hrun|].
      split; [destruct Hsh as [-> _]; exact Hmask|]. split.
      * intros Hk. apply shifted2_head with (pad := zero);
          [exact Hsh|rewrite Hmask; exact Hk].
      * intros -> b s Hs.
        eapply shifted2_tail; [exact Hsh|rewrite Hmask; exact Hs].
Qed.

(** C8. During one call of [forward], between the state after [i] steps and
    the state after [j >= i] steps, every entry of the running attention
    mask is what it was or holds the blocking value [finfo_min]: an entry
    that was blocked is still blocked, and is not set back to the allowed
    value 0. The mask that the builder hands to the draft layers has the
    square part of the running mask, entry for entry. *)
Theorem running_mask_only_restricted
    (h h0 : heap T) (p : HFEagleModel.prelude)
    (i j : nat) (vi vj : Vars.t T) (hi hj : heap T) :
  HFEagleModel.forward_prelude self args h = Ok (p, h0) ->
  i <= j ->
  rollout_upto self HFEagleModel._eagle_loss args p i h0 = Ok (vi, hi) ->
  rollout_upto self HFEagleModel._eagle_loss args p j h0 = Ok (vj, hj) ->
  (forall b hd r c,
      get4 (cell hi (HFEagleModel.running_mask p)) b hd r c = finfo_min ->
      get4 (cell hj (HFEagleModel.running_mask p)) b hd r c = finfo_min)
  /\ (forall b hd r c,
        get4 (cell hj (HFEagleModel.running_mask p)) b hd r c
        = get4 (cell hi (HFEagleModel.running_mask p)) b hd r c
        \/ get4 (cell hj (HFEagleModel.running_mask p)) b hd r c = finfo_min)
  /\ (finfo_min <> zero ->
      forall b hd r c,
        get4 (cell hi (HFEagleModel.running_mask p)) b hd r c = finfo_min ->
        get4 (cell hj (HFEagleModel.running_mask p)) b hd r c <> zero)
  /\ (forall seq_lens cache_len ext h' bsz heads tgt src,
        shape4 (cell hj (HFEagleModel.running_mask p)) = (bsz, heads, tgt, src) ->
        EagleModule._prepare_tree_attention_mask
          (Some (HFEagleModel.running_mask p)) seq_lens cache_len hj
        = Ok (Some ext, h') ->
        forall b hd r c, c < src ->
          get4 (cell h' ext) b hd r c
          = get4 (cell hj (HFEagleModel.running_mask p)) b hd r c).
Proof.
  intros Hpre Hle Hi Hj.
  destruct (forward_prelude_inv _ _ _ Hpre)
    as (_ & _ & _ & _ & _ & _ & _ & Ham & Hnext & _).
  assert (Hvalid : HFEagleModel.running_mask p < next h0) by lia.
  destruct (rollout_mask _ p h0 i j Hvalid Hle vi hi vj hj Hi Hj) as (Hv & _ & Hg).
  assert (Hblocked : forall b hd r c,
             get4 (cell hi (HFEagleModel.running_mask p)) b hd r c = finfo_min ->
             get4 (cell hj (HFEagleModel.running_mask p)) b hd r c = finfo_min).
  { intros b hd r c Hb. destruct (Hg b hd r c) as [->|]; auto. }
  split; [exact Hblocked|]. split; [exact Hg|]. split.
  - intros Hnz b hd r c Hb. now rewrite (Hblocked b hd r c Hb).
  - intros seq_lens cache_len ext h' bsz heads tgt src Hshape Hrun.
    eapply tree_mask_low_columns; eassumption.
Qed.

(** C10. When [forward] returns, the [logits] of its output are the logits
    of the base model after three shifts to the left with a zero slice
    appended each time: the shape is kept, position [s] holds what position
    [s + 3] held, the last three positions are zero, and a base tensor with
    a non-zero entry is not returned as it was. The [eagle_logits] are the
    logits that the draft module returns in the last step. *)
Theorem forward_returns_shifted_logits
    (h h' : heap T) (out : ModelOutput.t T) :
  HFEagleModel.forward self args h = Ok (out, h') ->
  let base :=
    CausalLMOutput.logits
      (HFEagleModel.base_forward self (HFEagleModel.base_args args)) in
  shifts3 3 base = Ok (ModelOutput.logits out)
  /\ (forall b s c,
        snd (fst (shape3 (ModelOutput.logits out))) - 3 <= s
          < snd (fst (shape3 (ModelOutput.logits out))) ->
        get3 (ModelOutput.logits out) b s c = zero)
  /\ (0 < snd (fst (shape3 base)) ->
      shape3 (ModelOutput.logits out) = shape3 base
      /\ (forall b s c, s + 3 < snd (fst (shape3 base)) ->
            get3 (ModelOutput.logits out) b s c = get3 base b (s + 3) c)
      /\ (forall b s c, s < snd (fst (shape3 base)) ->
            get3 base b s c <> zero ->
            ~ (forall s', s' < snd (fst (shape3 base)) ->
                 get3 (ModelOutput.logits out) b s' c = get3 base b s' c)))
  /\ exists p h0 v3 h3 proj eagle_hidden_states cache h4,
       HFEagleModel.forward_prelude self args h = Ok (p, h0)
       /\ rollout_upto self HFEagleModel._eagle_loss args p 3 h0 = Ok (v3, h3)
       /\ draft_call self args (HFEagleModel.original_position_ids p)
            (HFEagleModel.running_mask p) v3 h3
          = Ok ((proj, eagle_hidden_states, ModelOutput.eagle_logits out, cache), h4).
Proof.
  unfold HFEagleModel.forward. rewrite forward_with_unfold.
  destruct (HFEagleModel.forward_prelude self args h) as [[p h0]|e] eqn:Hpre;
    [|discriminate].
  destruct (rollout_upto self HFEagleModel._eagle_loss args p 4 h0)
    as [[v h4]|e] eqn:Hrun; [|discriminate].
  destruct (HFEagleModel.decayed_loss _ _) as [loss|e]; [|discriminate].
  destruct (Vars.eagle_logits v) as [elg|] eqn:Helg; [|discriminate].
  intros [= <- <-]. cbv zeta. cbn [ModelOutput.logits ModelOutput.eagle_logits].
  destruct (forward_prelude_inv _ _ _ Hpre) as (_ & Hbase & _).
  set (base := CausalLMOutput.logits
                 (HFEagleModel.base_forward self (HFEagleModel.base_args args))) in *.
  assert (Hshifts : shifts3 3 base = Ok (Vars.logits v)).
  { subst base. rewrite <- Hbase. clear Hbase Helg.
    do 4 (rewrite rollout_upto_S in Hrun;
          destruct (rollout_upto self HFEagleModel._eagle_loss args p _ h0)
            as [[? ?]|?] eqn:?; [|discriminate];
          apply ttt_step_inv in Hrun;
          destruct Hrun as (? & ? & ? & ? & ? & _ & _ & _ & _ & _ & Hrun);
          cbn [Nat.ltb Nat.leb] in Hrun;
          destruct Hrun as (? & _);
          match goal with E : rollout_upto _ _ _ _ _ _ = _ |- _ =>
            rename E into Hrun end).
    rewrite rollout_upto_0 in Hrun. injection Hrun as <- <-.
    cbn [shifts3].
    repeat match goal with
           | E : HFEagleModel.shift_left3 _ = Ok _ |- _ =>
               rewrite E; cbn [rbind]; clear E
           end.
    congruence. }
  split; [exact Hshifts|]. split; [now apply shifts3_three_tail with (t := base)|].
  split.
  - intros Hpos.
    destruct (shifts3_shifted 3 base Hpos) as (t' & Hrun' & Hsh).
    rewrite Hshifts in Hrun'. injection Hrun' as <-.
    split; [apply Hsh|]. split.
    + intros b s c Hs. destruct Hsh as [_ Hg]. rewrite Hg by lia. nat_cases.
    + intros b s c Hs Hnz. now apply shifted3_changes with (s := s).
  - destruct (rollout_eagle_logits _ _ _ _ _ _ Hrun)
      as (v3 & h3 & proj & ehs & elg' & cache & h1 & Hrun3 & Hcall & Helg').
    rewrite Helg in Helg'. injection Helg' as <-.
    exists p, h0, v3, h3, proj, ehs, cache, h1. auto.
Qed.

End Rollout.

(** ** The value of the auxiliary loss, over the reals *)

Section LossValues.

Open Scope R_scope.

Ltac rsimpl :=
  cbn [add sub mul div neg abs zero one exp log of_nat lit_1e_5 lit_0_5
       lit_0_8 ltb R_scalar] in *.

Lemma sum_range_S {T : Type} `{Scalar T} (n : nat) (f : nat -> T) :
  sum_range (S n) f = add (sum_range n f) (f n).
Proof. unfold sum_range. now rewrite seq_S, fold_left_app. Qed.

Lemma sum_range_ext (n : nat) (f g : nat -> R) :
  (forall i, (i < n)%nat -> f i = g i) -> sum_range n f = sum_range n g.
Proof.
  induction n as [|n IH]; intros Hext; [reflexivity|].
  rewrite !sum_range_S, IH, Hext by auto with arith. reflexivity.
Qed.



Lemma sum_range_opp (n : nat) (f : nat -> R) :
  - sum_range n f = sum_range n (fun i => - f i).
Proof.
  induction n as [|n IH]; [cbn; rsimpl; lra|].
  rewrite !sum_range_S, <- IH. rsimpl. lra.
Qed.

Lemma sum_range_nonneg (n : nat) (f : nat -> R) :
  (forall i, (i < n)%nat -> 0 <= f i) -> 0 <= sum_range n f.
Proof.
  induction n as [|n IH]; intros Hf; [cbn; rsimpl; lra|].
  rewrite sum_range_S. rsimpl.
  specialize (IH (fun i Hi => Hf i (Nat.lt_lt_succ_r _ _ Hi))).
  specialize (Hf n (Nat.lt_succ_diag_r n)). lra.
Qed.

Lemma sum_range_pos (n : nat) (f : nat -> R) :
  (0 < n)%nat -> (forall i, (i < n)%nat -> 0 < f i) -> 0 < sum_range n f.
Proof.
  intros Hn Hf. destruct n as [|n]; [lia|].
  rewrite sum_range_S. rsimpl.
  assert (0 <= sum_range n f)
    by (apply sum_range_nonneg; intros i Hi; apply Rlt_le, Hf; lia).
  specialize (Hf n (Nat.lt_succ_diag_r n)). lra.
Qed.

(** A term of a sum of non-negative terms is at most the sum. *)
Lemma sum_range_term_le (n : nat) (f : nat -> R) (v : nat) :
  (forall i, (i < n)%nat -> 0 <= f i) -> (v < n)%nat -> f v <= sum_range n f.
Proof.
  induction n as [|n IH]; intros Hf Hv; [lia|].
  rewrite sum_range_S. rsimpl.
  pose proof (Hf n (Nat.lt_succ_diag_r n)).
  destruct (Nat.eq_dec v n) as [->|Hne].
  - assert (0 <= sum_range n f)
      by (apply sum_range_nonneg; intros i Hi; apply Hf; lia).
    lra.
  - assert (f v <= sum_range n f) by (apply IH; [intros i Hi; apply Hf|]; lia).
    lra.
Qed.

(** A term of a sum of two or more positive terms is less than the sum. *)
Lemma sum_range_term_lt (n : nat) (f : nat -> R) (v : nat) :
  (forall i, (i < n)%nat -> 0 < f i) -> (2 <= n)%nat -> (v < n)%nat ->
  f v < sum_range n f.
Proof.
  intros Hf Hn Hv. destruct n as [|n]; [lia|].
  rewrite sum_range_S. rsimpl.
  pose proof (Hf n (Nat.lt_succ_diag_r n)).
  destruct (Nat.eq_dec v n) as [->|Hne].
  - assert (0 < sum_range n f)
      by (apply sum_range_pos; [|intros i Hi; apply Hf]; lia).
    lra.
  - assert (f v <= sum_range n f).
    { apply sum_range_term_le; [intros i Hi; apply Rlt_le, Hf|]; lia. }
    lra.
Qed.


Lemma softmax_term_neg (V : nat) (x : nat -> R) (v : nat) :
  (2 <= V)%nat -> (v < V)%nat ->
  Rtrigo_def.exp (x v) / sum_range V (fun j => Rtrigo_def.exp (x j))
  * (x v - ln (sum_range V (fun j => Rtrigo_def.exp (x j)))) < 0.
Proof.
  intros HV Hv. set (Z := sum_range V (fun j => Rtrigo_def.exp (x j))).
  assert (Hlt : Rtrigo_def.exp (x v) < Z).
  { apply (sum_range_term_lt V (fun j => Rtrigo_def.exp (x j)) v); auto.
    intros i _. apply exp_pos. }
  pose proof (exp_pos (x v)) as Hpos.
  assert (HZ : 0 < Z) by lra.
  assert (Hln : x v < ln Z).
  { rewrite <- (ln_exp (x v)). apply ln_increasing; assumption. }
  assert (Hp : 0 < Rtrigo_def.exp (x v) / Z) by (apply Rdiv_lt_0_compat; assumption).
  nra.
Qed.


Lemma softmax_entropy_pos (V : nat) (x : nat -> R) :
  (2 <= V)%nat -> 0 < softmax_entropy V x.
Proof.
  intros HV. unfold softmax_entropy. rewrite sum_range_opp.
  apply sum_range_pos; [lia|].
  intros v Hv. pose proof (softmax_term_neg V x v HV Hv). lra.
Qed.


Lemma broadcast_index_lt (d i : nat) : (i < d)%nat -> broadcast_index d i = i.
Proof. unfold broadcast_index. intros Hi. destruct (Nat.eqb_spec d 1); lia. Qed.

Lemma broadcast_dim_same (d : nat) : broadcast_dim d d = Ok d.
Proof. unfold broadcast_dim. now rewrite Nat.eqb_refl. Qed.

Lemma broadcast_dim_one (d : nat) : broadcast_dim 1 d = Ok d.
Proof.
  unfold broadcast_dim. destruct (Nat.eqb_spec 1 d) as [<-|]; reflexivity.
Qed.






End LossValues.

(** ** The draft decoder layer *)

Section DecoderLayer.

Context {T : Type} `{Scalar T} `{External T}.

(** C9, amended. The first element of the tuple that the draft decoder
    layer returns is the MLP applied to the post-attention normalization of
    the self-attention output of the concatenation of the normalized token
    embeddings and the normalized hidden states. No residual is added: the
    layer depends on its two input streams through their normalizations
    only. The tuple has this element alone unless [output_attentions] is
    set, in which case the attention weights are its second element. *)
Theorem decoder_layer_has_no_residual
    (self : ModifiedLlamaDecoderLayer.t T)
    (hidden_states input_embeds : tensor3 T)
    (attention_mask : option (tensor4 T)) (past_key_value : option Cache)
    (output_attentions : option bool)
    (position_embeddings : tensor3 T * tensor3 T) :
  ModifiedLlamaDecoderLayer.forward self hidden_states input_embeds
    attention_mask past_key_value output_attentions position_embeddings
  = (let* x := cat3_last (ModifiedLlamaDecoderLayer.input_layernorm self input_embeds)
                 (ModifiedLlamaDecoderLayer.hidden_norm self hidden_states) in
     let* (r, cache) :=
       ModifiedLlamaAttention.forward (ModifiedLlamaDecoderLayer.self_attn self)
         x position_embeddings attention_mask past_key_value in
     Ok ((ModifiedLlamaDecoderLayer.mlp self
            (ModifiedLlamaDecoderLayer.post_attention_layernorm self (fst r)),
          if truthy output_attentions then Some (snd r) else None),
         cache))
  /\ (forall hidden_states' input_embeds',
        ModifiedLlamaDecoderLayer.input_layernorm self input_embeds'
        = ModifiedLlamaDecoderLayer.input_layernorm self input_embeds ->
        ModifiedLlamaDecoderLayer.hidden_norm self hidden_states'
        = ModifiedLlamaDecoderLayer.hidden_norm self hidden_states ->
        ModifiedLlamaDecoderLayer.forward self hidden_states' input_embeds'
          attention_mask past_key_value output_attentions position_embeddings
        = ModifiedLlamaDecoderLayer.forward self hidden_states input_embeds
            attention_mask past_key_value output_attentions position_embeddings)
  /\ (forall outs cache,
        ModifiedLlamaDecoderLayer.forward self hidden_states input_embeds
          attention_mask past_key_value output_attentions position_embeddings
        = Ok (outs, cache) ->
        (truthy output_attentions = false -> snd outs = None)
        /\ (truthy output_attentions = true -> snd outs <> None)).
Proof.
  split; [|split].
  - unfold ModifiedLlamaDecoderLayer.forward.
    destruct (cat3_last _ _) as [x|e]; [|reflexivity]. cbn [rbind].
    destruct (ModifiedLlamaAttention.forward _ _ _ _ _) as [[[a w] c]|e];
      [|reflexivity].
    cbn [rbind fst snd]. destruct (truthy output_attentions); reflexivity.
  - intros hidden_states' input_embeds' He Hh.
    unfold ModifiedLlamaDecoderLayer.forward. now rewrite He, Hh.
  - intros outs cache. unfold ModifiedLlamaDecoderLayer.forward.
    destruct (cat3_last _ _) as [x|e]; [|discriminate]. cbn [rbind].
    destruct (ModifiedLlamaAttention.forward _ _ _ _ _) as [[[a w] c]|e];
      [|discriminate].
    cbn [rbind]. destruct (truthy output_attentions);
      intros [= <- <-]; split; intros; cbn; congruence.
Qed.

End DecoderLayer.

(** ** The statements on the small model *)

Section OnTheSmallModel.

#[local] Existing Instance Example.external.

Lemma succeeded_ok {A : Type} (r : result A) :
  succeeded r = true -> exists a, r = Ok a.
Proof. destruct r as [a|e]; [eauto|discriminate]. Qed.

Lemma bind_ok {T A B : Type} (m : M T A) (k : A -> M T B)
    (h h2 : heap T) (b : B) :
  bind m k h = Ok (b, h2) ->
  exists a h1, m h = Ok (a, h1) /\ k a h1 = Ok (b, h2).
Proof.
  unfold bind. destruct (m h) as [[a h1]|e]; [eauto|discriminate].
Qed.

(** C9 as stated fails. With [output_attentions] set, the layer of the
    small model returns the attention weights beside the hidden states. *)
Lemma decoder_layer_returns_attention_weights :
  exists hidden_states attn_weights cache,
    ModifiedLlamaDecoderLayer.forward Example.layer
      (full3 (1, 2, 1) 1%R) (full3 (1, 2, 1) 1%R) None None (Some true)
      (full3 (1, 2, 1) 1%R, full3 (1, 2, 1) 1%R)
    = Ok ((hidden_states, Some attn_weights), cache).
Proof.
  destruct (ModifiedLlamaDecoderLayer.forward _ _ _ _ _ _ _)
    as [[[hs [w|]] c]|e] eqn:E.
  - exists hs, w, c. reflexivity.
  - exfalso.
    assert (Hw : match ModifiedLlamaDecoderLayer.forward Example.layer
                         (full3 (1, 2, 1) 1%R) (full3 (1, 2, 1) 1%R) None None
                         (Some true) (full3 (1, 2, 1) 1%R, full3 (1, 2, 1) 1%R)
                 with
                 | Ok ((_, Some _), _) => true
                 | _ => false
                 end = true) by (lazy; reflexivity).
    rewrite E in Hw. discriminate.
  - exfalso.
    assert (Hw : succeeded
                   (ModifiedLlamaDecoderLayer.forward Example.layer
                      (full3 (1, 2, 1) 1%R) (full3 (1, 2, 1) 1%R) None None
                      (Some true) (full3 (1, 2, 1) 1%R, full3 (1, 2, 1) 1%R))
                 = true) by (lazy; reflexivity).
    rewrite E in Hw. discriminate.
Qed.

(** The builder on a causal mask [1, 1, 2, 2], blocks of size 2 and a cache
    of length 5: the diagonals of the two whole blocks are allowed, the
    remainder column 6 is blocked, the square part is the causal mask. *)
Example tree_mask_rows :
  match EagleModule._prepare_tree_attention_mask (Some 0) 2 5
          Example.one_mask_store with
  | Ok (Some ext, h') =>
      (shape4 (cell h' ext),
       map (get4 (cell h' ext) 0 0 0) (seq 0 7),
       map (get4 (cell h' ext) 0 0 1) (seq 0 7))
  | _ => ((0, 0, 0, 0), [], [])
  end
  = ((1, 1, 2, 7),
     [0%R; finfo_min; 0%R; finfo_min; 0%R; finfo_min; finfo_min],
     [0%R; 0%R; finfo_min; 0%R; finfo_min; 0%R; finfo_min]).
Proof. reflexivity. Qed.

(** Three shifts of the token ids [[1, 2]] leave the pad in both positions,
    one shift moves the second token to the front. *)
Example shifted_ids :
  match shifts2 0%Z 1 (Args.input_ids (Example.args None)),
        shifts2 0%Z 3 (Args.input_ids (Example.args None)) with
  | Ok t1, Ok t3 =>
      (shape2 t1, map (get2 t1 0) (seq 0 2), map (get2 t3 0) (seq 0 2))
  | _, _ => ((0, 0), [], [])
  end
  = ((1, 2), [2%Z; 0%Z], [0%Z; 0%Z]).
Proof. reflexivity. Qed.

(** The builder on a causal mask [1, 1, 2, 2] and a cache of two blocks. *)
Lemma tree_mask_extension_witness :
  exists ext h',
    EagleModule._prepare_tree_attention_mask (Some 0) 2 4 Example.one_mask_store
    = Ok (Some ext, h')
    /\ shape4 (cell h' ext) = (1, 1, 2, 6)
    /\ get4 (cell h' ext) 0 0 1 5 = 0%R
    /\ get4 (cell h' ext) 0 0 1 4 = finfo_min.
Proof.
  destruct (tree_mask_extension (T := R) Example.one_mask_store 0 2 4 1 1 2 2)
    as (ext & h' & Hrun & _ & _ & Hshape & _ & _ & _ & _ & Hzero & Hmin & _).
  - cbn. lia.
  - reflexivity.
  - lia.
  - lia.
  - exists ext, h'. split; [exact Hrun|]. split; [exact Hshape|]. split.
    + apply Hzero. cbn. auto 10.
    + apply Hmin; [lia|lia|]. cbn. intros Hin.
      repeat (destruct Hin as [Hin|Hin]; [discriminate Hin|]). exact Hin.
Defined.


(** The prelude and four steps run on the small model. *)
Lemma small_model_runs (loss_mask : option (tensor2 R)) :
  succeeded
    (bind (HFEagleModel.forward_prelude Example.model (Example.args loss_mask))
       (fun p => rollout_upto Example.model HFEagleModel._eagle_loss
                   (Example.args loss_mask) p 4)
       Example.empty_store) = true ->
  exists p h0 v h4,
    HFEagleModel.forward_prelude Example.model (Example.args loss_mask)
      Example.empty_store = Ok (p, h0)
    /\ rollout_upto Example.model HFEagleModel._eagle_loss
         (Example.args loss_mask) p 4 h0 = Ok (v, h4).
Proof.
  intros Hs. apply succeeded_ok in Hs. destruct Hs as [[v h4] Hrun].
  apply bind_ok in Hrun. destruct Hrun as (p & h0 & Hpre & Hrun).
  exists p, h0, v, h4. auto.
Qed.

(** Over the reals the decayed sum is the one of the formula. *)
Lemma py_sum_decayed_real (l0 l1 l2 l3 : R) :
  py_sum [mul (pow lit_0_8 0) l0; mul (pow lit_0_8 1) l1;
          mul (pow lit_0_8 2) l2; mul (pow lit_0_8 3) l3]
  = (l0 + 8 / 10 * l1 + (8 / 10) ^ 2 * l2 + (8 / 10) ^ 3 * l3)%R.
Proof. unfold py_sum. cbn. ring. Qed.

Lemma forward_loss_is_decayed_sum_witness :
  exists out h4 l0 l1 l2 l3,
    HFEagleModel.forward Example.model (Example.args (Some Example.ones))
      Example.empty_store = Ok (out, h4)
    /\ ModelOutput.loss out
       = (l0 + 8 / 10 * l1 + (8 / 10) ^ 2 * l2 + (8 / 10) ^ 3 * l3)%R.
Proof.
  destruct (small_model_runs (Some Example.ones)) as (p & h0 & v & h4 & Hpre & Hrun);
    [lazy; reflexivity|].
  destruct (forward_loss_is_decayed_sum Example.model
              (Example.args (Some Example.ones)) Example.empty_store h0 h4 p v
              Example.ones eq_refl Hpre Hrun)
    as (out & l0 & l1 & l2 & l3 & Hfwd & _ & _ & _ & _ & Hloss).
  exists out, h4, l0, l1, l2, l3. split; [exact Hfwd|].
  rewrite Hloss. apply py_sum_decayed_real.
Defined.

Lemma forward_fails_without_loss_mask_witness :
  HFEagleModel.forward Example.model (Example.args None) Example.empty_store
  = Err IndexError.
Proof.
  destruct (small_model_runs None) as (p & h0 & v & h4 & Hpre & Hrun);
    [lazy; reflexivity|].
  apply (forward_fails_without_loss_mask Example.model (Example.args None)
           Example.empty_store h0 h4 p v eq_refl Hpre Hrun).
Defined.

(** The first step of the rollout on the small model. *)
Lemma small_model_first_step :
  exists v' h',
    HFEagleModel.ttt_step Example.model HFEagleModel._eagle_loss
      (Example.args (Some Example.ones)) (full3 (1, 2, 1) 1%R) 2
      (arange_row 2) 0 0 Example.vars0 Example.one_mask_store = Ok (v', h').
Proof.
  destruct (succeeded_ok
              (HFEagleModel.ttt_step Example.model HFEagleModel._eagle_loss
                 (Example.args (Some Example.ones)) (full3 (1, 2, 1) 1%R) 2
                 (arange_row 2) 0 0 Example.vars0 Example.one_mask_store))
    as [[v' h'] Hstep]; [lazy; reflexivity|].
  exists v', h'. exact Hstep.
Qed.

Lemma classification_only_same :
  same_classification_loss HFEagleModel._eagle_loss Example.classification_only.
Proof.
  intros hs lg ehs elg lm. unfold Example.classification_only.
  destruct (HFEagleModel._eagle_loss hs lg ehs elg lm) as [[r c]|e]; reflexivity.
Qed.

Lemma classification_loss_only_is_recorded_witness :
  exists v' h' classification_loss,
    HFEagleModel.ttt_step Example.model Example.classification_only
      (Example.args (Some Example.ones)) (full3 (1, 2, 1) 1%R) 2
      (arange_row 2) 0 0 Example.vars0 Example.one_mask_store = Ok (v', h')
    /\ Vars.loss_list v' = [classification_loss].
Proof.
  destruct small_model_first_step as (v' & h' & Hstep).
  destruct (classification_loss_only_is_recorded Example.model
              (Example.args (Some Example.ones)) Example.classification_only
              (full3 (1, 2, 1) 1%R) 2 (arange_row 2) 0 0 Example.vars0 v'
              Example.one_mask_store h' Example.ones eq_refl Hstep
              classification_only_same)
    as ((reg & cls & elg & _ & _ & Hlist) & Hstep' & _).
  exists v', h', cls. split; [exact Hstep'|exact Hlist].
Defined.

Lemma rollout_shift_phase_witness :
  exists v' h',
    HFEagleModel.ttt_step Example.model HFEagleModel._eagle_loss
      (Example.args (Some Example.ones)) (full3 (1, 2, 1) 1%R) 2
      (arange_row 2) 0 0 Example.vars0 Example.one_mask_store = Ok (v', h')
    /\ shape3 (Vars.logits v') = (1, 2, 2)
    /\ get3 (Vars.logits v') 0 0 1 = get3 (Vars.logits Example.vars0) 0 1 1
    /\ get3 (Vars.logits v') 0 1 1 = 0%R.
Proof.
  destruct small_model_first_step as (v' & h' & Hstep).
  destruct (rollout_shift_phase Example.model (Example.args (Some Example.ones))
              HFEagleModel._eagle_loss (full3 (1, 2, 1) 1%R) 2 (arange_row 2)
              0 0 Example.vars0 v' Example.one_mask_store h' 1 2 2)
    as ((Hshape & Hget) & _); try reflexivity; try lia.
  - intros m [= <-]. reflexivity.
  - exact Hstep.
  - exists v', h'. split; [exact Hstep|]. split; [exact Hshape|].
    split; [apply (Hget 0 0 1); lia|apply (Hget 0 1 1); lia].
Defined.

Lemma running_mask_only_restricted_witness :
  exists p h0 v1 h1 v3 h3,
    HFEagleModel.forward_prelude Example.model (Example.args (Some Example.ones))
      Example.empty_store = Ok (p, h0)
    /\ rollout_upto Example.model HFEagleModel._eagle_loss
         (Example.args (Some Example.ones)) p 1 h0 = Ok (v1, h1)
    /\ rollout_upto Example.model HFEagleModel._eagle_loss
         (Example.args (Some Example.ones)) p 3 h0 = Ok (v3, h3)
    /\ forall b hd r c,
         get4 (cell h1 (HFEagleModel.running_mask p)) b hd r c = finfo_min ->
         get4 (cell h3 (HFEagleModel.running_mask p)) b hd r c = finfo_min.
Proof.
  destruct (small_model_runs (Some Example.ones)) as (p & h0 & v & h4 & Hpre & Hrun);
    [lazy; reflexivity|].
  destruct (rollout_upto_prefix Example.model (Example.args (Some Example.ones))
              HFEagleModel._eagle_loss p h0 4 3 v h4) as (v3 & h3 & Hrun3);
    [lia|exact Hrun|].
  destruct (rollout_upto_prefix Example.model (Example.args (Some Example.ones))
              HFEagleModel._eagle_loss p h0 4 1 v h4) as (v1 & h1 & Hrun1);
    [lia|exact Hrun|].
  destruct (running_mask_only_restricted Example.model
              (Example.args (Some Example.ones)) Example.empty_store h0 p
              1 3 v1 v3 h1 h3 Hpre) as (Hblocked & _); [lia|exact Hrun1|exact Hrun3|].
  exists p, h0, v1, h1, v3, h3. auto.
Defined.

Lemma forward_returns_shifted_logits_witness :
  exists out h',
    HFEagleModel.forward Example.model (Example.args (Some Example.ones))
      Example.empty_store = Ok (out, h')
    /\ shifts3 3 (CausalLMOutput.logits Example.base_output)
       = Ok (ModelOutput.logits out).
Proof.
  destruct (succeeded_ok
              (HFEagleModel.forward Example.model
                 (Example.args (Some Example.ones)) Example.empty_store))
    as [[out h'] Hfwd]; [lazy; reflexivity|].
  destruct (forward_returns_shifted_logits Example.model
              (Example.args (Some Example.ones)) Example.empty_store h' out Hfwd)
    as (Hshift & _).
  exists out, h'. split; [exact Hfwd|exact Hshift].
Defined.

End OnTheSmallModel.


(** ** The band that a step blocks in the running mask *)

Section MaskBand.

Context {T : Type} `{Scalar T} `{External T}.

Lemma firstn_seq (n a len : nat) : firstn n (seq a len) = seq a (Nat.min n len).
Proof.
  revert a len. induction n as [|n IH]; intros a [|len]; cbn; auto.
  now rewrite IH.
Qed.

(** The two index lists of a step [i < 3]: rows [i .. S-1] against columns
    [0 .. S-1-i]. *)
Lemma band_indices (S i : nat) :
  i < 3 ->
  slice_from i (range S) = seq i (S - i)
  /\ slice_to (Z.of_nat S - Z.of_nat i) (range S) = seq 0 (S - i).
Proof.
  intros Hi. unfold slice_from, slice_to, range. rewrite skipn_seq. split; [reflexivity|].
  destruct (Z.leb_spec 0 (Z.of_nat S - Z.of_nat i)) as [Hle|Hlt].
  - rewrite firstn_seq. f_equal. lia.
  - rewrite length_seq, firstn_seq. f_equal. lia.
Qed.

Lemma existsb_band (a b n r c : nat) :
  existsb (fun '(i, j) => (r =? i) && (c =? j)) (combine (seq a n) (seq b n))
  = (a <=? r) && (r <? a + n) && (c + a =? r + b).
Proof.
  revert a b. induction n as [|n IH]; intros a b.
  - cbn [seq combine existsb]. nat_cases.
  - cbn [seq combine existsb]. rewrite IH. nat_cases.
Qed.

(** A sequence of indexed writes: every entry listed holds the value, every
    other entry is as before. *)
Lemma setitem_pairs_written (v : T) (pairs : list (nat * nat)) :
  forall m m' : tensor4 T,
    foreach pairs (fun '(i, j) m' => setitem_rc m' i j v) m = Ok m' ->
    shape4 m' = shape4 m
    /\ forall b hd r c,
         get4 m' b hd r c =
         if existsb (fun '(i, j) => (r =? i) && (c =? j)) pairs then v
         else get4 m b hd r c.
Proof.
  induction pairs as [|[i j] pairs IH]; intros m m'.
  - intros [= <-]. auto.
  - cbn [foreach existsb]. unfold setitem_rc at 1.
    destruct (shape4 m) as [[[b0 h0] t0] s0] eqn:Es.
    destruct ((i <? t0) && (j <? s0)); cbn [rbind]; [|discriminate].
    intros Hrun. apply IH in Hrun. cbn [shape4 get4] in Hrun.
    destruct Hrun as [Hs Hg]. split; [congruence|].
    intros b hd r c. rewrite Hg.
    destruct (existsb _ pairs); [now rewrite orb_true_r|].
    now rewrite orb_false_r.
Qed.

(** The indexed assignment of a step [i < 3] writes the band of the entries
    [(r, r - i)], [i <= r < S], and no other entry. *)
Lemma index_put_band (S i : nat) (v : T) (m m' : tensor4 T) :
  i < 3 ->
  index_put_rc m (slice_from i (range S))
    (slice_to (Z.of_nat S - Z.of_nat i) (range S)) v = Ok m' ->
  shape4 m' = shape4 m
  /\ forall b hd r c,
       get4 m' b hd r c =
       if (i <=? r) && (r <? S) && (c + i =? r) then v else get4 m b hd r c.
Proof.
  intros Hi. destruct (band_indices S i Hi) as [-> ->].
  unfold index_put_rc. rewrite !length_seq, Nat.eqb_refl.
  intros Hrun. apply setitem_pairs_written in Hrun. destruct Hrun as [Hs Hg].
  split; [exact Hs|]. intros b hd r c. rewrite Hg, existsb_band. nat_cases.
Qed.

End MaskBand.

(** ** More on the rollout *)

Section RolloutMore.

Context {T : Type} `{Scalar T} `{External T}.

Variable self : HFEagleModel.t T.
Variable args : Args.t T.

(** The builder creates at most one object. *)
Lemma tree_mask_store_bound
    (attention_mask r : option loc) (seq_lens cache_len : nat) (h h1 : heap T) :
  EagleModule._prepare_tree_attention_mask attention_mask seq_lens cache_len h
  = Ok (r, h1) ->
  next h1 <= S (next h).
Proof.
  unfold EagleModule._prepare_tree_attention_mask, bind, load, ret, lift, alloc.
  destruct attention_mask as [am|]; [|intros [= <- <-]; auto].
  destruct (shape4 (cell h am)) as [[[bsz heads] tgt] src].
  destruct (cache_len =? 0); [intros [= <- <-]; auto|].
  destruct (floordiv cache_len seq_lens) as [nb|e]; [|discriminate].
  destruct (EagleModule.fill_diagonal_blocks _ _ _ _ _ _) as [m'|e]; [|discriminate].
  intros [= <- <-]. cbn. lia.
Qed.

Lemma draft_call_store_bound
    (pos : tensor2 Z) (am : loc) (v : Vars.t T) (h h1 : heap T)
    (r : tensor3 T * tensor3 T * tensor3 T * option Cache) :
  draft_call self args pos am v h = Ok (r, h1) -> next h1 <= S (next h).
Proof.
  unfold draft_call, EagleModule.forward, bind, lift, ret, load.
  destruct (Vars.eagle_cache v) as [cache|]; [|discriminate].
  destruct (EagleModule._prepare_tree_attention_mask _ _ _ h)
    as [[am' h']|e] eqn:Emask; [|discriminate].
  apply tree_mask_store_bound in Emask.
  destruct am' as [ext|];
    (destruct (foreach _ _ _) as [[hs pkv]|e]; [|discriminate]);
    intros [= <- <-]; exact Emask.
Qed.

(** What a step does to the store: the running mask gets the band of the
    step, at most one object is created, every other object is as before. *)
Lemma ttt_step_store
    (eagle_loss : HFEagleModel.eagle_loss_method T)
    (target : tensor3 T) (seq_length : nat) (pos : tensor2 Z) (am : loc)
    (i : nat) (v v' : Vars.t T) (h h' : heap T) :
  HFEagleModel.ttt_step self eagle_loss args target seq_length pos am i v h
  = Ok (v', h') ->
  am < next h ->
  next h <= next h' <= S (next h)
  /\ (forall l, l < next h -> l <> am -> cell h' l = cell h l)
  /\ shape4 (cell h' am) = shape4 (cell h am)
  /\ forall b hd r c,
       get4 (cell h' am) b hd r c =
       if (i <? 3) && (i <=? r) && (r <? seq_length) && (c + i =? r)
       then finfo_min else get4 (cell h am) b hd r c.
Proof.
  intros Hstep Hvalid. apply ttt_step_inv in Hstep.
  destruct Hstep as (proj & ehs & elg & cache & h1 & Hcall & _ & _ & _ & _ & Hshift).
  pose proof (draft_call_store_bound _ _ _ _ _ _ Hcall) as Hbound.
  apply draft_call_store in Hcall. destruct Hcall as [Hnext Hcell].
  destruct (Nat.ltb_spec i 3) as [Hi|Hi].
  - destruct Hshift as (_ & _ & _ & mask' & Hput & ->).
    apply index_put_band in Hput; [|exact Hi]. destruct Hput as [Hs Hg].
    cbn [next cell]. rewrite Nat.eqb_refl, <- (Hcell am Hvalid).
    split; [lia|]. split.
    + intros l Hl Hne. replace (l =? am) with false by (symmetry; apply Nat.eqb_neq; lia).
      now apply Hcell.
    + split; [exact Hs|]. intros b hd r c. rewrite Hg. reflexivity.
  - destruct Hshift as (_ & _ & _ & ->). rewrite (Hcell am Hvalid).
    split; [lia|]. split; [intros l Hl _; now apply Hcell|]. auto.
Qed.

(** X1. A step [i] of the rollout writes [finfo.min] into the entries
    [(r, r - i)] of the running mask, for the rows [i <= r < seq_length], in
    every batch and head, when [i < 3]; it writes nothing when [i >= 3]. No
    other entry of the running mask changes, and its shape is kept. *)
Theorem step_blocks_one_band
    (eagle_loss : HFEagleModel.eagle_loss_method T)
    (target : tensor3 T) (seq_length : nat) (pos : tensor2 Z) (am : loc)
    (i : nat) (v v' : Vars.t T) (h h' : heap T) :
  am < next h ->
  HFEagleModel.ttt_step self eagle_loss args target seq_length pos am i v h
  = Ok (v', h') ->
  shape4 (cell h' am) = shape4 (cell h am)
  /\ (i < 3 ->
      forall b hd r c,
        (i <= r < seq_length -> get4 (cell h' am) b hd r (r - i) = finfo_min)
        /\ (~ (i <= r < seq_length /\ c = r - i) ->
            get4 (cell h' am) b hd r c = get4 (cell h am) b hd r c))
  /\ (3 <= i ->
      forall b hd r c, get4 (cell h' am) b hd r c = get4 (cell h am) b hd r c).
Proof.
  intros Hvalid Hstep.
  destruct (ttt_step_store _ _ _ _ _ _ _ _ _ _ Hstep Hvalid) as (_ & _ & Hs & Hg).
  split; [exact Hs|]. split.
  - intros Hi b hd r c. split.
    + intros Hr. rewrite Hg. nat_cases.
    + intros Hn. rewrite Hg. nat_cases.
  - intros Hi b hd r c. rewrite Hg. nat_cases.
Qed.

(** The store over the first [k] steps. *)
Lemma rollout_store
    (eagle_loss : HFEagleModel.eagle_loss_method T) (p : HFEagleModel.prelude)
    (h0 : heap T) (k : nat) :
  HFEagleModel.running_mask p < next h0 ->
  forall v hk,
    rollout_upto self eagle_loss args p k h0 = Ok (v, hk) ->
    next h0 <= next hk <= next h0 + k
    /\ (forall l, l < next h0 -> l <> HFEagleModel.running_mask p ->
          cell hk l = cell h0 l)
    /\ shape4 (cell hk (HFEagleModel.running_mask p))
       = shape4 (cell h0 (HFEagleModel.running_mask p))
    /\ forall b hd r c,
         get4 (cell hk (HFEagleModel.running_mask p)) b hd r c =
         if (c <=? r) && (r <? HFEagleModel.seq_length p)
            && (r - c <? Nat.min k 3)
         then finfo_min
         else get4 (cell h0 (HFEagleModel.running_mask p)) b hd r c.
Proof.
  intros Hvalid. induction k as [|k IH]; intros v hk Hrun.
  - rewrite rollout_upto_0 in Hrun. injection Hrun as <- <-.
    split; [lia|]. split; [auto|]. split; [reflexivity|].
    intros b hd r c. cbn [Nat.min]. nat_cases.
  - rewrite rollout_upto_S in Hrun.
    destruct (rollout_upto self eagle_loss args p k h0) as [[vk hk']|e] eqn:E;
      [|discriminate].
    destruct (IH vk hk' eq_refl) as (Hn & Hother & Hs & Hg).
    apply ttt_step_store in Hrun; [|lia].
    destruct Hrun as (Hn' & Hother' & Hs' & Hg').
    split; [lia|]. split.
    + intros l Hl Hne. rewrite Hother' by (auto; lia). now apply Hother.
    + split; [congruence|]. intros b hd r c. rewrite Hg', Hg.
      destruct (Nat.ltb_spec k 3); nat_cases.
Qed.

(** X2. After [k] steps of the rollout, the running mask is the mask built
    before the loop with the entries [(r, c)], [c <= r < seq_length] and
    [r - c < min k 3], set to [finfo.min]: the diagonal after the first step,
    the first sub-diagonal after the second, the second sub-diagonal after the
    third, and nothing more after the fourth. *)
Theorem rollout_blocks_lower_bands
    (h h0 hk : heap T) (p : HFEagleModel.prelude) (k : nat) (v : Vars.t T) :
  HFEagleModel.forward_prelude self args h = Ok (p, h0) ->
  rollout_upto self HFEagleModel._eagle_loss args p k h0 = Ok (v, hk) ->
  shape4 (cell hk (HFEagleModel.running_mask p))
  = shape4 (cell h0 (HFEagleModel.running_mask p))
  /\ forall b hd r c,
       (c <= r < HFEagleModel.seq_length p -> r - c < Nat.min k 3 ->
        get4 (cell hk (HFEagleModel.running_mask p)) b hd r c = finfo_min)
       /\ (~ (c <= r < HFEagleModel.seq_length p /\ r - c < Nat.min k 3) ->
           get4 (cell hk (HFEagleModel.running_mask p)) b hd r c
           = get4 (cell h0 (HFEagleModel.running_mask p)) b hd r c).
Proof.
  intros Hpre Hrun.
  destruct (forward_prelude_inv _ _ _ _ _ Hpre)
    as (_ & _ & _ & _ & _ & _ & _ & Ham & Hnext & _).
  destruct (rollout_store _ p h0 k ltac:(lia) v hk Hrun) as (_ & _ & Hs & Hg).
  split; [exact Hs|]. intros b hd r c. split.
  - intros Hr Hk. rewrite Hg. nat_cases.
  - intros Hn. rewrite Hg. nat_cases.
Qed.

Lemma shifts3_snoc (k : nat) :
  forall t : tensor3 T,
    shifts3 (S k) t = let* t' := shifts3 k t in HFEagleModel.shift_left3 t'.
Proof.
  induction k as [|k IH]; intros t.
  - cbn [shifts3 rbind]. now destruct (HFEagleModel.shift_left3 t).
  - change (shifts3 (S (S k)) t)
      with (let* t' := HFEagleModel.shift_left3 t in shifts3 (S k) t').
    destruct (HFEagleModel.shift_left3 t) as [t1|e] eqn:E1; cbn [rbind].
    + rewrite IH. cbn [shifts3]. rewrite E1. reflexivity.
    + cbn [shifts3]. rewrite E1. reflexivity.
Qed.

Lemma shifts2_snoc {X : Type} (pad : X) (k : nat) :
  forall t : tensor2 X,
    shifts2 pad (S k) t = let* t' := shifts2 pad k t in HFEagleModel.shift_left2 pad t'.
Proof.
  induction k as [|k IH]; intros t.
  - cbn [shifts2 rbind]. now destruct (HFEagleModel.shift_left2 pad t).
  - change (shifts2 pad (S (S k)) t)
      with (let* t' := HFEagleModel.shift_left2 pad t in shifts2 pad (S k) t').
    destruct (HFEagleModel.shift_left2 pad t) as [t1|e] eqn:E1; cbn [rbind].
    + rewrite IH. cbn [shifts2]. rewrite E1. reflexivity.
    + cbn [shifts2]. rewrite E1. reflexivity.
Qed.

(** X3. After [k] steps of the rollout, the logits, the input ids and the
    loss mask are those before the loop shifted to the left [min k 3] times,
    a zero appended each time: the last step shifts nothing, and a loss mask
    that is absent stays absent. *)
Theorem rollout_targets_are_shifted
    (eagle_loss : HFEagleModel.eagle_loss_method T) (p : HFEagleModel.prelude)
    (h0 hk : heap T) (k : nat) (v : Vars.t T) :
  rollout_upto self eagle_loss args p k h0 = Ok (v, hk) ->
  shifts3 (Nat.min k 3) (Vars.logits (HFEagleModel.initial p)) = Ok (Vars.logits v)
  /\ shifts2 0%Z (Nat.min k 3) (Vars.input_ids (HFEagleModel.initial p))
     = Ok (Vars.input_ids v)
  /\ match Vars.loss_mask (HFEagleModel.initial p) with
     | Some m =>
         exists m', shifts2 zero (Nat.min k 3) m = Ok m'
                    /\ Vars.loss_mask v = Some m'
     | None => Vars.loss_mask v = None
     end.
Proof.
  revert v hk. induction k as [|k IH]; intros v hk Hrun.
  - rewrite rollout_upto_0 in Hrun. injection Hrun as <- <-. cbn.
    destruct (Vars.loss_mask _); eauto.
  - rewrite rollout_upto_S in Hrun.
    destruct (rollout_upto self eagle_loss args p k h0) as [[vk hk']|e] eqn:E;
      [|discriminate].
    destruct (IH vk hk' eq_refl) as (Hl & Hi & Hm).
    apply ttt_step_inv in Hrun.
    destruct Hrun as (proj & ehs & elg & cache & h1 & _ & _ & _ & _ & _ & Hshift).
    destruct (Nat.ltb_spec k 3) as [Hk|Hk].
    + replace (Nat.min (S k) 3) with (S (Nat.min k 3)) by lia.
      destruct Hshift as (Hl' & Hi' & Hm' & _).
      rewrite shifts3_snoc, shifts2_snoc, Hl, Hi. cbn [rbind].
      split; [exact Hl'|]. split; [exact Hi'|].
      destruct (Vars.loss_mask (HFEagleModel.initial p)) as [m|].
      * destruct Hm as (mk & Hmk & Hvk). rewrite Hvk in Hm'.
        destruct Hm' as (m' & Hm' & Hv'). exists m'.
        rewrite shifts2_snoc, Hmk. cbn [rbind]. auto.
      * rewrite Hm in Hm'. exact Hm'.
    + replace (Nat.min (S k) 3) with (Nat.min k 3) by lia.
      destruct Hshift as (-> & -> & -> & _). auto.
Qed.

(** X4. The number of losses recorded is the number of steps run when the
    loss mask is given, and 0 when it is absent; the loss mask is present
    after every step in the first case and absent in the second. *)
Theorem rollout_records_one_loss_per_step
    (h h0 hk : heap T) (p : HFEagleModel.prelude) (k : nat) (v : Vars.t T) :
  HFEagleModel.forward_prelude self args h = Ok (p, h0) ->
  rollout_upto self HFEagleModel._eagle_loss args p k h0 = Ok (v, hk) ->
  match Args.loss_mask args with
  | Some _ => Vars.loss_mask v <> None /\ length (Vars.loss_list v) = k
  | None => Vars.loss_mask v = None /\ Vars.loss_list v = []
  end.
Proof.
  intros Hpre Hrun.
  destruct (forward_prelude_inv _ _ _ _ _ Hpre) as (_ & _ & _ & Hm0 & Hnil & _).
  rewrite <- Hm0. exact (rollout_loss_list _ _ _ _ _ k Hnil v hk Hrun).
Qed.

(** X5. A call of [forward] that returns has created its running mask and
    at most one extended mask per step, and has left every mask object that
    existed before the call as it was. *)
Theorem forward_leaves_the_store
    (eagle_loss : HFEagleModel.eagle_loss_method T)
    (h h' : heap T) (out : ModelOutput.t T) :
  HFEagleModel.forward_with self eagle_loss args h = Ok (out, h') ->
  next h + 1 <= next h' <= next h + 5
  /\ forall l, l < next h -> cell h' l = cell h l.
Proof.
  rewrite forward_with_unfold.
  destruct (HFEagleModel.forward_prelude self args h) as [[p h0]|e] eqn:Hpre;
    [|discriminate].
  destruct (rollout_upto self eagle_loss args p 4 h0) as [[v h4]|e] eqn:Hrun;
    [|discriminate].
  destruct (HFEagleModel.decayed_loss _ _) as [loss|e]; [|discriminate].
  destruct (Vars.eagle_logits v) as [elg|]; [|discriminate].
  intros [= <- <-].
  destruct (forward_prelude_inv _ _ _ _ _ Hpre)
    as (_ & _ & _ & _ & _ & _ & _ & Ham & Hnext & Hcell).
  destruct (rollout_store _ p h0 4 ltac:(lia) v h4 Hrun) as (Hn & Hother & _).
  split; [lia|]. intros l Hl. rewrite Hother by lia. now apply Hcell.
Qed.

Lemma getitem_z_last {A : Type} (l : list A) (x : A) :
  getitem_z (l ++ [x]) (-1) = Ok x.
Proof.
  unfold getitem_z, getitem. rewrite length_app. cbn [length].
  replace (0 <=? -1)%Z with false by reflexivity.
  replace (0 <=? Z.of_nat (length l + 1) + -1)%Z with true
    by (symmetry; apply Z.leb_le; lia).
  replace (Z.to_nat (Z.of_nat (length l + 1) + -1)) with (length l) by lia.
  now rewrite nth_error_app2, Nat.sub_diag by lia.
Qed.

Lemma getitem_z_nil {A : Type} (i : Z) : getitem_z (@nil A) i = Err IndexError.
Proof.
  unfold getitem_z, getitem. cbn [length].
  destruct (Z.leb_spec 0 i); [now destruct (Z.to_nat i)|].
  destruct (Z.leb_spec 0 (Z.of_nat 0 + i)); [lia|reflexivity].
Qed.

(** X6. On an empty sequence [forward] raises [RuntimeError] before the
    first step: [fc] rejects the hidden states when they are not
    [3 * hidden_size] wide, and otherwise the position ids cannot be viewed
    as rows of length 0. It also raises, with [IndexError], when the base
    model returns no hidden state. (Both for a model that does not use the
    auxiliary hidden states.) *)
Theorem forward_raises_on_empty_input
    (eagle_loss : HFEagleModel.eagle_loss_method T) (h : heap T) :
  HFEagleModel.use_aux_hidden_state self = false ->
  (forall hs x B F,
      CausalLMOutput.hidden_states
        (HFEagleModel.base_forward self (HFEagleModel.base_args args)) = hs ++ [x] ->
      shape3 (EagleModule.fc (HFEagleModel.eagle_module self) x) = (B, 0, F) ->
      HFEagleModel.forward_with self eagle_loss args h = Err RuntimeError)
  /\ (CausalLMOutput.hidden_states
        (HFEagleModel.base_forward self (HFEagleModel.base_args args)) = [] ->
      HFEagleModel.forward_with self eagle_loss args h = Err IndexError).
Proof.
  intros Haux. split.
  - intros hs x B F Hhs Hshape. rewrite forward_with_unfold.
    unfold HFEagleModel.forward_prelude, bind, lift.
    rewrite Haux, Hhs, getitem_z_last. unfold Linear.
    destruct (shape3 x) as [[b0 s0] d].
    destruct (d =? 3 * EagleModule.hidden_size (HFEagleModel.eagle_module self));
      [|reflexivity].
    rewrite Hshape.
    destruct (Args.position_ids args) as [pids|]; unfold view_rows.
    + destruct (shape2 pids). reflexivity.
    + reflexivity.
  - intros Hhs. rewrite forward_with_unfold.
    unfold HFEagleModel.forward_prelude, bind, lift.
    now rewrite Haux, Hhs, getitem_z_nil.
Qed.

(** X7. The position ids that the rollout starts from: [[0, 1, ..., S-1]],
    one row, when none are given, and the ids given, unchanged, when they
    have rows of the sequence length [S]. *)
Theorem prelude_position_ids
    (h h0 : heap T) (p : HFEagleModel.prelude) :
  HFEagleModel.forward_prelude self args h = Ok (p, h0) ->
  match Args.position_ids args with
  | None =>
      shape2 (HFEagleModel.original_position_ids p) = (1, HFEagleModel.seq_length p)
      /\ forall s, s < HFEagleModel.seq_length p ->
           get2 (HFEagleModel.original_position_ids p) 0 s = Z.of_nat s
  | Some position_ids =>
      forall rows,
        shape2 position_ids = (rows, HFEagleModel.seq_length p) ->
        shape2 (HFEagleModel.original_position_ids p)
        = (rows, HFEagleModel.seq_length p)
        /\ forall r c, c < HFEagleModel.seq_length p ->
             get2 (HFEagleModel.original_position_ids p) r c
             = get2 position_ids r c
  end.
Proof.
  unfold HFEagleModel.forward_prelude, bind, lift, ret, alloc.
  destruct (if HFEagleModel.use_aux_hidden_state self then _ else _)
    as [hs|e]; [|discriminate].
  destruct (getitem_z _ (-1)) as [target|e]; [|discriminate].
  destruct (Linear _ _ hs) as [projected|e]; [|discriminate].
  destruct (shape3 projected) as [[batch_size seq_length] d] eqn:Eshape.
  destruct (match Args.position_ids args with Some _ => _ | None => _ end)
    as [pos|e] eqn:Epos; [|discriminate].
  destruct (HFEagleModel._prepare_decoder_attention_mask _ _ _)
    as [[m|]|e]; [|discriminate|discriminate].
  intros [= <- <-]. cbn [HFEagleModel.original_position_ids HFEagleModel.seq_length].
  destruct (Args.position_ids args) as [pids|]; unfold view_rows in Epos.
  - intros rows Hrows. rewrite Hrows in Epos.
    destruct (Nat.eqb_spec seq_length 0) as [|Hnz]; [discriminate|].
    rewrite Nat.Div0.mod_mul in Epos. cbn [Nat.eqb] in Epos.
    injection Epos as <-. cbn [shape2 get2].
    rewrite Nat.div_mul by exact Hnz. split; [reflexivity|].
    intros r c Hc. f_equal.
    + rewrite Nat.div_add_l by exact Hnz. rewrite Nat.div_small by exact Hc. lia.
    + rewrite Nat.add_comm, Nat.Div0.mod_add. now apply Nat.mod_small.
  - unfold arange_row in Epos. cbn [shape2 get2] in Epos.
    destruct (Nat.eqb_spec seq_length 0) as [|Hnz]; [discriminate|].
    rewrite Nat.mul_1_l, Nat.Div0.mod_same in Epos. cbn [Nat.eqb] in Epos.
    injection Epos as <-. cbn [shape2 get2].
    rewrite Nat.div_same by exact Hnz. split; [reflexivity|].
    intros s Hs. cbn [Nat.mul Nat.add]. f_equal. now apply Nat.mod_small.
Qed.

End RolloutMore.

(** ** The auxiliary loss as a masked mean *)

Section MaskedLoss.

Open Scope R_scope.

Ltac rsimpl' :=
  cbn [add sub mul div neg abs zero one exp log of_nat lit_1e_5 lit_0_5
       lit_0_8 ltb R_scalar] in *.

Lemma sum_range_scal (n : nat) (c : R) (f : nat -> R) :
  sum_range n (fun i => c * f i) = c * sum_range n f.
Proof.
  induction n as [|n IH]; [cbn; rsimpl'; lra|].
  rewrite !sum_range_S, IH. rsimpl'. lra.
Qed.

Lemma sum_range_one (f : nat -> R) : sum_range 1 f = f 0%nat.
Proof. unfold sum_range. cbn. rsimpl'. lra. Qed.

(** The value of [_eagle_loss] on tensors of agreeing shapes. *)
Lemma eagle_loss_masked_mean
    (hidden_states logits eagle_hidden_states eagle_logits : tensor3 R)
    (loss_mask : tensor2 R) (B S V Hd : nat) :
  shape3 logits = (B, S, V) ->
  shape3 eagle_logits = (B, S, V) ->
  shape3 hidden_states = (B, S, Hd) ->
  shape3 eagle_hidden_states = (B, S, Hd) ->
  shape2 loss_mask = (B, S) ->
  HFEagleModel._eagle_loss hidden_states logits eagle_hidden_states eagle_logits
    loss_mask
  = Ok (masked_mean B S loss_mask (fun b s =>
          position_smooth_l1 Hd (get3 eagle_hidden_states b s)
            (get3 hidden_states b s)),
        masked_mean B S loss_mask (fun b s =>
          position_cross_entropy V (get3 logits b s) (get3 eagle_logits b s))).
Proof.
  intros Hlog Helog Hhid Hehid Hmask.
  unfold HFEagleModel._eagle_loss, SmoothL1Loss, binop3, unsqueeze_last,
    Softmax_dim2, LogSoftmax_dim2.
  rewrite Hlog, Helog, Hhid, Hehid, Hmask. cbn [shape3 get3].
  repeat (rewrite ?broadcast_dim_same, ?broadcast_dim_one;
          progress cbn [rbind shape3 get3]).
  unfold sum2, sum_dim2, mean_dim2, sum3, masked_mean, mask_total.
  cbn [shape3 get3 shape2 get2].
  assert (Hden : sum_range B (fun b =>
                   sum_range S (fun s => sum_range 1 (fun _ => get2 loss_mask b s)))
                 = sum_range B (fun b => sum_range S (fun s => get2 loss_mask b s))).
  { apply sum_range_ext. intros b _. apply sum_range_ext. intros s _.
    apply sum_range_one. }
  rewrite Hden. rsimpl'. f_equal. f_equal.
  - f_equal. apply sum_range_ext. intros b Hb. apply sum_range_ext. intros s Hs.
    unfold position_smooth_l1.
    rewrite !(broadcast_index_lt B b), !(broadcast_index_lt S s) by assumption.
    rewrite (sum_range_ext Hd _
               (fun k => get2 loss_mask b s
                         * smooth_l1 (get3 eagle_hidden_states b s k)
                             (get3 hidden_states b s k))).
    + rewrite sum_range_scal. unfold Rdiv. ring.
    + intros k Hk. now rewrite !(broadcast_index_lt Hd k) by assumption.
  - f_equal. rewrite sum_range_opp.
    apply sum_range_ext. intros b Hb. rewrite sum_range_opp.
    apply sum_range_ext. intros s Hs.
    unfold position_cross_entropy.
    rewrite !(broadcast_index_lt B b), !(broadcast_index_lt S s) by assumption.
    rewrite (sum_range_ext V _
               (fun k => get2 loss_mask b s
                         * (Rtrigo_def.exp (get3 logits b s k)
                            / sum_range V (fun j => Rtrigo_def.exp (get3 logits b s j))
                            * (get3 eagle_logits b s k
                               - ln (sum_range V (fun j =>
                                       Rtrigo_def.exp (get3 eagle_logits b s j))))))).
    + rewrite sum_range_scal. ring.
    + intros k Hk. now rewrite !(broadcast_index_lt V k) by assumption.
Qed.

Lemma sum_range_le (n : nat) (f g : nat -> R) :
  (forall i, (i < n)%nat -> f i <= g i) -> sum_range n f <= sum_range n g.
Proof.
  induction n as [|n IH]; intros Hle; [cbn; rsimpl'; lra|].
  rewrite !sum_range_S. rsimpl'.
  specialize (IH (fun i Hi => Hle i (Nat.lt_lt_succ_r _ _ Hi))).
  specialize (Hle n (Nat.lt_succ_diag_r n)). lra.
Qed.

Lemma sum_range_minus (n : nat) (f g : nat -> R) :
  sum_range n (fun i => f i - g i) = sum_range n f - sum_range n g.
Proof.
  induction n as [|n IH]; [cbn; rsimpl'; lra|].
  rewrite !sum_range_S, IH. rsimpl'. lra.
Qed.

Lemma exp_sum_pos (V : nat) (x : nat -> R) :
  (0 < V)%nat -> 0 < sum_range V (fun j => Rtrigo_def.exp (x j)).
Proof. intros HV. apply sum_range_pos; [exact HV|]. intros i _. apply exp_pos. Qed.

(** The softmax of a position sums to 1. *)
Lemma softmax_sums_to_one (V : nat) (x : nat -> R) :
  (0 < V)%nat ->
  sum_range V (fun v =>
    Rtrigo_def.exp (x v) / sum_range V (fun j => Rtrigo_def.exp (x j))) = 1.
Proof.
  intros HV. pose proof (exp_sum_pos V x HV) as HZ.
  rewrite (sum_range_ext V _
             (fun v => / sum_range V (fun j => Rtrigo_def.exp (x j))
                       * Rtrigo_def.exp (x v)))
    by (intros; unfold Rdiv; ring).
  rewrite sum_range_scal. field. lra.
Qed.

(** The softmax is the exponential of the log-softmax. *)
Lemma exp_log_softmax (V : nat) (x : nat -> R) (v : nat) :
  (0 < V)%nat ->
  Rtrigo_def.exp (x v - ln (sum_range V (fun j => Rtrigo_def.exp (x j))))
  = Rtrigo_def.exp (x v) / sum_range V (fun j => Rtrigo_def.exp (x j)).
Proof.
  intros HV. pose proof (exp_sum_pos V x HV) as HZ.
  unfold Rminus. rewrite exp_plus, exp_Ropp, exp_ln by exact HZ. reflexivity.
Qed.





Lemma mask_total_nonneg (B S : nat) (m : tensor2 R) :
  (forall b s, (b < B)%nat -> (s < S)%nat -> 0 <= get2 m b s) ->
  0 <= mask_total B S m.
Proof.
  intros Hm. unfold mask_total. apply sum_range_nonneg. intros b Hb.
  apply sum_range_nonneg. intros s Hs. now apply Hm.
Qed.


(** The soft cross-entropy of a position is least when the draft logits are
    the backbone logits (Gibbs' inequality). *)
Lemma position_cross_entropy_least (V : nat) (x y : nat -> R) :
  position_cross_entropy V x x <= position_cross_entropy V x y.
Proof.
  destruct V as [|V']; [unfold position_cross_entropy; cbn; rsimpl'; lra|].
  set (V := S V'). assert (HV : (0 < V)%nat) by (unfold V; lia).
  unfold position_cross_entropy.
  set (Zx := sum_range V (fun j => Rtrigo_def.exp (x j))).
  set (Zy := sum_range V (fun j => Rtrigo_def.exp (y j))).
  assert (Hdiff :
    sum_range V (fun v => Rtrigo_def.exp (x v) / Zx * (y v - ln Zy))
    - sum_range V (fun v => Rtrigo_def.exp (x v) / Zx * (x v - ln Zx)) <= 0).
  { rewrite <- sum_range_minus.
    apply Rle_trans with
      (sum_range V (fun v => Rtrigo_def.exp (y v) / Zy - Rtrigo_def.exp (x v) / Zx)).
    - apply sum_range_le. intros v Hv.
      pose proof (exp_ineq1_le ((y v - ln Zy) - (x v - ln Zx))) as Hexp.
      assert (Hquot : Rtrigo_def.exp ((y v - ln Zy) - (x v - ln Zx))
                      = Rtrigo_def.exp (y v - ln Zy) * / Rtrigo_def.exp (x v - ln Zx)).
      { unfold Rminus at 1. now rewrite exp_plus, exp_Ropp. }
      rewrite Hquot in Hexp. unfold Zx, Zy in Hexp.
      rewrite !exp_log_softmax in Hexp by exact HV. fold Zx Zy in Hexp.
      assert (Hp : 0 < Rtrigo_def.exp (x v) / Zx).
      { apply Rdiv_lt_0_compat; [apply exp_pos|apply exp_sum_pos; exact HV]. }
      set (p := Rtrigo_def.exp (x v) / Zx) in *.
      set (q := Rtrigo_def.exp (y v) / Zy) in *.
      assert (Hq : p * (q * / p) = q) by (field; lra).
      assert (p * (1 + (y v - ln Zy - (x v - ln Zx))) <= p * (q * / p))
        by (apply Rmult_le_compat_l; lra).
      lra.
    - rewrite sum_range_minus. unfold Zx, Zy.
      rewrite !softmax_sums_to_one by exact HV. lra. }
  lra.
Qed.

Lemma masked_mean_le (B S : nat) (m : tensor2 R) (q q' : nat -> nat -> R) :
  (forall b s, (b < B)%nat -> (s < S)%nat -> 0 <= get2 m b s) ->
  (forall b s, q b s <= q' b s) ->
  masked_mean B S m q <= masked_mean B S m q'.
Proof.
  intros Hm Hq. unfold masked_mean.
  pose proof (mask_total_nonneg B S m Hm).
  apply Rmult_le_compat_r; [apply Rlt_le, Rinv_0_lt_compat; lra|].
  apply sum_range_le. intros b Hb. apply sum_range_le. intros s Hs.
  apply Rmult_le_compat_l; auto.
Qed.

Lemma masked_mean_ext (B S : nat) (m : tensor2 R) (q q' : nat -> nat -> R) :
  (forall b s, (b < B)%nat -> (s < S)%nat -> get2 m b s <> 0 -> q b s = q' b s) ->
  masked_mean B S m q = masked_mean B S m q'.
Proof.
  intros Hq. unfold masked_mean. f_equal.
  apply sum_range_ext. intros b Hb. apply sum_range_ext. intros s Hs.
  destruct (Req_dec (get2 m b s) 0) as [->|Hnz]; [ring|].
  now rewrite (Hq b s Hb Hs Hnz).
Qed.

Lemma position_cross_entropy_shift (V : nat) (x y : nat -> R) (c d : R) :
  position_cross_entropy V (fun v => x v + c) (fun v => y v + d)
  = position_cross_entropy V x y.
Proof.
  destruct V as [|V']; [reflexivity|].
  set (V := S V'). assert (HV : (0 < V)%nat) by (unfold V; lia).
  unfold position_cross_entropy. f_equal.
  assert (Hsum : forall (z : nat -> R) (e : R),
             sum_range V (fun j => Rtrigo_def.exp (z j + e))
             = Rtrigo_def.exp e * sum_range V (fun j => Rtrigo_def.exp (z j))).
  { intros z e. rewrite <- sum_range_scal. apply sum_range_ext.
    intros j _. rewrite exp_plus. ring. }
  rewrite !Hsum.
  pose proof (exp_sum_pos V x HV) as HZx. pose proof (exp_sum_pos V y HV) as HZy.
  pose proof (exp_pos c) as Hc. pose proof (exp_pos d) as Hd.
  apply sum_range_ext. intros v _.
  rewrite ln_mult, ln_exp, exp_plus by assumption.
  field. split; lra.
Qed.




(** X11. The losses do not change when a constant is added to all the
    backbone logits of a position, or to all the draft logits of a
    position: they depend on the logits through the softmax only. *)
Theorem eagle_loss_is_shift_invariant
    (hidden_states logits eagle_hidden_states eagle_logits : tensor3 R)
    (logits' eagle_logits' : tensor3 R)
    (loss_mask : tensor2 R) (c d : nat -> nat -> R) (B S V Hd : nat) :
  shape3 logits = (B, S, V) -> shape3 logits' = (B, S, V) ->
  shape3 eagle_logits = (B, S, V) -> shape3 eagle_logits' = (B, S, V) ->
  shape3 hidden_states = (B, S, Hd) ->
  shape3 eagle_hidden_states = (B, S, Hd) ->
  shape2 loss_mask = (B, S) ->
  (forall b s v, get3 logits' b s v = get3 logits b s v + c b s) ->
  (forall b s v, get3 eagle_logits' b s v = get3 eagle_logits b s v + d b s) ->
  HFEagleModel._eagle_loss hidden_states logits' eagle_hidden_states
    eagle_logits' loss_mask
  = HFEagleModel._eagle_loss hidden_states logits eagle_hidden_states
      eagle_logits loss_mask.
Proof.
  intros Hl Hl' Hel Hel' Hh Heh Hm Hc Hd'.
  rewrite !(eagle_loss_masked_mean _ _ _ _ _ B S V Hd) by assumption.
  f_equal. f_equal.
  apply masked_mean_ext. intros b s _ _ _.
  rewrite <- (position_cross_entropy_shift V (get3 logits b s)
                (get3 eagle_logits b s) (c b s) (d b s)).
  unfold position_cross_entropy. f_equal.
  assert (Hx : sum_range V (fun j => Rtrigo_def.exp (get3 logits' b s j))
               = sum_range V (fun j => Rtrigo_def.exp (get3 logits b s j + c b s)))
    by (apply sum_range_ext; intros j _; now rewrite Hc).
  assert (Hy : sum_range V (fun j => Rtrigo_def.exp (get3 eagle_logits' b s j))
               = sum_range V (fun j => Rtrigo_def.exp (get3 eagle_logits b s j + d b s)))
    by (apply sum_range_ext; intros j _; now rewrite Hd').
  rewrite Hx, Hy. apply sum_range_ext. intros k _. now rewrite Hc, Hd'.
Qed.

(** X12. For a loss mask that is nowhere negative, the classification loss
    is least when the draft logits are the backbone logits: no draft logits
    give a smaller loss than the backbone logits themselves, whose loss is
    the entropy of the backbone distribution. *)
Theorem classification_loss_is_least_at_the_backbone
    (hidden_states logits eagle_hidden_states eagle_logits : tensor3 R)
    (loss_mask : tensor2 R) (B S V Hd : nat) :
  shape3 logits = (B, S, V) ->
  shape3 eagle_logits = (B, S, V) ->
  shape3 hidden_states = (B, S, Hd) ->
  shape3 eagle_hidden_states = (B, S, Hd) ->
  shape2 loss_mask = (B, S) ->
  (forall b s, (b < B)%nat -> (s < S)%nat -> 0 <= get2 loss_mask b s) ->
  exists r0 c0 r1 c1,
    HFEagleModel._eagle_loss hidden_states logits eagle_hidden_states logits
      loss_mask = Ok (r0, c0)
    /\ HFEagleModel._eagle_loss hidden_states logits eagle_hidden_states
         eagle_logits loss_mask = Ok (r1, c1)
    /\ c0 <= c1.
Proof.
  intros Hl Hel Hh Heh Hm Hpos.
  rewrite !(eagle_loss_masked_mean _ _ _ _ _ B S V Hd) by assumption.
  eexists _, _, _, _. split; [reflexivity|]. split; [reflexivity|].
  apply masked_mean_le; [exact Hpos|]. intros b s.
  apply position_cross_entropy_least.
Qed.

End MaskedLoss.

Section LossShapes.

Context {T : Type} `{Scalar T}.

(** X13. [_eagle_loss] raises when the draft and the backbone logits have
    vocabularies of different sizes, neither of size 1, and when the loss
    mask and the logits have sequences of different lengths, neither of
    length 1: no broadcasting applies. *)
Theorem eagle_loss_rejects_mismatched_shapes
    (hidden_states logits eagle_hidden_states eagle_logits : tensor3 T)
    (loss_mask : tensor2 T) (B S S' V V' : nat) :
  shape3 logits = (B, S, V) ->
  (shape3 eagle_logits = (B, S, V') -> V <> V' -> V <> 1 -> V' <> 1 ->
   HFEagleModel._eagle_loss hidden_states logits eagle_hidden_states
     eagle_logits loss_mask = Err RuntimeError)
  /\ (shape3 eagle_logits = (B, S, V) -> shape2 loss_mask = (B, S') ->
      S <> S' -> S <> 1 -> S' <> 1 ->
      HFEagleModel._eagle_loss hidden_states logits eagle_hidden_states
        eagle_logits loss_mask = Err RuntimeError).
Proof.
  intros Hl. split.
  - intros Hel HV HV1 HV1'.
    unfold HFEagleModel._eagle_loss, binop3, Softmax_dim2, LogSoftmax_dim2.
    rewrite Hl, Hel. cbn [shape3]. unfold broadcast_dim.
    rewrite !Nat.eqb_refl. cbn [rbind]. nat_cases.
  - intros Hel Hm HS HS1 HS1'.
    unfold HFEagleModel._eagle_loss, binop3, Softmax_dim2, LogSoftmax_dim2,
      unsqueeze_last.
    rewrite Hl, Hel, Hm. cbn [shape3]. unfold broadcast_dim.
    rewrite !Nat.eqb_refl. cbn [rbind shape3]. rewrite !Nat.eqb_refl.
    cbn [rbind]. nat_cases.
Qed.

End LossShapes.

(** ** More on the mask builder and the draft module *)

Section BuilderMore.

Context {T : Type} `{Scalar T}.

(** X14. The builder raises in one case only: a mask is given, the cache is
    not empty and the block size [seq_lens] is 0, where the number of blocks
    is a division by zero. In every other case it returns, and no write of
    its loops falls outside the mask; it returns [None] exactly when it was
    given [None]. *)
Theorem tree_mask_raises_only_on_empty_blocks
    (attention_mask : option loc) (seq_lens cache_len : nat) (h : heap T) :
  match EagleModule._prepare_tree_attention_mask attention_mask seq_lens
          cache_len h with
  | Ok (r, _) =>
      (r = None <-> attention_mask = None)
      /\ (attention_mask = None \/ cache_len = 0 \/ 0 < seq_lens)
  | Err e =>
      e = ZeroDivisionError
      /\ attention_mask <> None /\ 0 < cache_len /\ seq_lens = 0
  end.
Proof.
  destruct attention_mask as [am|]; [|cbn; tauto].
  unfold EagleModule._prepare_tree_attention_mask, bind, load, ret, lift, alloc.
  destruct (shape4 (cell h am)) as [[[bsz heads] tgt] src] eqn:Hshape.
  destruct (Nat.eqb_spec cache_len 0) as [Hc|Hc].
  - split; [split; discriminate|]. auto.
  - unfold floordiv. destruct (Nat.eqb_spec seq_lens 0) as [Hs|Hs].
    + repeat split; try lia. discriminate.
    + destruct (fill_diagonal_blocks_spec
                  (assign_low_columns
                     (full4 (bsz, heads, tgt, src + cache_len) finfo_min) src
                     (cell h am))
                  src seq_lens cache_len bsz heads tgt)
        as (m' & Hrun & _); auto; [lia|].
      rewrite Hrun. split; [split; discriminate|]. right. right. lia.
Qed.

(** X15. On a square mask [S x S] with blocks of size [S] and a cache of
    [k >= 1] whole steps, the columns added are [k] identity blocks: in the
    block of step [j], row [r] is allowed column [c] exactly when [r = c].
    A position attends, in each earlier step, to the same position only. *)
Theorem tree_mask_of_whole_steps
    (h : heap T) (am : loc) (bsz heads S k : nat) :
  shape4 (cell h am) = (bsz, heads, S, S) ->
  0 < S ->
  0 < k ->
  exists ext h',
    EagleModule._prepare_tree_attention_mask (Some am) S (k * S) h
    = Ok (Some ext, h')
    /\ shape4 (cell h' ext) = (bsz, heads, S, S + k * S)
    /\ forall b hd j r c, j < k -> r < S -> c < S ->
         get4 (cell h' ext) b hd r (S + j * S + c)
         = if r =? c then zero else finfo_min.
Proof.
  intros Hshape HS Hk.
  unfold EagleModule._prepare_tree_attention_mask, bind, load, ret, lift, alloc.
  rewrite Hshape.
  replace (k * S =? 0) with false by (symmetry; apply Nat.eqb_neq; nia).
  unfold floordiv.
  replace (S =? 0) with false by (symmetry; apply Nat.eqb_neq; lia).
  destruct (fill_diagonal_blocks_spec
              (assign_low_columns
                 (full4 (bsz, heads, S, S + k * S) finfo_min) S (cell h am))
              S S (k * S) bsz heads S)
    as (m' & Hrun & Hs' & Hget); auto.
  rewrite Hrun. eexists _, _. split; [reflexivity|].
  cbn [cell next]. rewrite Nat.eqb_refl. split; [exact Hs'|].
  intros b hd j r c Hj Hr Hc. rewrite Hget.
  rewrite Nat.div_mul, Nat.min_id by lia.
  destruct (on_block_diagonal S S S 0 k r (S + j * S + c)) eqn:E.
  - apply on_block_diagonal_entries in E. unfold diagonal_entries in E.
    apply in_map_iff in E. destruct E as ((k', i) & Heq & Hin).
    injection Heq as Hi Hcol. subst i. apply in_prod_iff in Hin.
    destruct Hin as (_ & Hin). apply in_seq in Hin.
    assert (Hsame : k' = j).
    { destruct (Nat.lt_trichotomy k' j) as [Hlt|[Heq|Hgt]]; [|exact Heq|].
      - assert (Datatypes.S k' * S <= j * S) by (apply Nat.mul_le_mono_r; lia).
        cbn [Nat.mul] in *. lia.
      - assert (Datatypes.S j * S <= k' * S) by (apply Nat.mul_le_mono_r; lia).
        cbn [Nat.mul] in *. lia. }
    subst k'. assert (c = r) by lia. subst c. now rewrite Nat.eqb_refl.
  - destruct (Nat.eqb_spec r c) as [->|Hne].
    + assert (Hin : In (c, S + j * S + c) (diagonal_entries S S k S)).
      { unfold diagonal_entries. apply in_map_iff. exists (j, c).
        split; [reflexivity|]. apply in_prod_iff. split; apply in_seq; lia. }
      apply on_block_diagonal_entries in Hin. congruence.
    + unfold assign_low_columns, full4. cbn [get4]. nat_cases.
Qed.

End BuilderMore.

Section DraftModuleMore.

Context {T : Type} `{Scalar T} `{External T}.

(** X16. [EagleModule.forward] needs a cache: with [past_key_values = None]
    it raises [AttributeError]. When it returns, its first result is the
    hidden states it was given, its logits are the output head applied to
    the hidden states it returns, a cache is returned, and every mask object
    of the caller, the attention mask given included, is as it was. *)
Theorem eagle_module_forward_contract
    (self : EagleModule.t T) (hidden_states inputs_embeds : tensor3 T)
    (attention_mask : option loc) (past_key_values : option Cache)
    (output_attentions : option bool)
    (position_embeddings : tensor3 T * tensor3 T) (h : heap T) :
  match EagleModule.forward self hidden_states inputs_embeds attention_mask
          past_key_values output_attentions position_embeddings h with
  | Ok ((proj, hidden, logits, cache), h') =>
      past_key_values <> None
      /\ proj = hidden_states
      /\ logits = EagleModule.lm_head self hidden
      /\ (EagleModule.layers self = [] ->
          cache = past_key_values
          /\ hidden = match EagleModule.norm self with
                      | Some norm => norm hidden_states
                      | None => hidden_states
                      end)
      /\ next h <= next h' <= S (next h)
      /\ forall l, l < next h -> cell h' l = cell h l
  | Err e => past_key_values = None -> e = AttributeError
  end.
Proof.
  unfold EagleModule.forward, bind, lift, ret, load.
  destruct past_key_values as [cache|]; [|intros; reflexivity].
  destruct (EagleModule._prepare_tree_attention_mask _ _ _ h)
    as [[am' h']|e] eqn:Emask; [|discriminate].
  pose proof (tree_mask_store _ _ _ _ _ _ Emask) as [Hnext Hcell].
  assert (Hbound : next h' <= S (next h)).
  { revert Emask.
    unfold EagleModule._prepare_tree_attention_mask, bind, load, ret, lift, alloc.
    destruct attention_mask as [am|]; [|intros [= <- <-]; auto].
    destruct (shape4 (cell h am)) as [[[bsz heads] tgt] src].
    destruct (get_seq_length cache =? 0); [intros [= <- <-]; auto|].
    destruct (floordiv _ _) as [nb|e]; [|discriminate].
    destruct (EagleModule.fill_diagonal_blocks _ _ _ _ _ _) as [m'|e]; [|discriminate].
    intros [= <- <-]. cbn. lia. }
  assert (Hnil : forall mask,
             EagleModule.layers self = [] ->
             foreach (EagleModule.layers self)
               (fun decoder_layer '(hidden_states, past_key_values) =>
                  let* (layer_outputs, past_key_values) :=
                    ModifiedLlamaDecoderLayer.forward decoder_layer hidden_states
                      inputs_embeds mask past_key_values output_attentions
                      position_embeddings in
                  Ok (fst layer_outputs, past_key_values))
               (hidden_states, Some cache)
             = Ok (hidden_states, Some cache)).
  { intros mask ->. reflexivity. }
  destruct am' as [ext|].
  - destruct (foreach _ _ _) as [[hs pkv]|e] eqn:Erun; [|discriminate].
    split; [discriminate|]. split; [reflexivity|]. split; [reflexivity|].
    split; [|split; [lia|exact Hcell]].
    intros Hl. rewrite (Hnil _ Hl) in Erun. injection Erun as <- <-. auto.
  - destruct (foreach _ _ _) as [[hs pkv]|e] eqn:Erun; [|discriminate].
    split; [discriminate|]. split; [reflexivity|]. split; [reflexivity|].
    split; [|split; [lia|exact Hcell]].
    intros Hl. rewrite (Hnil _ Hl) in Erun. injection Erun as <- <-. auto.
Qed.

(** X17. Splitting the features of a tensor [B, S, F] into heads of size
    [head_dim] and merging the heads again gives the tensor back: head [n]
    holds the features [n * head_dim .. (n + 1) * head_dim - 1], as
    [view(B, S, -1, head_dim).transpose(1, 2)] lays them out and
    [transpose(1, 2).reshape(B, S, -1)] reads them. The split raises when
    [head_dim] does not divide [F], and on an empty tensor. *)
Theorem heads_split_and_merge
    (t : tensor3 T) (head_dim B S F : nat) :
  shape3 t = (B, S, F) ->
  (0 < B -> 0 < S -> 0 < head_dim -> F mod head_dim = 0 ->
   exists heads merged,
     view_heads t head_dim = Ok heads
     /\ shape4 (transpose12 heads) = (B, F / head_dim, S, head_dim)
     /\ (forall b n s d,
           get4 (transpose12 heads) b n s d = get3 t b s (n * head_dim + d))
     /\ reshape_merge (transpose12 (transpose12 heads)) = Ok merged
     /\ shape3 merged = (B, S, F)
     /\ forall b s f, get3 merged b s f = get3 t b s f)
  /\ (B * S * head_dim = 0 \/ F mod head_dim <> 0 ->
      view_heads t head_dim = Err RuntimeError).
Proof.
  intros Hshape. split.
  - intros HB HS Hd Hmod. unfold view_heads. rewrite Hshape.
    replace (B * S * head_dim =? 0) with false by (symmetry; apply Nat.eqb_neq; nia).
    rewrite Hmod. cbn [Nat.eqb].
    eexists _, _. split; [reflexivity|].
    unfold transpose12, reshape_merge. cbn [shape4 get4].
    replace (B * S =? 0) with false by (symmetry; apply Nat.eqb_neq; nia).
    split; [reflexivity|]. split; [reflexivity|]. split; [reflexivity|].
    cbn [shape3 get3]. split.
    + f_equal. apply Nat.Div0.div_exact in Hmod. lia.
    + intros b s f. f_equal.
      rewrite (Nat.div_mod_eq f head_dim) at 3. lia.
  - intros Hbad. unfold view_heads. rewrite Hshape.
    destruct (Nat.eqb_spec (B * S * head_dim) 0) as [|Hnz]; [reflexivity|].
    destruct Hbad as [|Hmod]; [contradiction|].
    now replace (F mod head_dim =? 0) with false by (symmetry; apply Nat.eqb_neq; lia).
Qed.

End DraftModuleMore.

(** ** The default auxiliary layers *)

Section AuxiliaryLayers.

Context {T : Type} `{Scalar T} `{External T}.

(** X18. The default auxiliary layers on a base model of [n] layers, whose
    hidden states are the [n + 1] outputs of the embedding and of each
    layer. The selection of [forward] succeeds exactly when [n >= 2]: it
    takes the states 1, [n // 2 - 1] and [n - 4], the last one counted from
    the end when [n < 4], which is state [2 * n - 3]. For [n < 2] it raises
    [IndexError]. The three states are distinct and in increasing order
    exactly when [n >= 7]. *)
Theorem default_aux_layers_selection
    (self : HFEagleModel.t T) (n : nat) (A : Type) (hidden_states : list A) :
  length hidden_states = n + 1 ->
  let ids :=
    HFEagleModel.eagle_aux_hidden_state_layer_ids
      (_set_default_aux_hidden_state_layers self (Z.of_nat n)) in
  (2 <= n ->
   exists a b c,
     comprehension (getitem_z hidden_states) ids = Ok [a; b; c]
     /\ nth_error hidden_states 1 = Some a
     /\ nth_error hidden_states (n / 2 - 1) = Some b
     /\ nth_error hidden_states (if n <? 4 then 2 * n - 3 else n - 4) = Some c)
  /\ (n < 2 -> comprehension (getitem_z hidden_states) ids = Err IndexError)
  /\ (1 < n / 2 - 1 < n - 4 <-> 7 <= n).
Proof.
  intros Hlen ids. subst ids. cbn [_set_default_aux_hidden_state_layers
    HFEagleModel.eagle_aux_hidden_state_layer_ids comprehension].
  assert (Hget : forall i : nat, i <= n ->
            exists x, nth_error hidden_states i = Some x
                      /\ getitem hidden_states i = Ok x).
  { intros i Hi. destruct (nth_error hidden_states i) as [x|] eqn:E.
    - exists x. split; [reflexivity|]. unfold getitem. now rewrite E.
    - apply nth_error_None in E. lia. }
  assert (Hhalf : (Z.of_nat n / 2 = Z.of_nat (n / 2))%Z).
  { now rewrite (Nat2Z.inj_div n 2). }
  split; [|split].
  - intros Hn.
    destruct (Hget 1 ltac:(lia)) as (a & Ha & Hga).
    destruct (Hget (n / 2 - 1)) as (b & Hb & Hgb).
    { pose proof (Nat.Div0.div_le_upper_bound n 2 n). lia. }
    destruct (Hget (if n <? 4 then 2 * n - 3 else n - 4)) as (c & Hc & Hgc).
    { destruct (Nat.ltb_spec n 4); lia. }
    exists a, b, c. repeat split; auto.
    assert (H1 : getitem_z hidden_states 1 = Ok a) by exact Hga.
    assert (H2 : getitem_z hidden_states (Z.of_nat n / 2 - 1) = Ok b).
    { unfold getitem_z. rewrite Hhalf.
      assert (1 <= n / 2) by (apply Nat.div_le_lower_bound; lia).
      replace (0 <=? Z.of_nat (n / 2) - 1)%Z with true by (symmetry; apply Z.leb_le; lia).
      now replace (Z.to_nat (Z.of_nat (n / 2) - 1)) with (n / 2 - 1) by lia. }
    assert (H3 : getitem_z hidden_states (Z.of_nat n - 4) = Ok c).
    { unfold getitem_z. rewrite Hlen. destruct (Nat.ltb_spec n 4).
      - replace (0 <=? Z.of_nat n - 4)%Z with false by (symmetry; apply Z.leb_gt; lia).
        replace (0 <=? Z.of_nat (n + 1) + (Z.of_nat n - 4))%Z with true
          by (symmetry; apply Z.leb_le; lia).
        now replace (Z.to_nat (Z.of_nat (n + 1) + (Z.of_nat n - 4)))
          with (2 * n - 3) by lia.
      - replace (0 <=? Z.of_nat n - 4)%Z with true by (symmetry; apply Z.leb_le; lia).
        now replace (Z.to_nat (Z.of_nat n - 4)) with (n - 4) by lia. }
    rewrite H1, H2, H3. reflexivity.
  - intros Hn. destruct n as [|[|n]]; [| |lia].
    + destruct hidden_states as [|x [|y l]]; try discriminate. reflexivity.
    + destruct hidden_states as [|x [|y [|z l]]]; try discriminate. reflexivity.
  - split.
    + intros [H1 H2]. lia.
    + intros Hn.
      assert (3 <= n / 2) by (apply Nat.div_le_lower_bound; lia).
      assert (n / 2 * 2 <= n).
      { rewrite Nat.mul_comm. apply Nat.Div0.mul_div_le. }
      lia.
Qed.

End AuxiliaryLayers.

(** ** The Medusa model *)

Section Medusa.

Context {T : Type} `{Scalar T} `{External T}.

Lemma iter_drop_first2 (X : Type) (k : nat) (t : tensor2 X) (B S : nat) :
  shape2 t = (B, S) ->
  shape2 (Nat.iter k drop_first2 t) = (B, S - k)
  /\ forall b p, get2 (Nat.iter k drop_first2 t) b p = get2 t b (p + k).
Proof.
  intros Hshape. induction k as [|k [IHs IHg]].
  - cbn. rewrite Hshape. split; [f_equal; lia|]. intros. f_equal. lia.
  - rewrite Nat.iter_succ. set (u := Nat.iter k drop_first2 t) in *.
    unfold drop_first2. rewrite IHs. cbn [shape2 get2].
    split; [f_equal; lia|]. intros. rewrite IHg. f_equal. lia.
Qed.

Lemma comprehension_heads
    (f : (tensor3 T -> tensor3 T) -> tensor3 T)
    (heads pre : list (tensor3 T -> tensor3 T)) :
  comprehension (fun i => let* head := getitem (pre ++ heads) i in Ok (f head))
    (seq (length pre) (length heads))
  = Ok (map f heads).
Proof.
  revert pre. induction heads as [|x heads IH]; intros pre; [reflexivity|].
  cbn [length seq comprehension map]. unfold getitem at 1.
  rewrite nth_error_app2, Nat.sub_diag by lia. cbn [nth_error rbind].
  specialize (IH (pre ++ [x])). rewrite <- app_assoc, length_app in IH.
  cbn [app length] in IH. rewrite Nat.add_1_r in IH. rewrite IH. reflexivity.
Qed.

Lemma slice_bound_stop (n i : nat) :
  HFMedusaModel.slice_bound n (- (1 + Z.of_nat i)) = n - S i.
Proof.
  unfold HFMedusaModel.slice_bound.
  replace (- (1 + Z.of_nat i) <? 0)%Z with true by (symmetry; apply Z.ltb_lt; lia).
  lia.
Qed.

Lemma labels_in_range_true (classes : nat) (labels : tensor2 Z) (B S : nat) :
  shape2 labels = (B, S) ->
  (forall b s, b < B -> s < S -> label_ok classes (get2 labels b s)) ->
  labels_in_range classes labels = true.
Proof.
  intros Hshape Hok. unfold labels_in_range, range. rewrite Hshape.
  apply forallb_forall. intros b Hb. apply in_seq in Hb.
  apply forallb_forall. intros s Hs. apply in_seq in Hs.
  destruct (Hok b s ltac:(lia) ltac:(lia)) as [->|Hrange].
  - now rewrite Z.eqb_refl.
  - apply orb_true_iff. right. apply andb_true_iff.
    split; [apply Z.leb_le|apply Z.ltb_lt]; lia.
Qed.

(** The labels without their first [k] positions are accepted when the
    labels are. *)
Lemma labels_in_range_dropped
    (classes k : nat) (labels : tensor2 Z) (B S : nat) :
  shape2 labels = (B, S) ->
  (forall b s, b < B -> s < S -> label_ok classes (get2 labels b s)) ->
  labels_in_range classes (Nat.iter k drop_first2 labels) = true.
Proof.
  intros Hshape Hok.
  destruct (iter_drop_first2 Z k labels B S Hshape) as [Hs Hg].
  apply (labels_in_range_true classes _ B (S - k) Hs).
  intros b s Hb Hlt. rewrite Hg. apply Hok; lia.
Qed.

(** The loss on logits and labels of the same number of rows. *)
Lemma loss_fct_returns
    (logits : tensor3 T) (labels : tensor2 Z) (B S V LB LS : nat) :
  shape3 logits = (B, S, V) ->
  shape2 labels = (LB, LS) ->
  0 < V ->
  B * S = LB * LS ->
  labels_in_range V labels = true ->
  HFMedusaModel.loss_fct logits labels
  = HFMedusaModel.Returned (CrossEntropyLoss logits labels).
Proof.
  intros Hlogits Hlabels HV Hrows Hrange.
  unfold HFMedusaModel.loss_fct, cross_entropy.
  rewrite Hlogits, Hlabels, Hrange.
  replace (V =? 0) with false by (symmetry; apply Nat.eqb_neq; lia).
  replace (B * S =? LB * LS) with true by (symmetry; now apply Nat.eqb_eq).
  reflexivity.
Qed.

(** The loss on logits and labels of different numbers of rows. *)
Lemma loss_fct_rows
    (logits : tensor3 T) (labels : tensor2 Z) (B S V LB LS : nat) :
  shape3 logits = (B, S, V) ->
  shape2 labels = (LB, LS) ->
  0 < V ->
  B * S <> LB * LS ->
  HFMedusaModel.loss_fct logits labels
  = HFMedusaModel.Raised HFMedusaModel.ValueError.
Proof.
  intros Hlogits Hlabels HV Hrows.
  unfold HFMedusaModel.loss_fct, cross_entropy.
  rewrite Hlogits, Hlabels.
  replace (V =? 0) with false by (symmetry; apply Nat.eqb_neq; lia).
  replace (B * S =? LB * LS) with false by (symmetry; now apply Nat.eqb_neq).
  reflexivity.
Qed.

(** The loop over the heads, from head [length done] on. *)
Lemma medusa_loop
    (a : HFMedusaModel.args T) (decay coef : T) (labels : tensor2 Z)
    (B S V : nat) (medusa_logits : list (tensor3 T)) :
  shape2 labels = (B, S) ->
  0 < V ->
  (forall b s, b < B -> s < S -> label_ok V (get2 labels b s)) ->
  HFMedusaModel.medusa_decay_coefficient a = Some decay ->
  HFMedusaModel.medusa_heads_coefficient a = Some coef ->
  forall (rest done : list (tensor3 T)) (acc : T),
    medusa_logits = done ++ rest ->
    (forall x, In x rest -> shape3 x = (B, S, V)) ->
    HFMedusaModel.oforeach (seq (length done) (length rest))
      (fun i '(labels, loss) =>
         let labels := drop_first2 labels in
         HFMedusaModel.obind
           (HFMedusaModel.of_result (getitem medusa_logits i))
           (fun head_logits =>
         let loss_logits :=
           HFMedusaModel.slice3_to (- (1 + Z.of_nat i)) head_logits in
         HFMedusaModel.obind (HFMedusaModel.loss_fct loss_logits labels)
           (fun ce =>
         HFMedusaModel.obind
           (HFMedusaModel.coefficient (HFMedusaModel.medusa_decay_coefficient a))
           (fun decay =>
         HFMedusaModel.obind
           (HFMedusaModel.coefficient (HFMedusaModel.medusa_heads_coefficient a))
           (fun heads =>
         HFMedusaModel.Returned
           (labels, add loss (mul (mul ce (pow decay i)) heads)))))))
      (Nat.iter (length done) drop_first2 labels, acc)
    = HFMedusaModel.Returned
        (Nat.iter (length medusa_logits) drop_first2 labels,
         fold_left (fun acc '(i, head_logits) =>
                      add acc (head_loss decay coef labels i head_logits))
                   (combine (seq (length done) (length rest)) rest) acc).
Proof.
  intros Hshape HV Hok Hdecay Hcoef rest.
  induction rest as [|x rest IH]; intros done acc Hml Hrest.
  - subst. rewrite app_nil_r. reflexivity.
  - cbn [length seq HFMedusaModel.oforeach combine fold_left].
    pose proof (Hrest x (or_introl eq_refl)) as Hx.
    unfold getitem at 1. rewrite Hml at 1.
    rewrite nth_error_app2, Nat.sub_diag by lia.
    cbn [nth_error HFMedusaModel.of_result HFMedusaModel.obind].
    change (drop_first2 (Nat.iter (length done) drop_first2 labels))
      with (Nat.iter (Datatypes.S (length done)) drop_first2 labels).
    destruct (iter_drop_first2 Z (Datatypes.S (length done)) labels B S Hshape)
      as [Hs _].
    rewrite (loss_fct_returns
               (HFMedusaModel.slice3_to (- (1 + Z.of_nat (length done))) x)
               (Nat.iter (Datatypes.S (length done)) drop_first2 labels)
               B (S - Datatypes.S (length done)) V
               B (S - Datatypes.S (length done))).
    + rewrite Hdecay, Hcoef.
      cbn [HFMedusaModel.coefficient HFMedusaModel.obind].
      specialize (IH (done ++ [x])
                    (add acc (head_loss decay coef labels (length done) x))).
      rewrite length_app in IH. cbn [length] in IH. rewrite Nat.add_1_r in IH.
      rewrite Hdecay, Hcoef in IH.
      cbn [HFMedusaModel.coefficient HFMedusaModel.obind] in IH.
      apply IH.
      * now rewrite <- app_assoc.
      * intros y Hy. apply Hrest. now right.
    + unfold HFMedusaModel.slice3_to. rewrite Hx, slice_bound_stop. reflexivity.
    + exact Hs.
    + exact HV.
    + reflexivity.
    + now apply (labels_in_range_dropped V _ labels B S).
Qed.

(** X19. The loss of [forward] with labels [B, S] that the cross-entropy
    accepts for the vocabulary [V] (class indices below [V], or the ignored
    index -100), when the logits of every head, and of the base model if it
    is trained, are [B, S, V]: head [i] adds the cross-entropy of its logits
    without their last [i + 1] positions against the labels without their
    first [i + 1] positions, times [decay ** i] times the heads'
    coefficient, so that the logits of position [p] are paired with the
    label of position [p + i + 1]. The terms are added from head 0 on, to 0
    when the base model is frozen and to its own cross-entropy otherwise;
    the logits returned are those of each head on the positions kept. *)
Theorem medusa_loss_pairs_shifted_labels
    (self : HFMedusaModel.t T) (a : HFMedusaModel.args T)
    (labels : tensor2 Z) (kept : tensor3 T) (decay coef : T) (B S V : nat) :
  HFMedusaModel.labels a = Some labels ->
  shape2 labels = (B, S) ->
  0 < V ->
  (forall b s, b < B -> s < S -> label_ok V (get2 labels b s)) ->
  HFMedusaModel.keep (HFMedusaModel.logits_to_keep a)
    (medusa_hidden_states self a) = Ok kept ->
  length (HFMedusaModel.medusa_heads self) = HFMedusaModel.medusa_num_heads self ->
  (forall head, In head (HFMedusaModel.medusa_heads self) ->
     shape3 (head kept) = (B, S, V)) ->
  (HFMedusaModel.freeze_base_model a = false ->
     shape3 (HFMedusaModel.lm_head self kept) = (B, S, V)) ->
  HFMedusaModel.medusa_decay_coefficient a = Some decay ->
  HFMedusaModel.medusa_heads_coefficient a = Some coef ->
  (exists out,
     HFMedusaModel.forward self a = HFMedusaModel.Returned out
     /\ HFMedusaModel.logits out = HFMedusaModel.lm_head self kept
     /\ HFMedusaModel.medusa_logits out
        = map (fun head => head kept) (HFMedusaModel.medusa_heads self)
     /\ HFMedusaModel.loss out
        = Some (medusa_loss
                  (if HFMedusaModel.freeze_base_model a then zero
                   else add zero
                          (CrossEntropyLoss (HFMedusaModel.lm_head self kept)
                             labels))
                  decay coef labels (HFMedusaModel.medusa_logits out)))
  /\ forall i,
       shape2 (Nat.iter (Datatypes.S i) drop_first2 labels) = (B, S - (i + 1))
       /\ forall b p,
            get2 (Nat.iter (Datatypes.S i) drop_first2 labels) b p
            = get2 labels b (p + i + 1).
Proof.
  intros Hlabels Hshape HV Hok Hkeep Hlen Hheads Hbase Hdecay Hcoef. split.
  - unfold HFMedusaModel.forward. fold (medusa_hidden_states self a).
    rewrite Hkeep. cbn [HFMedusaModel.of_result HFMedusaModel.obind].
    unfold range. rewrite <- Hlen.
    pose proof (comprehension_heads (fun head => head kept)
                  (HFMedusaModel.medusa_heads self) []) as Hcomp.
    cbn [app length] in Hcomp. rewrite Hcomp.
    cbn [HFMedusaModel.of_result HFMedusaModel.obind]. rewrite Hlabels.
    set (ml := map (fun head => head kept) (HFMedusaModel.medusa_heads self)).
    assert (Hml : forall x, In x ml -> shape3 x = (B, S, V)).
    { intros x Hx. apply in_map_iff in Hx. destruct Hx as (head & <- & Hin).
      now apply Hheads. }
    assert (Hmllen : length (HFMedusaModel.medusa_heads self) = length ml).
    { unfold ml. now rewrite length_map. }
    rewrite Hmllen.
    destruct (HFMedusaModel.freeze_base_model a) eqn:Hfreeze.
    + cbn [HFMedusaModel.obind].
      pose proof (medusa_loop a decay coef labels B S V ml Hshape HV Hok
                    Hdecay Hcoef ml [] zero eq_refl Hml) as Hloop.
      change (Nat.iter (length (@nil (tensor3 T))) drop_first2 labels)
        with labels in Hloop.
      cbn [length] in Hloop. rewrite Hloop.
      cbn [HFMedusaModel.obind snd]. eexists. split; [reflexivity|].
      cbn. auto.
    + rewrite (loss_fct_returns (HFMedusaModel.lm_head self kept) labels
                 B S V B S (Hbase eq_refl) Hshape HV eq_refl
                 (labels_in_range_true V labels B S Hshape Hok)).
      cbn [HFMedusaModel.obind].
      pose proof (medusa_loop a decay coef labels B S V ml Hshape HV Hok
                    Hdecay Hcoef ml []
                    (add zero (CrossEntropyLoss
                                 (HFMedusaModel.lm_head self kept) labels))
                    eq_refl Hml) as Hloop.
      change (Nat.iter (length (@nil (tensor3 T))) drop_first2 labels)
        with labels in Hloop.
      cbn [length] in Hloop. rewrite Hloop.
      cbn [HFMedusaModel.obind snd]. eexists. split; [reflexivity|].
      cbn. auto.
  - intros i. destruct (iter_drop_first2 Z (Datatypes.S i) labels B S Hshape)
      as [Hs Hg].
    split; [rewrite Hs; f_equal; lia|]. intros b p. rewrite Hg. f_equal. lia.
Qed.

(** The first head of [forward] with labels and a frozen base model. *)
Lemma medusa_first_head
    (self : HFMedusaModel.t T) (a : HFMedusaModel.args T) (kept : tensor3 T) :
  HFMedusaModel.keep (HFMedusaModel.logits_to_keep a)
    (medusa_hidden_states self a) = Ok kept ->
  length (HFMedusaModel.medusa_heads self) = HFMedusaModel.medusa_num_heads self ->
  forall labels, HFMedusaModel.labels a = Some labels ->
  HFMedusaModel.freeze_base_model a = true ->
  forall head heads, HFMedusaModel.medusa_heads self = head :: heads ->
  forall B S V, shape3 (head kept) = (B, S, V) ->
  forall LB LS, shape2 labels = (LB, LS) ->
  0 < V ->
  (B * (S - 1) <> LB * (LS - 1) ->
   HFMedusaModel.forward self a = HFMedusaModel.Raised HFMedusaModel.ValueError)
  /\ (B * (S - 1) = LB * (LS - 1) ->
      labels_in_range V (drop_first2 labels) = true ->
      HFMedusaModel.medusa_decay_coefficient a = None
      \/ HFMedusaModel.medusa_heads_coefficient a = None ->
      HFMedusaModel.forward self a = HFMedusaModel.Raised HFMedusaModel.TypeError).
Proof.
  intros Hkeep Hlen labels Hlabels Hfreeze head heads Hheads B S V Hs LB LS Hl HV.
  assert (Hsliced : shape3 (HFMedusaModel.slice3_to (- (1 + Z.of_nat 0)) (head kept))
                    = (B, S - 1, V)).
  { unfold HFMedusaModel.slice3_to. rewrite Hs, slice_bound_stop. reflexivity. }
  assert (Hdropped : shape2 (drop_first2 labels) = (LB, LS - 1)).
  { unfold drop_first2. rewrite Hl. reflexivity. }
  assert (Hrun : forall r,
            HFMedusaModel.loss_fct
              (HFMedusaModel.slice3_to (- (1 + Z.of_nat 0)) (head kept))
              (drop_first2 labels) = HFMedusaModel.Raised r ->
            HFMedusaModel.forward self a = HFMedusaModel.Raised r).
  { intros r Hr. unfold HFMedusaModel.forward. fold (medusa_hidden_states self a).
    rewrite Hkeep. cbn [HFMedusaModel.of_result HFMedusaModel.obind].
    unfold range. rewrite <- Hlen.
    pose proof (comprehension_heads (fun head => head kept)
                  (HFMedusaModel.medusa_heads self) []) as Hcomp.
    cbn [app length] in Hcomp. rewrite Hcomp.
    cbn [HFMedusaModel.of_result HFMedusaModel.obind].
    rewrite Hlabels, Hfreeze, Hheads.
    cbn [HFMedusaModel.obind length seq map HFMedusaModel.oforeach getitem
         nth_error HFMedusaModel.of_result].
    rewrite Hr. reflexivity. }
  split.
  - intros Hrows. apply Hrun.
    apply (loss_fct_rows _ _ B (S - 1) V LB (LS - 1) Hsliced Hdropped HV Hrows).
  - intros Hrows Hrange Hnone.
    unfold HFMedusaModel.forward. fold (medusa_hidden_states self a).
    rewrite Hkeep. cbn [HFMedusaModel.of_result HFMedusaModel.obind].
    unfold range. rewrite <- Hlen.
    pose proof (comprehension_heads (fun head => head kept)
                  (HFMedusaModel.medusa_heads self) []) as Hcomp.
    cbn [app length] in Hcomp. rewrite Hcomp.
    cbn [HFMedusaModel.of_result HFMedusaModel.obind].
    rewrite Hlabels, Hfreeze, Hheads.
    cbn [HFMedusaModel.obind length seq map HFMedusaModel.oforeach getitem
         nth_error HFMedusaModel.of_result].
    rewrite (loss_fct_returns _ _ B (S - 1) V LB (LS - 1)
               Hsliced Hdropped HV Hrows Hrange).
    cbn [HFMedusaModel.obind].
    destruct Hnone as [-> | ->]; [reflexivity|].
    destruct (HFMedusaModel.medusa_decay_coefficient a); reflexivity.
Qed.

(** X20. Labels cannot be combined with trimmed logits. With labels [B, S]
    on a batch that is not empty and [0 < logits_to_keep < S], the logits
    have [logits_to_keep] positions for the [S] of the labels, and [forward]
    raises [ValueError] as soon as one loss is computed: when the base model
    is trained, or when there is a head. No coefficient is looked at before.
    With a frozen base model and no head it returns the loss 0. *)
Theorem medusa_trimmed_logits_reject_labels
    (self : HFMedusaModel.t T) (a : HFMedusaModel.args T)
    (labels : tensor2 Z) (k : Z) (B S F : nat) :
  HFMedusaModel.labels a = Some labels ->
  shape2 labels = (B, S) ->
  shape3 (medusa_hidden_states self a) = (B, S, F) ->
  HFMedusaModel.logits_to_keep a = inl k ->
  (0 < k < Z.of_nat S)%Z ->
  0 < B ->
  length (HFMedusaModel.medusa_heads self) = HFMedusaModel.medusa_num_heads self ->
  (forall f, f = HFMedusaModel.lm_head self
             \/ In f (HFMedusaModel.medusa_heads self) ->
     exists V, 0 < V
       /\ shape3 (f (HFMedusaModel.slice3_from (- k) (medusa_hidden_states self a)))
          = (B, Z.to_nat k, V)) ->
  (HFMedusaModel.freeze_base_model a = false
   \/ 0 < HFMedusaModel.medusa_num_heads self ->
   HFMedusaModel.forward self a = HFMedusaModel.Raised HFMedusaModel.ValueError)
  /\ (HFMedusaModel.freeze_base_model a = true ->
      HFMedusaModel.medusa_num_heads self = 0 ->
      exists out,
        HFMedusaModel.forward self a = HFMedusaModel.Returned out
        /\ HFMedusaModel.loss out = Some zero).
Proof.
  intros Hlabels Hshape Hhs Hk Hrange HB Hlen Hout.
  set (kept := HFMedusaModel.slice3_from (- k) (medusa_hidden_states self a)) in *.
  assert (Hkeep : HFMedusaModel.keep (HFMedusaModel.logits_to_keep a)
                    (medusa_hidden_states self a) = Ok kept).
  { rewrite Hk. reflexivity. }
  split.
  - intros Hsome.
    destruct (HFMedusaModel.freeze_base_model a) eqn:Hfreeze.
    + destruct Hsome as [|Hn]; [discriminate|].
      destruct (HFMedusaModel.medusa_heads self) as [|head heads] eqn:Hheads;
        [cbn in Hlen; lia|].
      destruct (Hout head (or_intror (or_introl eq_refl))) as (V & HV & Hs).
      apply (proj1 (medusa_first_head self a kept Hkeep
                      ltac:(rewrite Hheads; exact Hlen) labels Hlabels Hfreeze
                      head heads Hheads B (Z.to_nat k) V Hs B S Hshape HV)).
      nia.
    + destruct (Hout _ (or_introl eq_refl)) as (V & HV & Hs).
      unfold HFMedusaModel.forward. fold (medusa_hidden_states self a).
      rewrite Hkeep. cbn [HFMedusaModel.of_result HFMedusaModel.obind].
      unfold range. rewrite <- Hlen.
      pose proof (comprehension_heads (fun head => head kept)
                    (HFMedusaModel.medusa_heads self) []) as Hcomp.
      cbn [app length] in Hcomp. rewrite Hcomp.
      cbn [HFMedusaModel.of_result HFMedusaModel.obind].
      rewrite Hlabels, Hfreeze.
      rewrite (loss_fct_rows _ _ B (Z.to_nat k) V B S Hs Hshape HV);
        [reflexivity|nia].
  - intros Hfreeze Hn.
    unfold HFMedusaModel.forward. fold (medusa_hidden_states self a).
    rewrite Hkeep. cbn [HFMedusaModel.of_result HFMedusaModel.obind].
    rewrite Hn, Hlabels, Hfreeze. cbn. eexists. split; reflexivity.
Qed.

(** X21. The coefficients are needed as soon as a head's loss is added:
    with labels that the cross-entropy accepts for the vocabulary of the
    first head (class indices, or the ignored index -100), a frozen base
    model, at least one head whose logits match the labels, and [None] for
    the decay or for the heads' coefficient, [forward] raises [TypeError].
    (The cross-entropy is evaluated first: labels out of range raise
    [IndexError] before.) *)
Theorem medusa_loss_needs_coefficients
    (self : HFMedusaModel.t T) (a : HFMedusaModel.args T)
    (labels : tensor2 Z) (kept : tensor3 T) (B S V : nat)
    (head : tensor3 T -> tensor3 T) (heads : list (tensor3 T -> tensor3 T)) :
  HFMedusaModel.labels a = Some labels ->
  shape2 labels = (B, S) ->
  (forall b s, b < B -> s < S -> label_ok V (get2 labels b s)) ->
  HFMedusaModel.keep (HFMedusaModel.logits_to_keep a)
    (medusa_hidden_states self a) = Ok kept ->
  HFMedusaModel.medusa_heads self = head :: heads ->
  HFMedusaModel.medusa_num_heads self = Datatypes.S (length heads) ->
  shape3 (head kept) = (B, S, V) ->
  0 < V ->
  HFMedusaModel.freeze_base_model a = true ->
  HFMedusaModel.medusa_decay_coefficient a = None
  \/ HFMedusaModel.medusa_heads_coefficient a = None ->
  HFMedusaModel.forward self a = HFMedusaModel.Raised HFMedusaModel.TypeError.
Proof.
  intros Hlabels Hshape Hok Hkeep Hheads Hn Hs HV Hfreeze Hnone.
  apply (proj2 (medusa_first_head self a kept Hkeep
                  ltac:(rewrite Hheads; symmetry; exact Hn) labels Hlabels
                  Hfreeze head heads Hheads B S V Hs B S Hshape HV));
    [reflexivity| |exact Hnone].
  apply (labels_in_range_dropped V 1 labels B S Hshape Hok).
Qed.

(** X22. Without labels, and with an integer [logits_to_keep = k], [forward]
    raises nothing and returns the loss [None], whatever the coefficients
    are. The logits are those of the positions from [first] on, where
    [first] is 0 for [k = 0], so that all [S] positions are kept,
    [S - k] for [0 < k <= S], so that the last [k] are kept, and 0 again for
    [k > S]; a negative [k] drops the first [-k] positions. *)
Theorem medusa_forward_without_labels
    (self : HFMedusaModel.t T) (a : HFMedusaModel.args T)
    (k : Z) (B S F : nat) :
  HFMedusaModel.labels a = None ->
  HFMedusaModel.logits_to_keep a = inl k ->
  shape3 (medusa_hidden_states self a) = (B, S, F) ->
  length (HFMedusaModel.medusa_heads self) = HFMedusaModel.medusa_num_heads self ->
  let first := if (0 <? k)%Z then S - Z.to_nat k
               else Nat.min (Z.to_nat (- k)) S in
  exists out kept,
    HFMedusaModel.forward self a = HFMedusaModel.Returned out
    /\ HFMedusaModel.loss out = None
    /\ HFMedusaModel.logits out = HFMedusaModel.lm_head self kept
    /\ HFMedusaModel.medusa_logits out
       = map (fun head => head kept) (HFMedusaModel.medusa_heads self)
    /\ shape3 kept = (B, S - first, F)
    /\ forall b s f,
         get3 kept b s f = get3 (medusa_hidden_states self a) b (s + first) f.
Proof.
  intros Hlabels Hk Hhs Hlen first.
  unfold HFMedusaModel.forward. fold (medusa_hidden_states self a).
  rewrite Hk. cbn [HFMedusaModel.keep HFMedusaModel.of_result HFMedusaModel.obind].
  unfold range. rewrite <- Hlen.
  pose proof (comprehension_heads
                (fun head => head (HFMedusaModel.slice3_from (- k)
                                     (medusa_hidden_states self a)))
                (HFMedusaModel.medusa_heads self) []) as Hcomp.
  cbn [app length] in Hcomp. rewrite Hcomp.
  cbn [HFMedusaModel.of_result HFMedusaModel.obind]. rewrite Hlabels.
  cbn [HFMedusaModel.obind]. eexists _, _. split; [reflexivity|].
  cbn [HFMedusaModel.loss HFMedusaModel.logits HFMedusaModel.medusa_logits].
  repeat (split; [reflexivity|]).
  assert (Hfirst : HFMedusaModel.slice_bound S (- k) = first).
  { unfold HFMedusaModel.slice_bound, first.
    destruct (Z.ltb_spec 0 k); destruct (Z.ltb_spec (- k) 0); lia. }
  unfold HFMedusaModel.slice3_from. rewrite Hhs, Hfirst. cbn [shape3 get3].
  split; reflexivity.
Qed.

(** X23. The heads that [modify] creates. Each head is a sequence of
    [medusa_num_layers] references to one residual block, followed by its
    own linear layer: its forward pass applies the same block
    [medusa_num_layers] times. Two module objects are created for a head
    whatever [medusa_num_layers] is, and no object belongs to two heads. *)
Theorem medusa_heads_share_one_block
    (medusa_num_heads medusa_num_layers next : nat)
    (modules : nat -> tensor3 T -> tensor3 T) :
  let heads := fst (HFMedusaModel.new_heads medusa_num_heads medusa_num_layers next) in
  length heads = medusa_num_heads
  /\ snd (HFMedusaModel.new_heads medusa_num_heads medusa_num_layers next)
     = next + 2 * medusa_num_heads
  /\ (forall i, i < medusa_num_heads ->
        nth i heads [] = repeat (next + 2 * i) medusa_num_layers
                         ++ [next + 2 * i + 1]
        /\ forall x,
             HFMedusaModel.sequential modules (nth i heads []) x
             = modules (next + 2 * i + 1)
                 (Nat.iter medusa_num_layers (modules (next + 2 * i)) x))
  /\ forall i j id, i < medusa_num_heads -> j < medusa_num_heads ->
        In id (nth i heads []) -> In id (nth j heads []) -> i = j.
Proof.
  assert (Hclosed : forall n next',
            length (fst (HFMedusaModel.new_heads n medusa_num_layers next')) = n
            /\ snd (HFMedusaModel.new_heads n medusa_num_layers next')
               = next' + 2 * n
            /\ forall i, i < n ->
                 nth i (fst (HFMedusaModel.new_heads n medusa_num_layers next')) []
                 = repeat (next' + 2 * i) medusa_num_layers
                   ++ [next' + 2 * i + 1]).
  { induction n as [|n IH]; intros next'.
    - cbn. repeat split; try lia.
    - cbn [HFMedusaModel.new_heads HFMedusaModel.new_head].
      destruct (HFMedusaModel.new_heads n medusa_num_layers
                  (Datatypes.S (Datatypes.S next'))) as [hs nx] eqn:E.
      specialize (IH (Datatypes.S (Datatypes.S next'))). rewrite E in IH.
      cbn [fst snd] in IH. destruct IH as (IHl & IHn & IHi).
      cbn [fst snd length]. repeat split; try lia.
      intros [|i] Hi.
      + cbn [nth]. now rewrite Nat.mul_0_r, Nat.add_0_r, Nat.add_1_r.
      + cbn [nth]. rewrite IHi by lia.
        replace (Datatypes.S (Datatypes.S next') + 2 * i)
          with (next' + 2 * Datatypes.S i) by lia.
        reflexivity. }
  intros heads. subst heads.
  destruct (Hclosed medusa_num_heads next) as (Hl & Hn & Hi).
  split; [exact Hl|]. split; [exact Hn|]. split.
  - intros i Hlt. split; [now apply Hi|]. intros x. rewrite (Hi i Hlt).
    unfold HFMedusaModel.sequential. rewrite fold_left_app. cbn [fold_left].
    f_equal. generalize (next + 2 * i) as r. intros r. clear.
    revert x. induction medusa_num_layers as [|l IH]; intros x; [reflexivity|].
    cbn [repeat fold_left]. rewrite IH. symmetry. apply Nat.iter_succ_r.
  - intros i j id Hlt Hjlt Hin Hjn. rewrite (Hi i Hlt) in Hin.
    rewrite (Hi j Hjlt) in Hjn. apply in_app_or in Hin. apply in_app_or in Hjn.
    assert (Hid : id = next + 2 * i \/ id = next + 2 * i + 1).
    { destruct Hin as [Hin|[Hin|[]]]; [apply repeat_spec in Hin|]; lia. }
    assert (Hjd : id = next + 2 * j \/ id = next + 2 * j + 1).
    { destruct Hjn as [Hin'|[Hin'|[]]]; [apply repeat_spec in Hin'|]; lia. }
    lia.
Qed.

End Medusa.


(** ** The further statements on the small model *)

Section MoreOnTheSmallModel.

#[local] Existing Instance Example.external.

(** The first step on the small model blocks the diagonal of the mask
    [1, 1, 2, 2] and leaves the entry below it. *)
Lemma step_blocks_one_band_witness :
  exists v' h',
    HFEagleModel.ttt_step Example.model HFEagleModel._eagle_loss
      (Example.args (Some Example.ones)) (full3 (1, 2, 1) 1%R) 2
      (arange_row 2) 0 0 Example.vars0 Example.one_mask_store = Ok (v', h')
    /\ get4 (cell h' 0) 0 0 1 1 = finfo_min
    /\ get4 (cell h' 0) 0 0 1 0 = get4 (cell Example.one_mask_store 0) 0 0 1 0.
Proof.
  destruct small_model_first_step as (v' & h' & Hstep).
  destruct (step_blocks_one_band Example.model (Example.args (Some Example.ones))
              HFEagleModel._eagle_loss (full3 (1, 2, 1) 1%R) 2 (arange_row 2)
              0 0 Example.vars0 v' Example.one_mask_store h')
    as (_ & Hband & _).
  - cbn. lia.
  - exact Hstep.
  - exists v', h'. split; [exact Hstep|]. split.
    + apply (proj1 (Hband ltac:(lia) 0 0 1 1)). lia.
    + apply (proj2 (Hband ltac:(lia) 0 0 1 0)). lia.
Defined.

(** The sequence length of the small model is 2. *)
Lemma small_model_seq_length (loss_mask : option (tensor2 R))
    (p : HFEagleModel.prelude) (h0 : heap R) :
  match HFEagleModel.forward_prelude Example.model (Example.args loss_mask)
          Example.empty_store with
  | Ok (p, _) => HFEagleModel.seq_length p
  | Err _ => 0
  end = 2 ->
  HFEagleModel.forward_prelude Example.model (Example.args loss_mask)
    Example.empty_store = Ok (p, h0) ->
  HFEagleModel.seq_length p = 2.
Proof. intros Hseq Hpre. now rewrite Hpre in Hseq. Qed.

Lemma rollout_blocks_lower_bands_witness :
  exists p h0 v h4,
    HFEagleModel.forward_prelude Example.model (Example.args (Some Example.ones))
      Example.empty_store = Ok (p, h0)
    /\ rollout_upto Example.model HFEagleModel._eagle_loss
         (Example.args (Some Example.ones)) p 4 h0 = Ok (v, h4)
    /\ get4 (cell h4 (HFEagleModel.running_mask p)) 0 0 1 0 = finfo_min
    /\ get4 (cell h4 (HFEagleModel.running_mask p)) 0 0 0 1
       = get4 (cell h0 (HFEagleModel.running_mask p)) 0 0 0 1.
Proof.
  destruct (small_model_runs (Some Example.ones)) as (p & h0 & v & h4 & Hpre & Hrun);
    [lazy; reflexivity|].
  pose proof (small_model_seq_length (Some Example.ones) p h0
                ltac:(lazy; reflexivity) Hpre) as Hseq.
  destruct (rollout_blocks_lower_bands Example.model
              (Example.args (Some Example.ones)) Example.empty_store h0 h4 p 4 v
              Hpre Hrun) as (_ & Hband).
  exists p, h0, v, h4. split; [exact Hpre|]. split; [exact Hrun|]. split.
  - apply (proj1 (Hband 0 0 1 0)); [rewrite Hseq; lia|cbn; lia].
  - apply (proj2 (Hband 0 0 0 1)). lia.
Defined.

Lemma rollout_targets_are_shifted_witness :
  exists p h0 v h4,
    HFEagleModel.forward_prelude Example.model (Example.args (Some Example.ones))
      Example.empty_store = Ok (p, h0)
    /\ rollout_upto Example.model HFEagleModel._eagle_loss
         (Example.args (Some Example.ones)) p 4 h0 = Ok (v, h4)
    /\ shifts3 3 (Vars.logits (HFEagleModel.initial p)) = Ok (Vars.logits v).
Proof.
  destruct (small_model_runs (Some Example.ones)) as (p & h0 & v & h4 & Hpre & Hrun);
    [lazy; reflexivity|].
  destruct (rollout_targets_are_shifted Example.model
              (Example.args (Some Example.ones)) HFEagleModel._eagle_loss
              p h0 h4 4 v Hrun) as (Hlogits & _).
  exists p, h0, v, h4. auto.
Defined.

Lemma rollout_records_one_loss_per_step_witness :
  exists p h0 v h4,
    HFEagleModel.forward_prelude Example.model (Example.args (Some Example.ones))
      Example.empty_store = Ok (p, h0)
    /\ rollout_upto Example.model HFEagleModel._eagle_loss
         (Example.args (Some Example.ones)) p 4 h0 = Ok (v, h4)
    /\ length (Vars.loss_list v) = 4.
Proof.
  destruct (small_model_runs (Some Example.ones)) as (p & h0 & v & h4 & Hpre & Hrun);
    [lazy; reflexivity|].
  destruct (rollout_records_one_loss_per_step Example.model
              (Example.args (Some Example.ones)) Example.empty_store h0 h4 p 4 v
              Hpre Hrun) as (_ & Hlen).
  exists p, h0, v, h4. auto.
Defined.

Lemma forward_leaves_the_store_witness :
  exists out h',
    HFEagleModel.forward_with Example.model HFEagleModel._eagle_loss
      (Example.args (Some Example.ones)) Example.one_mask_store = Ok (out, h')
    /\ 2 <= next h' <= 6
    /\ cell h' 0 = cell Example.one_mask_store 0.
Proof.
  destruct (succeeded_ok
              (HFEagleModel.forward_with Example.model HFEagleModel._eagle_loss
                 (Example.args (Some Example.ones)) Example.one_mask_store))
    as [[out h'] Hfwd]; [lazy; reflexivity|].
  destruct (forward_leaves_the_store Example.model
              (Example.args (Some Example.ones)) HFEagleModel._eagle_loss
              Example.one_mask_store h' out Hfwd) as (Hnext & Hcell).
  exists out, h'. split; [exact Hfwd|]. split; [exact Hnext|].
  apply Hcell. cbn. lia.
Defined.

Lemma forward_raises_on_empty_input_witness :
  HFEagleModel.forward_with Example.empty_model HFEagleModel._eagle_loss
    (Example.args (Some Example.ones)) Example.empty_store = Err RuntimeError.
Proof.
  apply (proj1 (forward_raises_on_empty_input Example.empty_model
                  (Example.args (Some Example.ones)) HFEagleModel._eagle_loss
                  Example.empty_store eq_refl)
           [] (full3 (1, 0, 1) 1%R) 1 1 eq_refl eq_refl).
Defined.

Lemma prelude_position_ids_witness :
  exists p h0,
    HFEagleModel.forward_prelude Example.model (Example.args (Some Example.ones))
      Example.empty_store = Ok (p, h0)
    /\ shape2 (HFEagleModel.original_position_ids p) = (1, 2)
    /\ get2 (HFEagleModel.original_position_ids p) 0 1 = 1%Z.
Proof.
  destruct (small_model_runs (Some Example.ones)) as (p & h0 & v & h4 & Hpre & Hrun);
    [lazy; reflexivity|].
  pose proof (small_model_seq_length (Some Example.ones) p h0
                ltac:(lazy; reflexivity) Hpre) as Hseq.
  destruct (prelude_position_ids Example.model (Example.args (Some Example.ones))
              Example.empty_store h0 p Hpre) as (Hshape & Hget).
  exists p, h0. split; [exact Hpre|]. rewrite Hseq in *. split; [exact Hshape|].
  apply (Hget 1). lia.
Defined.




Lemma eagle_loss_is_shift_invariant_witness :
  HFEagleModel._eagle_loss (full3 (1, 2, 1) 1%R) (full3 (1, 2, 2) 1%R)
    (full3 (1, 2, 1) 2%R) (Example.second_position 1%R) Example.ones
  = HFEagleModel._eagle_loss (full3 (1, 2, 1) 1%R) (full3 (1, 2, 2) 0%R)
      (full3 (1, 2, 1) 2%R) (Example.second_position 1%R) Example.ones.
Proof.
  apply (eagle_loss_is_shift_invariant
           (full3 (1, 2, 1) 1%R) (full3 (1, 2, 2) 0%R)
           (full3 (1, 2, 1) 2%R) (Example.second_position 1%R)
           (full3 (1, 2, 2) 1%R) (Example.second_position 1%R)
           Example.ones (fun _ _ => 1%R) (fun _ _ => 0%R) 1 2 2 1);
    try reflexivity.
  - intros b s v. cbn. lra.
  - intros b s v. cbn. lra.
Defined.

Lemma classification_loss_is_least_at_the_backbone_witness :
  exists r0 c0 r1 c1,
    HFEagleModel._eagle_loss (full3 (1, 2, 1) 1%R) (full3 (1, 2, 2) 0%R)
      (full3 (1, 2, 1) 2%R) (full3 (1, 2, 2) 0%R) Example.ones = Ok (r0, c0)
    /\ HFEagleModel._eagle_loss (full3 (1, 2, 1) 1%R) (full3 (1, 2, 2) 0%R)
         (full3 (1, 2, 1) 2%R) (Example.second_position 1%R) Example.ones
       = Ok (r1, c1)
    /\ (c0 <= c1)%R.
Proof.
  apply (classification_loss_is_least_at_the_backbone
           (full3 (1, 2, 1) 1%R) (full3 (1, 2, 2) 0%R)
           (full3 (1, 2, 1) 2%R) (Example.second_position 1%R)
           Example.ones 1 2 2 1); try reflexivity.
  intros b s _ _. cbn. lra.
Defined.

Lemma eagle_loss_rejects_mismatched_shapes_witness :
  HFEagleModel._eagle_loss (full3 (1, 2, 1) 1%R) (full3 (1, 2, 2) 0%R)
    (full3 (1, 2, 1) 2%R) (full3 (1, 2, 3) 0%R) Example.ones
  = Err RuntimeError.
Proof.
  apply (proj1 (eagle_loss_rejects_mismatched_shapes
                  (full3 (1, 2, 1) 1%R) (full3 (1, 2, 2) 0%R)
                  (full3 (1, 2, 1) 2%R) (full3 (1, 2, 3) 0%R) Example.ones
                  1 2 2 2 3 eq_refl)); [reflexivity|lia|lia|lia].
Defined.

(** The builder on the small store: with blocks of size 0 and a cache it
    raises. *)
Lemma tree_mask_raises_only_on_empty_blocks_witness :
  EagleModule._prepare_tree_attention_mask (Some 0) 0 4 Example.one_mask_store
  = Err ZeroDivisionError.
Proof.
  pose proof (tree_mask_raises_only_on_empty_blocks (Some 0) 0 4
                Example.one_mask_store) as Hspec.
  destruct (EagleModule._prepare_tree_attention_mask (Some 0) 0 4
              Example.one_mask_store) as [[r h']|e].
  - exfalso. destruct Hspec as (_ & [Hnone|[Hcache|Hseq]]);
      [discriminate|discriminate|inversion Hseq].
  - destruct Hspec as (-> & _). reflexivity.
Defined.

(** The builder on a causal mask [1, 1, 2, 2] and a cache of two steps. *)
Lemma tree_mask_of_whole_steps_witness :
  exists ext h',
    EagleModule._prepare_tree_attention_mask (Some 0) 2 4 Example.one_mask_store
    = Ok (Some ext, h')
    /\ get4 (cell h' ext) 0 0 1 5 = 0%R
    /\ get4 (cell h' ext) 0 0 1 4 = finfo_min.
Proof.
  destruct (tree_mask_of_whole_steps Example.one_mask_store 0 1 1 2 2)
    as (ext & h' & Hrun & _ & Hget); [reflexivity|lia|lia|].
  exists ext, h'. split; [exact Hrun|]. split.
  - apply (Hget 0 0 1 1 1); lia.
  - apply (Hget 0 0 1 1 0); lia.
Defined.

(** The draft module of the small model without a cache. *)
Lemma eagle_module_forward_contract_witness :
  EagleModule.forward Example.draft (full3 (1, 2, 1) 1%R) (full3 (1, 2, 1) 1%R)
    (Some 0) None None (full3 (1, 2, 1) 1%R, full3 (1, 2, 1) 1%R)
    Example.one_mask_store
  = Err AttributeError.
Proof.
  pose proof (eagle_module_forward_contract Example.draft (full3 (1, 2, 1) 1%R)
                (full3 (1, 2, 1) 1%R) (Some 0) None None
                (full3 (1, 2, 1) 1%R, full3 (1, 2, 1) 1%R)
                Example.one_mask_store) as Hspec.
  destruct (EagleModule.forward Example.draft _ _ _ _ _ _ _)
    as [[[[[proj hidden] logits] cache] h']|e].
  - exfalso. destruct Hspec as (Hsome & _). now apply Hsome.
  - now rewrite (Hspec eq_refl).
Defined.

Lemma heads_split_and_merge_witness :
  exists heads merged,
    view_heads (Example.second_position 1%R) 1 = Ok heads
    /\ shape4 (transpose12 heads) = (1, 2, 2, 1)
    /\ reshape_merge (transpose12 (transpose12 heads)) = Ok merged
    /\ get3 merged 0 1 1 = 1%R.
Proof.
  destruct (proj1 (heads_split_and_merge (Example.second_position 1%R) 1 1 2 2
                     eq_refl))
    as (heads & merged & Hview & Hshape & _ & Hmerge & _ & Hget);
    [lia|lia|lia|reflexivity|].
  exists heads, merged. split; [exact Hview|]. split; [exact Hshape|].
  split; [exact Hmerge|]. rewrite Hget. reflexivity.
Defined.

(** The default layers of a base model of 8 layers. *)
Lemma default_aux_layers_selection_witness :
  comprehension (getitem_z (seq 0 9))
    (HFEagleModel.eagle_aux_hidden_state_layer_ids
       (_set_default_aux_hidden_state_layers Example.model 8))
  = Ok [1; 3; 4].
Proof.
  destruct (proj1 (default_aux_layers_selection Example.model 8 nat (seq 0 9)
                     eq_refl))
    as (a & b & c & Hrun & Ha & Hb & Hc); [lia|].
  cbn in Ha, Hb, Hc. injection Ha as <-. injection Hb as <-. injection Hc as <-.
  exact Hrun.
Defined.

(** Two heads on labels [1, 3], the base model frozen. *)
Lemma medusa_loss_pairs_shifted_labels_witness :
  exists out,
    HFMedusaModel.forward (Example.medusa 2)
      (Example.medusa_args (Some Example.medusa_labels) 0 true
         (Some (2 / 10)%R) (Some (8 / 10)%R))
    = HFMedusaModel.Returned out
    /\ length (HFMedusaModel.medusa_logits out) = 2
    /\ HFMedusaModel.loss out
       = Some (medusa_loss 0%R (8 / 10)%R (2 / 10)%R Example.medusa_labels
                 (HFMedusaModel.medusa_logits out)).
Proof.
  destruct (medusa_loss_pairs_shifted_labels (Example.medusa 2)
              (Example.medusa_args (Some Example.medusa_labels) 0 true
                 (Some (2 / 10)%R) (Some (8 / 10)%R))
              Example.medusa_labels
              (HFMedusaModel.slice3_from (- 0)
                 (medusa_hidden_states (Example.medusa 2)
                    (Example.medusa_args (Some Example.medusa_labels) 0 true
                       (Some (2 / 10)%R) (Some (8 / 10)%R))))
              (8 / 10)%R (2 / 10)%R 1 3 2)
    as ((out & Hrun & _ & Hlogits & Hloss) & _); try reflexivity.
  - lia.
  - intros b [|[|[|s]]] _ Hs; [right|right|right|]; cbn; lia.
  - intros head [<-|[<-|[]]]; reflexivity.
  - exists out. split; [exact Hrun|]. split; [|exact Hloss].
    rewrite Hlogits. reflexivity.
Defined.

(** One head on labels [1, 3] with the last two positions kept. *)
Lemma medusa_trimmed_logits_reject_labels_witness :
  HFMedusaModel.forward (Example.medusa 1)
    (Example.medusa_args (Some Example.medusa_labels) 2 true
       (Some (2 / 10)%R) (Some (8 / 10)%R))
  = HFMedusaModel.Raised HFMedusaModel.ValueError.
Proof.
  apply (proj1 (medusa_trimmed_logits_reject_labels (Example.medusa 1)
                  (Example.medusa_args (Some Example.medusa_labels) 2 true
                     (Some (2 / 10)%R) (Some (8 / 10)%R))
                  Example.medusa_labels 2 1 3 1
                  eq_refl eq_refl eq_refl eq_refl
                  ltac:(lia) ltac:(lia) eq_refl
                  ltac:(intros f [->|[<-|[]]]; exists 2; split;
                        try lia; reflexivity))).
  right. cbn. lia.
Defined.

Lemma medusa_loss_needs_coefficients_witness :
  HFMedusaModel.forward (Example.medusa 1)
    (Example.medusa_args (Some Example.medusa_labels) 0 true
       (Some (2 / 10)%R) None)
  = HFMedusaModel.Raised HFMedusaModel.TypeError.
Proof.
  apply (medusa_loss_needs_coefficients (Example.medusa 1)
           (Example.medusa_args (Some Example.medusa_labels) 0 true
              (Some (2 / 10)%R) None)
           Example.medusa_labels
           (HFMedusaModel.slice3_from (- 0)
              (medusa_hidden_states (Example.medusa 1)
                 (Example.medusa_args (Some Example.medusa_labels) 0 true
                    (Some (2 / 10)%R) None)))
           1 3 2 (Example.first_feature 2) []); try reflexivity.
  - intros b [|[|[|s]]] _ Hs; [right|right|right|]; cbn; lia.
  - lia.
  - left. reflexivity.
Defined.

Lemma medusa_forward_without_labels_witness :
  exists out,
    HFMedusaModel.forward (Example.medusa 1)
      (Example.medusa_args None 2 true None None)
    = HFMedusaModel.Returned out
    /\ HFMedusaModel.loss out = None
    /\ shape3 (HFMedusaModel.logits out) = (1, 2, 2)
    /\ get3 (HFMedusaModel.logits out) 0 0 0 = 1%R.
Proof.
  destruct (medusa_forward_without_labels (Example.medusa 1)
              (Example.medusa_args None 2 true None None) 2 1 3 1
              eq_refl eq_refl eq_refl eq_refl)
    as (out & kept & Hrun & Hloss & Hlogits & _ & Hshape & Hget).
  exists out. split; [exact Hrun|]. split; [exact Hloss|].
  rewrite Hlogits. unfold HFMedusaModel.lm_head, Example.medusa,
    Example.first_feature. rewrite Hshape. cbn [shape3 get3].
  split; [reflexivity|]. rewrite Hget. reflexivity.
Defined.

(** Three heads of two layers: the second head holds the objects 12 and 13,
    the block 12 twice. *)
Lemma medusa_heads_share_one_block_witness :
  nth 1 (fst (HFMedusaModel.new_heads 3 2 10)) [] = [12; 12; 13]
  /\ snd (HFMedusaModel.new_heads 3 2 10) = 16.
Proof.
  destruct (medusa_heads_share_one_block (T := R) 3 2 10 (fun _ t => t))
    as (_ & Hnext & Hheads & _).
  split; [|exact Hnext]. apply (Hheads 1). lia.
Defined.

End MoreOnTheSmallModel.


(** ** The attention weights *)

Section AttentionWeights.

Context `{External R}.

(** X24. In evaluation mode, where dropout changes nothing, the attention
    weights that [eager_attention_forward] returns are, for each query, a
    distribution over the keys: every weight is between 0 and 1 and the
    weights of a query sum to 1, with or without a mask. (The sum is that
    of exact arithmetic, on scores and mask entries that are finite. No
    weight is said to be positive: the weight of a key blocked with
    [finfo.min] is 0 in floating point.) *)
Theorem attention_weights_are_a_distribution
    (module : ModifiedLlamaAttention.t R) (query key value : tensor4 R)
    (attention_mask : option (tensor4 R)) (scaling dropout_p : R)
    (attn_output attn_weights : tensor4 R) :
  (forall t p, dropout t p false = t) ->
  ModifiedLlamaAttention.training module = false ->
  ModifiedLlamaAttention.eager_attention_forward module query key value
    attention_mask scaling dropout_p = Ok (attn_output, attn_weights) ->
  let keys := snd (shape4 attn_weights) in
  0 < keys ->
  forall i h r,
    (forall c, c < keys -> (0 <= get4 attn_weights i h r c <= 1)%R)
    /\ sum_range keys (get4 attn_weights i h r) = 1%R.
Proof.
  intros Hdropout Htraining Hrun keys Hkeys i h r. subst keys.
  unfold ModifiedLlamaAttention.eager_attention_forward in Hrun.
  destruct (matmul_nt query _) as [scores|e]; [|discriminate].
  cbn [rbind] in Hrun.
  assert (Hsoft : forall x : tensor4 R,
            match matmul (dropout (softmax_last4 x) dropout_p
                            (ModifiedLlamaAttention.training module))
                    (repeat_kv value
                       (ModifiedLlamaAttention.num_key_value_groups module)) with
            | Ok out => Ok (transpose12 out,
                            dropout (softmax_last4 x) dropout_p
                              (ModifiedLlamaAttention.training module))
            | Err e => Err e
            end = Ok (attn_output, attn_weights) ->
            attn_weights = softmax_last4 x).
  { intros x Hx. rewrite Htraining, Hdropout in Hx.
    destruct (matmul _ _); [|discriminate]. now injection Hx as _ <-. }
  assert (Hdist : forall x : tensor4 R,
            0 < snd (shape4 (softmax_last4 x)) ->
            (forall c, c < snd (shape4 (softmax_last4 x)) ->
               (0 <= get4 (softmax_last4 x) i h r c <= 1)%R)
            /\ sum_range (snd (shape4 (softmax_last4 x)))
                 (get4 (softmax_last4 x) i h r) = 1%R).
  { intros x. unfold softmax_last4.
    destruct (shape4 x) as [[[d0 d1] d2] d3]. cbn [shape4 get4 snd].
    intros Hd.
    pose proof (exp_sum_pos d3 (get4 x i h r) Hd) as Hsum.
    split.
    - intros c Hc.
      pose proof (sum_range_term_le d3
                    (fun j => Rtrigo_def.exp (get4 x i h r j)) c
                    (fun j _ => Rlt_le _ _ (exp_pos _)) Hc) as Hle.
      cbn beta in Hle. split.
      + apply Rlt_le. apply Rdiv_lt_0_compat; [apply exp_pos|exact Hsum].
      + apply (Rmult_le_reg_r
                 (sum_range d3 (fun j => Rtrigo_def.exp (get4 x i h r j))));
          [exact Hsum|].
        change (div ?a ?b) with (a / b)%R.
        change (exp ?a) with (Rtrigo_def.exp a).
        unfold Rdiv. rewrite Rmult_assoc, Rinv_l, Rmult_1_r, Rmult_1_l;
          [exact Hle|].
        apply Rgt_not_eq. exact Hsum.
    - apply (softmax_sums_to_one d3 (get4 x i h r) Hd). }
  destruct attention_mask as [mask|].
  - destruct (binop4 add _ mask) as [masked|e]; [|discriminate].
    cbn [rbind] in Hrun. apply Hsoft in Hrun. subst attn_weights.
    now apply Hdist.
  - cbn [rbind] in Hrun. apply Hsoft in Hrun. subst attn_weights.
    now apply Hdist.
Qed.

End AttentionWeights.

Section AttentionOnTheSmallModel.

#[local] Existing Instance Example.external.

(** The attention of the small model on two queries and two keys. *)
Lemma attention_weights_are_a_distribution_witness :
  exists attn_output attn_weights,
    ModifiedLlamaAttention.eager_attention_forward Example.attention
      (full4 (1, 1, 2, 1) 1%R) (full4 (1, 1, 2, 1) 1%R) (full4 (1, 1, 2, 1) 1%R)
      (Some (Example.causal_mask (1, 2) 0)) 1%R 0%R
    = Ok (attn_output, attn_weights)
    /\ (0 <= get4 attn_weights 0 0 0 1 <= 1)%R
    /\ sum_range 2 (get4 attn_weights 0 0 0) = 1%R.
Proof.
  destruct (succeeded_ok
              (ModifiedLlamaAttention.eager_attention_forward Example.attention
                 (full4 (1, 1, 2, 1) 1%R) (full4 (1, 1, 2, 1) 1%R)
                 (full4 (1, 1, 2, 1) 1%R)
                 (Some (Example.causal_mask (1, 2) 0)) 1%R 0%R))
    as [[out w] Hrun]; [lazy; reflexivity|].
  assert (Hkeys : match ModifiedLlamaAttention.eager_attention_forward
                          Example.attention
                          (full4 (1, 1, 2, 1) 1%R) (full4 (1, 1, 2, 1) 1%R)
                          (full4 (1, 1, 2, 1) 1%R)
                          (Some (Example.causal_mask (1, 2) 0)) 1%R 0%R with
                  | Ok (_, w) => snd (shape4 w)
                  | Err _ => 0
                  end = 2) by (lazy; reflexivity).
  rewrite Hrun in Hkeys.
  pose proof (attention_weights_are_a_distribution Example.attention
                (full4 (1, 1, 2, 1) 1%R) (full4 (1, 1, 2, 1) 1%R)
                (full4 (1, 1, 2, 1) 1%R)
                (Some (Example.causal_mask (1, 2) 0)) 1%R 0%R out w
                (fun t p => eq_refl) eq_refl Hrun) as Hdist.
  cbv zeta in Hdist. rewrite Hkeys in Hdist.
  destruct (Hdist ltac:(lia) 0 0 0) as (Hpos & Hsum).
  exists out, w. split; [exact Hrun|]. split; [apply Hpos; lia|exact Hsum].
Defined.

End AttentionOnTheSmallModel.
